(** * forex-algo-trader: the SMA crossover strategy engine

    A shallow embedding of [src/strategies/base_strategy.py] and
    [src/strategies/sma_crossover.py], and the properties of the
    strategy engine checked against it.

    Modelling conventions.
    - A Python/NumPy float is an exact rational extended with the two
      infinities and NaN ([fnum]).  Rounding, overflow and the sign of
      zero are not represented; comparisons and the NaN / infinity
      behaviour of division follow IEEE 754.  A statement whose truth
      depends on the arithmetic being exact says so.
    - Dividing two Python floats, as the loop over [iterrows()] does,
      raises [ZeroDivisionError] on a zero divisor ([py_div]); the
      division of NumPy and pandas values ([fdiv]) does not raise.
    - Periods and window sizes are mathematical integers; that pandas
      cannot convert a window size beyond 64 bits is not represented.
    - A pandas Series is a list, positioned by its default integer
      index; a DataFrame is a row count with a finite map from column
      labels to typed columns.
    - Python exceptions are the [Raise] case of [result].
    - Objects that the code mutates in place or shares (the frames held
      in [self.data] and [self.signals], the caller's frame) live in a
      store of frames addressed by locations. *)

From Stdlib Require Import ZArith QArith Qabs Lqa Lia.
From stdpp Require Import base option list sorting gmap strings.

Local Open Scope Z_scope.

(** ** Floats *)

Module Float.

Inductive fnum : Type :=
  | Fin (q : Q)
  | PInf
  | NInf
  | NaN.

Definition Qsign (q : Q) : comparison := Qcompare q 0%Q.

Definition fneg (x : fnum) : fnum :=
  match x with
  | Fin q => Fin (- q)%Q
  | PInf => NInf
  | NInf => PInf
  | NaN => NaN
  end.

Definition fadd (x y : fnum) : fnum :=
  match x, y with
  | NaN, _ | _, NaN => NaN
  | Fin a, Fin b => Fin (a + b)%Q
  | PInf, NInf | NInf, PInf => NaN
  | PInf, _ | _, PInf => PInf
  | NInf, _ | _, NInf => NInf
  end.

Definition fsub (x y : fnum) : fnum := fadd x (fneg y).

(** An infinity of the sign of [s], NaN for a zero factor. *)
Definition signed_inf (s : comparison) : fnum :=
  match s with
  | Gt => PInf
  | Lt => NInf
  | Eq => NaN
  end.

Definition fmul (x y : fnum) : fnum :=
  match x, y with
  | NaN, _ | _, NaN => NaN
  | Fin a, Fin b => Fin (a * b)%Q
  | Fin a, PInf | PInf, Fin a => signed_inf (Qsign a)
  | Fin a, NInf | NInf, Fin a => signed_inf (CompOpp (Qsign a))
  | PInf, PInf | NInf, NInf => PInf
  | PInf, NInf | NInf, PInf => NInf
  end.

(** IEEE division: a non-zero finite value over zero is an infinity,
    zero over zero and infinity over infinity are NaN. *)
Definition fdiv (x y : fnum) : fnum :=
  match x, y with
  | NaN, _ | _, NaN => NaN
  | Fin a, Fin b =>
      match Qsign b with
      | Eq => signed_inf (Qsign a)
      | _ => Fin (a / b)%Q
      end
  | Fin _, (PInf | NInf) => Fin 0%Q
  | PInf, Fin b => match Qsign b with Lt => NInf | _ => PInf end
  | NInf, Fin b => match Qsign b with Lt => PInf | _ => NInf end
  | (PInf | NInf), (PInf | NInf) => NaN
  end.

Definition fabs (x : fnum) : fnum :=
  match x with
  | Fin q => Fin (Qabs q)
  | PInf | NInf => PInf
  | NaN => NaN
  end.

(** Three-way comparison; [None] when either side is NaN. *)
Definition fcompare (x y : fnum) : option comparison :=
  match x, y with
  | NaN, _ | _, NaN => None
  | Fin a, Fin b => Some (Qcompare a b)
  | PInf, PInf | NInf, NInf => Some Eq
  | PInf, _ | _, NInf => Some Gt
  | NInf, _ | _, PInf => Some Lt
  end.

Definition fltb (x y : fnum) : bool :=
  match fcompare x y with Some Lt => true | _ => false end.
Definition fgtb (x y : fnum) : bool := fltb y x.
Definition fleb (x y : fnum) : bool :=
  match fcompare x y with Some (Lt | Eq) => true | _ => false end.
Definition fgeb (x y : fnum) : bool := fleb y x.
Definition feqb (x y : fnum) : bool :=
  match fcompare x y with Some Eq => true | _ => false end.
(** Python's [!=]: true when either side is NaN. *)
Definition fneb (x y : fnum) : bool := negb (feqb x y).

Definition isnan (x : fnum) : bool :=
  match x with NaN => true | _ => false end.
Definition notna (x : fnum) : bool := negb (isnan x).

Definition is_finite (x : fnum) : Prop :=
  match x with Fin _ => True | _ => False end.

Definition of_Z (z : Z) : fnum := Fin (inject_Z z).
Definition of_nat (n : nat) : fnum := Fin (inject_Z (Z.of_nat n)).

Definition fzero : fnum := Fin 0%Q.

End Float.
Export Float.

(** ** Exceptions *)

Inductive error : Type :=
  | ValueError (msg : string)
  | KeyError (key : string)
  | TypeError (msg : string)
  | ZeroDivisionError (msg : string).

Inductive result (A : Type) : Type :=
  | Ok (a : A)
  | Raise (e : error).
Arguments Ok {A} a.
Arguments Raise {A} e.

#[global] Instance result_ret : MRet result := λ A a, Ok a.
#[global] Instance result_bind : MBind result := λ A B f m,
  match m with
  | Ok a => f a
  | Raise e => Raise e
  end.

(** Python's [/] on two floats: a zero divisor raises, where NumPy
    and pandas return an infinity or NaN. *)
Definition py_div (x y : fnum) : result fnum :=
  if feqb y fzero then Raise (ZeroDivisionError "float division by zero")
  else Ok (fdiv x y).

Definition raises {A} (m : result A) : Prop :=
  match m with Raise _ => True | Ok _ => False end.
Definition succeeds {A} (m : result A) : Prop :=
  match m with Ok _ => True | Raise _ => False end.

(** ** The pandas operations the strategies use

    pandas is not part of the repository; the operations are modelled
    after their documented behaviour on a default integer index. *)

Module Pandas.

(** A float64 Series. *)
Abbreviation series := (list fnum).

(** Reductions skip NaN ([skipna=True]). *)
Definition valid (s : series) : series := List.filter notna s.

Definition fsum (s : series) : fnum := foldr fadd fzero s.

Definition series_sum (s : series) : fnum := fsum (valid s).

Definition mean_of (v : series) : fnum := fdiv (fsum v) (of_nat (length v)).

Definition series_mean (s : series) : fnum :=
  match valid s with
  | [] => NaN
  | v => mean_of v
  end.

Definition fmax (x y : fnum) : fnum := if fltb x y then y else x.
Definition fmin (x y : fnum) : fnum := if fltb y x then y else x.

Definition series_max (s : series) : fnum :=
  match valid s with
  | [] => NaN
  | x :: v => foldl fmax x v
  end.

Definition series_min (s : series) : fnum :=
  match valid s with
  | [] => NaN
  | x :: v => foldl fmin x v
  end.

(** [s.shift(1)] *)
Definition shift1 (s : series) : series := take (length s) (NaN :: s).

(** Element-wise binary operation; the operands are aligned on the
    index, a label missing on either side gives NaN. *)
Definition series_zip (f : fnum → fnum → fnum) (a b : series) : series :=
  (λ i, match a !! i, b !! i with
        | Some x, Some y => f x y
        | _, _ => NaN
        end) <$> seq 0 (Nat.max (length a) (length b)).

Definition series_sub : series → series → series := series_zip fsub.
Definition series_div : series → series → series := series_zip fdiv.

(** [s.diff()] *)
Definition diff (s : series) : series := series_sub s (shift1 s).

(** [s.where(cond, other)] with a scalar [other]. *)
Definition where_ (cond : fnum → bool) (other : fnum) (s : series) : series :=
  (λ x, if cond x then x else other) <$> s.

(** The trailing window of (at most) [w] values ending at index [i]. *)
Definition window_at (w : nat) (s : series) (i : nat) : series :=
  drop (S i - w) (take (S i) s).

(** A rolling aggregate: at each index, [agg] of the valid values in the
    window when there are at least [minp] of them and more than
    [ddof], NaN otherwise. *)
Definition rolling_apply (agg : series → fnum) (ddof w minp : nat)
    (s : series) : series :=
  (λ i, let v := valid (window_at w s i) in
        if bool_decide (minp ≤ length v ∧ ddof < length v)%nat
        then agg v else NaN) <$> seq 0 (length s).

(** The validation of [s.rolling(window, min_periods)]: a given
    [min_periods] is checked first, against zero and then against the
    window, and the window after it; without [min_periods] the window
    size is used. *)
Definition check_window (window : Z) (min_periods : option Z) : result (nat * nat) :=
  match min_periods with
  | Some minp =>
      if bool_decide (minp < 0) then
        Raise (ValueError "min_periods must be >= 0")
      else if bool_decide (window < minp) then
        Raise (ValueError "min_periods must be <= window")
      else if bool_decide (window < 0) then
        Raise (ValueError "window must be an integer 0 or greater")
      else Ok (Z.to_nat window, Z.to_nat minp)
  | None =>
      if bool_decide (window < 0) then
        Raise (ValueError "window must be an integer 0 or greater")
      else Ok (Z.to_nat window, Z.to_nat window)
  end.

(** [s.rolling(window, min_periods).mean()] *)
Definition rolling_mean (window : Z) (min_periods : option Z) (s : series)
    : result series :=
  '(w, minp) ← check_window window min_periods;
  Ok (rolling_apply mean_of 0 w minp s).

Section std.
(** The square root on non-negative rationals is taken as given. *)
Variable sqrtQ : Q → Q.

Definition fsqrt (x : fnum) : fnum :=
  match x with
  | Fin q => match Qsign q with Lt => NaN | _ => Fin (sqrtQ q) end
  | PInf => PInf
  | NInf | NaN => NaN
  end.

(** Sample variance ([ddof=1]). *)
Definition var_of (v : series) : fnum :=
  let m := mean_of v in
  fdiv (fsum ((λ x, fmul (fsub x m) (fsub x m)) <$> v))
       (of_nat (length v - 1)).

Definition std_of (v : series) : fnum := fsqrt (var_of v).

(** [s.rolling(window, min_periods).std()] *)
Definition rolling_std (window : Z) (min_periods : option Z) (s : series)
    : result series :=
  '(w, minp) ← check_window window min_periods;
  Ok (rolling_apply std_of 1 w minp s).
End std.

(** [s.ewm(span, adjust=False, min_periods).mean()], with
    [alpha = 2 / (span + 1)] and the default [ignore_na=False]:
    the running average [weighted], the weight [old_wt] of the history
    and the number of observations seen. *)
Record ewm_state : Type := mk_ewm {
  weighted : fnum;
  old_wt : fnum;
  nobs : nat
}.

Definition ewm_alpha (span : Z) : fnum := fdiv (Fin 2) (fadd (of_Z span) (Fin 1)).

Definition ewm_out (minp : nat) (st : ewm_state) : fnum :=
  if bool_decide (minp ≤ nobs st)%nat then weighted st else NaN.

Definition ewm_first (x : fnum) : ewm_state :=
  {| weighted := x; old_wt := Fin 1; nobs := if notna x then 1 else 0 |}.

Definition ewm_step (alpha : fnum) (st : ewm_state) (cur : fnum) : ewm_state :=
  let is_observation := notna cur in
  let n := (nobs st + (if is_observation then 1 else 0))%nat in
  if notna (weighted st) then
    let ow := fmul (old_wt st) (fsub (Fin 1) alpha) in
    if is_observation then
      let w :=
        if fneb (weighted st) cur then
          fdiv (fadd (fmul ow (weighted st)) (fmul alpha cur)) (fadd ow alpha)
        else weighted st in
      {| weighted := w; old_wt := Fin 1; nobs := n |}
    else {| weighted := weighted st; old_wt := ow; nobs := n |}
  else if is_observation then
    {| weighted := cur; old_wt := old_wt st; nobs := n |}
  else {| weighted := weighted st; old_wt := old_wt st; nobs := n |}.

Fixpoint ewm_run (alpha : fnum) (minp : nat) (st : ewm_state) (s : series)
    : series :=
  match s with
  | [] => []
  | cur :: s' =>
      let st' := ewm_step alpha st cur in
      ewm_out minp st' :: ewm_run alpha minp st' s'
  end.

Definition ewm_mean (span : Z) (min_periods : Z) (s : series) : result series :=
  if bool_decide (span < 1) then
    Raise (ValueError "span must satisfy: span >= 1")
  else
    let minp := Z.to_nat (Z.max min_periods 0) in
    match s with
    | [] => Ok []
    | x :: s' =>
        let st := ewm_first x in
        Ok (ewm_out minp st :: ewm_run (ewm_alpha span) minp st s')
    end.


(** *** Data frames *)

Inductive column : Type :=
  | FloatCol (l : list fnum)
  | IntCol (l : list Z)
  | TimeCol (l : list Z).

Record DataFrame : Type := mkDF {
  nrows : nat;
  cols : gmap string column
}.

(** [pd.DataFrame()] *)
Definition empty_frame : DataFrame := {| nrows := 0; cols := ∅ |}.

Definition columns (df : DataFrame) : gset string := dom (cols df).

(** [df[k]] *)
Definition getitem (df : DataFrame) (k : string) : result column :=
  match cols df !! k with
  | Some c => Ok c
  | None => Raise (KeyError k)
  end.

(** [df[k] = c] *)
Definition setitem (k : string) (c : column) (df : DataFrame) : DataFrame :=
  {| nrows := nrows df; cols := <[k := c]> (cols df) |}.

(** Columns of another dtype than the one the strategy computes with
    are outside the model and reported as a [TypeError]. *)
Definition as_float (c : column) : result series :=
  match c with
  | FloatCol l => Ok l
  | IntCol l => Ok (of_Z <$> l)
  | TimeCol _ => Raise (TypeError "datetime64 column used as a number")
  end.

Definition as_int (c : column) : result (list Z) :=
  match c with
  | IntCol l => Ok l
  | FloatCol _ | TimeCol _ => Raise (TypeError "integer column expected")
  end.

Definition as_time (c : column) : result (list Z) :=
  match c with
  | TimeCol l | IntCol l => Ok l
  | FloatCol _ => Raise (TypeError "timestamp column expected")
  end.

Definition float_col (df : DataFrame) (k : string) : result series :=
  getitem df k ≫= as_float.
Definition int_col (df : DataFrame) (k : string) : result (list Z) :=
  getitem df k ≫= as_int.
Definition time_col (df : DataFrame) (k : string) : result (list Z) :=
  getitem df k ≫= as_time.

(** [df.loc[i, k]] on the default index: the label must exist. *)
Definition at_ {A} (k : string) (l : list A) (i : nat) : result A :=
  match l !! i with
  | Some x => Ok x
  | None => Raise (KeyError k)
  end.

(** [df.loc[mask, k] = v] for an integer column [k]. *)
Definition loc_set_mask (mask : list bool) (k : string) (v : Z)
    (df : DataFrame) : result DataFrame :=
  c ← int_col df k;
  Ok (setitem k (IntCol (zip_with (λ (m : bool) x, if m then v else x) mask c)) df).

(** [df.loc[i, k] = v] for an integer column [k] and an existing label. *)
Definition loc_set (i : nat) (k : string) (v : Z) (df : DataFrame)
    : result DataFrame :=
  c ← int_col df k;
  Ok (setitem k (IntCol (<[i := v]> c)) df).

(** Selecting the rows at the positions [idx], in that order
    ([df.iloc[idx]] followed by [reset_index(drop=True)]). *)
Definition take_rows {A} (idx : list nat) (l : list A) : list A :=
  omap (λ i, l !! i) idx.

Definition column_take (idx : list nat) (c : column) : column :=
  match c with
  | FloatCol l => FloatCol (take_rows idx l)
  | IntCol l => IntCol (take_rows idx l)
  | TimeCol l => TimeCol (take_rows idx l)
  end.

Definition frame_take (idx : list nat) (df : DataFrame) : DataFrame :=
  {| nrows := length idx; cols := column_take idx <$> cols df |}.

(** Boolean indexing [df[mask]]: the rows where the mask holds, in
    index order. *)
Fixpoint select {A} (mask : list bool) (l : list A) : list A :=
  match mask, l with
  | m :: mask', x :: l' =>
      if m then x :: select mask' l' else select mask' l'
  | _, _ => []
  end.

Definition column_select (mask : list bool) (c : column) : column :=
  match c with
  | FloatCol l => FloatCol (select mask l)
  | IntCol l => IntCol (select mask l)
  | TimeCol l => TimeCol (select mask l)
  end.

Definition frame_filter (mask : list bool) (df : DataFrame) : DataFrame :=
  {| nrows := length (select mask (seq 0 (nrows df)));
     cols := column_select mask <$> cols df |}.

(** [argsort] of a timestamp column: the positions in ascending order of
    their timestamps. *)
Definition time_le (a b : Z * nat) : Prop := a.1 ≤ b.1.

#[global] Instance time_le_dec a b : Decision (time_le a b) :=
  Z_le_dec a.1 b.1.

Definition argsort (ts : list Z) : list nat :=
  snd <$> merge_sort time_le (zip ts (seq 0 (length ts))).

(** [df.sort_values(k).reset_index(drop=True)] for a timestamp column. *)
Definition sort_values (k : string) (df : DataFrame) : result DataFrame :=
  ts ← time_col df k;
  Ok (frame_take (argsort ts) df).

End Pandas.
Export Pandas.

(** ** [TechnicalIndicators] (base_strategy.py) *)

Module TechnicalIndicators.

Definition sma (data : series) (period : Z) : result series :=
  rolling_mean period (Some period) data.

Definition ema (data : series) (period : Z) : result series :=
  ewm_mean period period data.

Definition scalar_sub (c : fnum) (s : series) : series := fsub c <$> s.
Definition scalar_div (c : fnum) (s : series) : series := fdiv c <$> s.
Definition scalar_add (c : fnum) (s : series) : series := fadd c <$> s.

Definition rsi (data : series) (period : Z) : result series :=
  let delta := diff data in
  gain ← rolling_mean period None (where_ (λ d, fgtb d fzero) fzero delta);
  loss ← rolling_mean period None
            (fneg <$> where_ (λ d, fltb d fzero) fzero delta);
  let rs := series_div gain loss in
  Ok (scalar_sub (Fin 100) (scalar_div (Fin 100) (scalar_add (Fin 1) rs))).


Section bollinger.
Variable sqrtQ : Q → Q.

Definition bollinger_bands (data : series) (period : Z) (num_std : fnum)
    : result (series * series * series) :=
  middle_band ← rolling_mean period (Some period) data;
  std ← rolling_std sqrtQ period (Some period) data;
  let upper_band := series_zip fadd middle_band (flip fmul num_std <$> std) in
  let lower_band := series_zip fsub middle_band (flip fmul num_std <$> std) in
  Ok (middle_band, upper_band, lower_band).
End bollinger.


End TechnicalIndicators.

(** ** [BaseStrategy] (base_strategy.py) *)

(** Frames are Python objects: a strategy and its caller hold
    references into a store. *)
Abbreviation loc := positive.
Abbreviation store := (gmap loc DataFrame).

(** The instance: the attributes of [BaseStrategy] and the three
    parameters that [SMACrossoverStrategy] adds (also the content of
    the [parameters] dict). *)
Record Strategy : Type := mkStrategy {
  name : string;
  short_period : Z;
  long_period : Z;
  min_candles_after_cross : Z;
  data : option loc;
  signals : option loc
}.

Definition set_data (l : option loc) (self : Strategy) : Strategy :=
  {| name := name self; short_period := short_period self;
     long_period := long_period self;
     min_candles_after_cross := min_candles_after_cross self;
     data := l; signals := signals self |}.

Definition set_signals (l : option loc) (self : Strategy) : Strategy :=
  {| name := name self; short_period := short_period self;
     long_period := long_period self;
     min_candles_after_cross := min_candles_after_cross self;
     data := data self; signals := l |}.

(** Reading the object behind an attribute; subscripting [None] is a
    [TypeError]. *)
Definition deref (σ : store) (l : option loc) : result DataFrame :=
  match l with
  | None => Raise (TypeError "'NoneType' object is not subscriptable")
  | Some l =>
      match σ !! l with
      | Some df => Ok df
      | None => Raise (ValueError "dangling reference")
      end
  end.

Module BaseStrategy.

(** The abstract methods.  Both work in place on the frame referenced
    by [self.data] and return that reference. *)
Class Methods : Type := {
  calculate_indicators : store * Strategy → result (store * loc);
  generate_signals : store * Strategy → result (store * loc)
}.

Definition required_columns : list string :=
  ["time"; "open"; "high"; "low"; "close"; "volume"].

Section load.
(** [pd.to_datetime] parses a column of another dtype into
    timestamps, or raises; the parser is taken as given. *)
Variable to_datetime : column → result (list Z).

Definition load_data (w : store * Strategy) (data_arg : loc)
    : result (store * Strategy) :=
  let '(σ, self) := w in
  df ← deref σ (Some data_arg);
  if forallb (λ col, bool_decide (col ∈ columns df)) required_columns then
    (* self.data = data.copy() *)
    let l1 := fresh (dom σ) in
    let σ := <[l1 := df]> σ in
    let self := set_data (Some l1) self in
    time ← getitem df "time";
    σ ← match time with
        | TimeCol _ => Ok σ
        | _ =>
            ts ← to_datetime time;
            Ok (<[l1 := setitem "time" (TimeCol ts) df]> σ)
        end;
    (* self.data = self.data.sort_values('time').reset_index(drop=True) *)
    df ← deref σ (data self);
    sorted ← sort_values "time" df;
    let l2 := fresh (dom σ) in
    Ok (<[l2 := sorted]> σ, set_data (Some l2) self)
  else Raise (ValueError "Data missing required columns").
End load.

Definition run `{Methods} (w : store * Strategy) : result (store * Strategy) :=
  let '(σ, self) := w in
  match data self with
  | None => Raise (ValueError "No data loaded. Call load_data() first.")
  | Some _ =>
      '(σ, l) ← calculate_indicators (σ, self);
      let self := set_data (Some l) self in
      '(σ, l) ← generate_signals (σ, self);
      let self := set_signals (Some l) self in
      Ok (σ, self)
  end.

(** [run()] invoked [n] times in a row. *)
Fixpoint run_times `{Methods} (n : nat) (w : store * Strategy)
    : result (store * Strategy) :=
  match n with
  | O => Ok w
  | S n' => w' ← run w; run_times n' w'
  end.

Definition count_eq (v : Z) (l : list Z) : nat :=
  length (List.filter (λ s, bool_decide (s = v)) l).

Definition nonzero (l : list Z) : list bool := (λ s, bool_decide (s ≠ 0)) <$> l.

Definition get_all_signals (w : store * Strategy) (signal_type : option Z)
    : result DataFrame :=
  let '(σ, self) := w in
  match signals self with
  | None => Ok empty_frame
  | Some l =>
      df ← deref σ (Some l);
      sig ← int_col df "signal";
      match signal_type with
      | Some t => Ok (frame_filter ((λ s, bool_decide (s = t)) <$> sig) df)
      | None => Ok (frame_filter (nonzero sig) df)
      end
  end.

(** The dictionary returned by [get_summary]; [None] is the empty
    dictionary. *)
Record Summary : Type := mkSummary {
  strategy_name : string;
  parameters : Z * Z * Z;
  data_points : nat;
  date_range_start : option Z;
  date_range_end : option Z;
  signals_total : nat;
  signals_buy : nat;
  signals_sell : nat;
  buy_percentage : fnum;
  sell_percentage : fnum
}.

Definition time_min (l : list Z) : option Z :=
  match l with [] => None | t :: l => Some (foldl Z.min t l) end.
Definition time_max (l : list Z) : option Z :=
  match l with [] => None | t :: l => Some (foldl Z.max t l) end.

Definition percentage (n total : nat) : fnum :=
  if bool_decide (0 < total)%nat
  then fmul (fdiv (of_nat n) (of_nat total)) (Fin 100)
  else fzero.

Definition get_summary (w : store * Strategy) : result (option Summary) :=
  let '(σ, self) := w in
  match signals self with
  | None => Ok None
  | Some l =>
      df ← deref σ (Some l);
      sig ← int_col df "signal";
      let buy_signals := count_eq 1 sig in
      let sell_signals := count_eq (-1) sig in
      let total_signals := (buy_signals + sell_signals)%nat in
      '(n, t_min, t_max) ←
        match data self with
        | None => Ok (0%nat, None, None)
        | Some d =>
            ddf ← deref σ (Some d);
            t ← time_col ddf "time";
            Ok (nrows ddf, time_min t, time_max t)
        end;
      Ok (Some {| strategy_name := name self;
                  parameters := (short_period self, long_period self,
                                 min_candles_after_cross self);
                  data_points := n;
                  date_range_start := t_min;
                  date_range_end := t_max;
                  signals_total := total_signals;
                  signals_buy := buy_signals;
                  signals_sell := sell_signals;
                  buy_percentage := percentage buy_signals total_signals;
                  sell_percentage := percentage sell_signals total_signals |})
  end.

(** [export_signals]: the result is the frame written to [filepath]. *)
Definition export_signals (w : store * Strategy) (filepath : string)
    : result DataFrame :=
  let '(σ, self) := w in
  match signals self with
  | None => Raise (ValueError "No signals to export. Run the strategy first.")
  | Some l =>
      df ← deref σ (Some l);
      sig ← int_col df "signal";
      Ok (frame_filter (nonzero sig) df)
  end.

End BaseStrategy.

(** ** [SMACrossoverStrategy] (sma_crossover.py) *)

Module SMACrossoverStrategy.

(** [__init__]: the base initialiser sets [data] and [signals] to
    [None]; the only validation is on the two periods. *)
Definition init (short_period long_period min_candles_after_cross : Z)
    : result Strategy :=
  let self := {| name := "SMA_Crossover";
                 short_period := short_period;
                 long_period := long_period;
                 min_candles_after_cross := min_candles_after_cross;
                 data := None; signals := None |} in
  if bool_decide (short_period >= long_period) then
    Raise (ValueError "Short period must be less than long period")
  else Ok self.

(** *** [calculate_indicators], on the frame held in [self.data] *)

Definition gt0 (s : series) : list bool := (λ x, fgtb x fzero) <$> s.
Definition lt0 (s : series) : list bool := (λ x, fltb x fzero) <$> s.
Definition le0 (s : series) : list bool := (λ x, fleb x fzero) <$> s.
Definition ge0 (s : series) : list bool := (λ x, fgeb x fzero) <$> s.
Definition mask_and (a b : list bool) : list bool := zip_with andb a b.

Definition calculate_indicators_frame (self : Strategy) (df : DataFrame)
    : result DataFrame :=
  close ← float_col df "close";
  sma_short ← TechnicalIndicators.sma close (short_period self);
  let df := setitem "sma_short" (FloatCol sma_short) df in
  close ← float_col df "close";
  sma_long ← TechnicalIndicators.sma close (long_period self);
  let df := setitem "sma_long" (FloatCol sma_long) df in
  a ← float_col df "sma_short";
  b ← float_col df "sma_long";
  let df := setitem "sma_diff" (FloatCol (series_sub a b)) df in
  let df := setitem "crossover" (IntCol (replicate (nrows df) 0)) df in
  d ← float_col df "sma_diff";
  df ← loc_set_mask (mask_and (gt0 d) (le0 (shift1 d))) "crossover" 1 df;
  d ← float_col df "sma_diff";
  df ← loc_set_mask (mask_and (lt0 d) (ge0 (shift1 d))) "crossover" (-1) df;
  Ok df.

(** *** [generate_signals] *)

(** One iteration of the confirmation loop, for index [i]. *)
Definition confirm_step (k : Z) (df : DataFrame) (i : nat) : result DataFrame :=
  crossover ← int_col df "crossover";
  c ← at_ "crossover" crossover i;
  if bool_decide (c ≠ 0) then
    if bool_decide (Z.of_nat i + k < Z.of_nat (nrows df)) then
      let future_idx := Z.to_nat (Z.of_nat i + k) in
      if bool_decide (c = 1) then
        s ← float_col df "sma_short" ≫= λ s, at_ "sma_short" s future_idx;
        l ← float_col df "sma_long" ≫= λ l, at_ "sma_long" l future_idx;
        if fgtb s l then loc_set future_idx "signal" 1 df else Ok df
      else if bool_decide (c = -1) then
        s ← float_col df "sma_short" ≫= λ s, at_ "sma_short" s future_idx;
        l ← float_col df "sma_long" ≫= λ l, at_ "sma_long" l future_idx;
        if fltb s l then loc_set future_idx "signal" (-1) df else Ok df
      else Ok df
    else Ok df
  else Ok df.

(** [for i in range(n)] over a fallible body. *)
Fixpoint for_range {S} (body : S → nat → result S) (range : list nat) (s : S)
    : result S :=
  match range with
  | [] => Ok s
  | i :: range' => s' ← body s i; for_range body range' s'
  end.

Definition generate_signals_frame (self : Strategy) (df : DataFrame)
    : result DataFrame :=
  let df := setitem "signal" (IntCol (replicate (nrows df) 0)) df in
  df ← (if bool_decide (min_candles_after_cross self > 1) then
          for_range (confirm_step (min_candles_after_cross self))
                    (seq 0 (nrows df)) df
        else
          c ← getitem df "crossover";
          Ok (setitem "signal" c df));
  d ← float_col df "sma_diff";
  close ← float_col df "close";
  let strength := flip fmul (Fin 100) <$> series_div (fabs <$> d) close in
  Ok (setitem "signal_strength" (FloatCol strength) df).

(** The two methods act on the object referenced by [self.data]. *)
Definition update_data (f : DataFrame → result DataFrame)
    (w : store * Strategy) : result (store * loc) :=
  let '(σ, self) := w in
  df ← deref σ (data self);
  df' ← f df;
  match data self with
  | Some l => Ok (<[l := df']> σ, l)
  | None => Raise (TypeError "'NoneType' object is not subscriptable")
  end.

Definition calculate_indicators (w : store * Strategy) : result (store * loc) :=
  update_data (calculate_indicators_frame w.2) w.

Definition generate_signals (w : store * Strategy) : result (store * loc) :=
  update_data (generate_signals_frame w.2) w.

(** *** Closed forms of the two passes

    What [calculate_indicators] and [generate_signals] leave in the
    frame, as functions of the close column. *)

Definition rolling_sma (period : Z) (close : series) : series :=
  rolling_apply mean_of 0 (Z.to_nat period) (Z.to_nat period) close.

Definition crossover_of (d : series) (n : nat) : list Z :=
  zip_with (λ (m : bool) x, if m then -1 else x)
    (mask_and (lt0 d) (ge0 (shift1 d)))
    (zip_with (λ (m : bool) x, if m then 1 else x)
       (mask_and (gt0 d) (le0 (shift1 d)))
       (replicate n 0)).

(** The crossover mark from a difference and its predecessor. *)
Definition cross_value (x y : fnum) : Z :=
  if fltb x fzero && fgeb y fzero then -1
  else if fgtb x fzero && fleb y fzero then 1
  else 0.

Definition with_indicators (self : Strategy) (close : series)
    (df : DataFrame) : DataFrame :=
  let ss := rolling_sma (short_period self) close in
  let sl := rolling_sma (long_period self) close in
  let d := series_sub ss sl in
  setitem "crossover" (IntCol (crossover_of d (nrows df)))
    (setitem "sma_diff" (FloatCol d)
       (setitem "sma_long" (FloatCol sl)
          (setitem "sma_short" (FloatCol ss) df))).

(** The confirmed signal at index [j] for a lag of [k] candles: the
    crossover [k] candles earlier, if the averages still stand in its
    direction at [j]. *)
Definition confirmed_value (k : nat) (cross : list Z) (ss sl : series)
    (j : nat) : Z :=
  if bool_decide (k ≤ j)%nat then
    match cross !! (j - k)%nat, ss !! j, sl !! j with
    | Some c, Some s, Some l =>
        if bool_decide (c = 1) then (if fgtb s l then 1 else 0)
        else if bool_decide (c = -1) then (if fltb s l then -1 else 0)
        else 0
    | _, _, _ => 0
    end
  else 0.

(** The signal column once the loop has handled the indices below [m]. *)
Definition confirmed_upto (k m n : nat) (cross : list Z) (ss sl : series)
    : list Z :=
  (λ j, if bool_decide (j < m + k)%nat
        then confirmed_value k cross ss sl j else 0) <$> seq 0 n.

Definition signal_strength_of (d close : series) : series :=
  flip fmul (Fin 100) <$> series_div (fabs <$> d) close.

Definition signal_of (self : Strategy) (cross : list Z) (ss sl : series)
    (n : nat) : list Z :=
  if bool_decide (min_candles_after_cross self > 1) then
    confirmed_value (Z.to_nat (min_candles_after_cross self)) cross ss sl
      <$> seq 0 n
  else cross.

Definition with_signals (self : Strategy) (close : series)
    (df : DataFrame) : DataFrame :=
  let ss := rolling_sma (short_period self) close in
  let sl := rolling_sma (long_period self) close in
  let d := series_sub ss sl in
  let cross := crossover_of d (nrows df) in
  setitem "signal_strength" (FloatCol (signal_strength_of d close))
    (setitem "signal" (IntCol (signal_of self cross ss sl (nrows df)))
       (with_indicators self close df)).

#[global] Instance methods : BaseStrategy.Methods := {|
  BaseStrategy.calculate_indicators := calculate_indicators;
  BaseStrategy.generate_signals := generate_signals
|}.

(** *** [get_entry_exit_pairs] *)

Inductive position_type : Type := long | short.

Record Trade : Type := mkTrade {
  entry_time : Z;
  entry_price : fnum;
  exit_time : Z;
  exit_price : fnum;
  trade_position_type : position_type;
  pips_profit : fnum;
  percent_profit : fnum
}.

(** A row of [signals.iterrows()], with the three fields the loop reads. *)
Record Row : Type := mkRow {
  row_time : Z;
  row_close : fnum;
  row_signal : Z
}.

(** The loop variables [position], [entry_price] and [entry_time] are
    [None] together or set together ([entry_idx] is never read). *)
Record OpenPosition : Type := mkOpen {
  position : position_type;
  open_price : fnum;
  open_time : Z
}.

Record PairState : Type := mkPairState {
  held : option OpenPosition;
  trades : list Trade
}.

Definition open_at (p : position_type) (row : Row) : OpenPosition :=
  {| position := p; open_price := row_close row; open_time := row_time row |}.

(** The dictionary appended when a position is left.  The fields of a
    row of [iterrows()] are Python floats, so the division of the
    percent profit by the entry price raises on a zero entry price. *)
Definition close_long (o : OpenPosition) (row : Row) : result Trade :=
  let pips_profit := fmul (fsub (row_close row) (open_price o)) (Fin 10000) in
  ratio ← py_div (fsub (row_close row) (open_price o)) (open_price o);
  Ok {| entry_time := open_time o;
        entry_price := open_price o;
        exit_time := row_time row;
        exit_price := row_close row;
        trade_position_type := long;
        pips_profit := pips_profit;
        percent_profit := fmul ratio (Fin 100) |}.

Definition close_short (o : OpenPosition) (row : Row) : result Trade :=
  let pips_profit := fmul (fsub (open_price o) (row_close row)) (Fin 10000) in
  ratio ← py_div (fsub (open_price o) (row_close row)) (open_price o);
  Ok {| entry_time := open_time o;
        entry_price := open_price o;
        exit_time := row_time row;
        exit_price := row_close row;
        trade_position_type := short;
        pips_profit := pips_profit;
        percent_profit := fmul ratio (Fin 100) |}.

(** The body of [for idx, row in signals.iterrows()]. *)
Definition pair_step (st : PairState) (row : Row) : result PairState :=
  match held st with
  | None =>
      if bool_decide (row_signal row = 1) then
        Ok {| held := Some (open_at long row); trades := trades st |}
      else if bool_decide (row_signal row = -1) then
        Ok {| held := Some (open_at short row); trades := trades st |}
      else Ok st
  | Some o =>
      match position o with
      | long =>
          if bool_decide (row_signal row = -1) then
            trade ← close_long o row;
            Ok {| held := Some (open_at short row);
                  trades := trades st ++ [trade] |}
          else Ok st
      | short =>
          if bool_decide (row_signal row = 1) then
            trade ← close_short o row;
            Ok {| held := Some (open_at long row);
                  trades := trades st ++ [trade] |}
          else Ok st
      end
  end.

Definition pair_init : PairState := {| held := None; trades := [] |}.

(** The loop stops at the first row whose body raises. *)
Fixpoint for_rows (rows : list Row) (st : PairState) : result PairState :=
  match rows with
  | [] => Ok st
  | row :: rest => st' ← pair_step st row; for_rows rest st'
  end.

Definition pair_rows (rows : list Row) : result (list Trade) :=
  st ← for_rows rows pair_init;
  Ok (trades st).

Fixpoint zip_rows (t : list Z) (c : list fnum) (s : list Z) : list Row :=
  match t, c, s with
  | t0 :: t', c0 :: c', s0 :: s' =>
      {| row_time := t0; row_close := c0; row_signal := s0 |}
        :: zip_rows t' c' s'
  | _, _, _ => []
  end.

Definition iterrows (df : DataFrame) : result (list Row) :=
  s ← int_col df "signal";
  c ← float_col df "close";
  t ← time_col df "time";
  Ok (zip_rows t c s).

(** The ledger is the list of the appended dictionaries; the empty
    list stands for the empty frame. *)
Definition get_entry_exit_pairs (w : store * Strategy) : result (list Trade) :=
  let '(σ, self) := w in
  df ← deref σ (data self);
  sig ← int_col df "signal";
  let signals := frame_filter (BaseStrategy.nonzero sig) df in
  if bool_decide (nrows signals = 0%nat) then Ok []
  else
    rows ← iterrows signals;
    pair_rows rows.

(** *** [get_performance_summary] *)

Record Performance : Type := mkPerformance {
  total_trades : nat;
  winning_trades : nat;
  losing_trades : nat;
  win_rate : fnum;
  total_pips : fnum;
  average_pips_per_trade : fnum;
  best_trade_pips : fnum;
  worst_trade_pips : fnum;
  average_win_pips : fnum;
  average_loss_pips : fnum;
  profit_factor : fnum;
  total_return_percent : fnum
}.

Inductive PerformanceSummary : Type :=
  | NoTrades (total : nat) (message : string)
  | Metrics (p : Performance).

Definition is_win (t : Trade) : bool := fgtb (pips_profit t) fzero.
Definition is_loss (t : Trade) : bool := fltb (pips_profit t) fzero.

Definition pips (ts : list Trade) : series := pips_profit <$> ts.

Definition performance_of (trades : list Trade) : PerformanceSummary :=
  if bool_decide (length trades = 0%nat) then
    NoTrades 0 "No complete trades found"
  else
    let winning_trades := List.filter is_win trades in
    let losing_trades := List.filter is_loss trades in
    Metrics
      {| total_trades := length trades;
         winning_trades := length winning_trades;
         losing_trades := length losing_trades;
         win_rate :=
           if bool_decide (0 < length trades)%nat
           then fmul (fdiv (of_nat (length winning_trades))
                           (of_nat (length trades))) (Fin 100)
           else fzero;
         total_pips := series_sum (pips trades);
         average_pips_per_trade := series_mean (pips trades);
         best_trade_pips := series_max (pips trades);
         worst_trade_pips := series_min (pips trades);
         average_win_pips :=
           if bool_decide (0 < length winning_trades)%nat
           then series_mean (pips winning_trades) else fzero;
         average_loss_pips :=
           if bool_decide (0 < length losing_trades)%nat
           then series_mean (pips losing_trades) else fzero;
         profit_factor :=
           if bool_decide (0 < length losing_trades)%nat
              && fneb (series_sum (pips losing_trades)) fzero
           then fabs (fdiv (series_sum (pips winning_trades))
                           (series_sum (pips losing_trades)))
           else PInf;
         total_return_percent := series_sum (percent_profit <$> trades) |}.

Definition get_performance_summary (w : store * Strategy)
    : result PerformanceSummary :=
  trades ← get_entry_exit_pairs w;
  Ok (performance_of trades).

End SMACrossoverStrategy.

(** ** [get_latest_signal] and the signal message *)

Module LatestSignal.

(** The dictionary returned by [get_latest_signal]; the key
    [signal_name] is absent from the "no signals" answer. *)
Record Latest : Type := mkLatest {
  latest_signal : Z;
  latest_signal_name : option string;
  latest_time : option Z;
  latest_price : option fnum;
  latest_message : string
}.

Definition no_signals : Latest :=
  {| latest_signal := 0; latest_signal_name := None; latest_time := None;
     latest_price := None; latest_message := "No signals generated" |}.

(** [signal_map.get(signal, 'UNKNOWN')] *)
Definition signal_map (signal : Z) : string :=
  if bool_decide (signal = 1) then "BUY"
  else if bool_decide (signal = -1) then "SELL"
  else if bool_decide (signal = 0) then "HOLD"
  else "UNKNOWN".

Section messages.
(** The formatting of a float with five decimals ([f"{x:.5f}"]) and of
    an integer period inside an f-string are taken as given. *)
Variable format_price : fnum → string.
Variable format_period : Z → string.

(** [SMACrossoverStrategy._format_signal_message] on the row at
    position [i] of the frame. *)
Definition format_signal_message (self : Strategy) (df : DataFrame) (i : nat)
    : result string :=
  signal ← int_col df "signal" ≫= λ c, at_ "signal" c i;
  if bool_decide (signal = 1) then
    ss ← float_col df "sma_short" ≫= λ c, at_ "sma_short" c i;
    sl ← float_col df "sma_long" ≫= λ c, at_ "sma_long" c i;
    close ← float_col df "close" ≫= λ c, at_ "close" c i;
    Ok ("BUY signal (Golden Cross): SMA" +:+ format_period (short_period self)
        +:+ "=" +:+ format_price ss +:+ " crossed above SMA"
        +:+ format_period (long_period self) +:+ "=" +:+ format_price sl
        +:+ " at price " +:+ format_price close)
  else if bool_decide (signal = -1) then
    ss ← float_col df "sma_short" ≫= λ c, at_ "sma_short" c i;
    sl ← float_col df "sma_long" ≫= λ c, at_ "sma_long" c i;
    close ← float_col df "close" ≫= λ c, at_ "close" c i;
    Ok ("SELL signal (Death Cross): SMA" +:+ format_period (short_period self)
        +:+ "=" +:+ format_price ss +:+ " crossed below SMA"
        +:+ format_period (long_period self) +:+ "=" +:+ format_price sl
        +:+ " at price " +:+ format_price close)
  else
    close ← float_col df "close" ≫= λ c, at_ "close" c i;
    Ok ("No signal at " +:+ format_price close).

(** [BaseStrategy.get_latest_signal]; [latest] is the last row of
    [self.signals]. *)
Definition get_latest_signal (w : store * Strategy) : result Latest :=
  let '(σ, self) := w in
  match signals self with
  | None => Ok no_signals
  | Some l =>
      df ← deref σ (Some l);
      if bool_decide (nrows df = 0%nat) then Ok no_signals
      else
        let latest := (nrows df - 1)%nat in
        signal ← int_col df "signal" ≫= λ c, at_ "signal" c latest;
        time ← time_col df "time" ≫= λ c, at_ "time" c latest;
        price ← float_col df "close" ≫= λ c, at_ "close" c latest;
        message ← format_signal_message self df latest;
        Ok {| latest_signal := signal;
              latest_signal_name := Some (signal_map signal);
              latest_time := Some time;
              latest_price := Some price;
              latest_message := message |}
  end.

End messages.

End LatestSignal.

(** ** Specification-level notions

    The statements below compare the code with these definitions,
    which follow the wording of the specification rather than the
    source. *)

Module Spec.
Import SMACrossoverStrategy.

(** "There is at least one winning trade" and "the losing-pip sum is
    exactly zero". *)
Definition has_winning_trade (ledger : list Trade) : Prop :=
  ∃ t, t ∈ ledger ∧ is_win t = true.

Definition losing_pips (ledger : list Trade) : fnum :=
  series_sum (pips (List.filter is_loss ledger)).

Definition winning_pips (ledger : list Trade) : fnum :=
  series_sum (pips (List.filter is_win ledger)).

Definition losing_sum_zero (ledger : list Trade) : Prop :=
  feqb (losing_pips ledger) fzero = true.

(** A ledger whose pip profits are all finite numbers. *)
Definition finite_ledger (ledger : list Trade) : Prop :=
  Forall (λ t, is_finite (pips_profit t)) ledger.

(** The trade reconstructor as the specification words it: a state
    machine over the non-zero signals, flat at first. *)
Inductive holding : Type :=
  | Flat
  | Holding (dir : position_type) (time : Z) (price : fnum).

Definition direction (signal : Z) : option position_type :=
  if bool_decide (signal = 1) then Some long
  else if bool_decide (signal = -1) then Some short
  else None.

Definition same_direction (a b : position_type) : bool :=
  match a, b with
  | long, long | short, short => true
  | _, _ => false
  end.

(** Pip profit [(exit - entry) * 10000] for a long, [(entry - exit) *
    10000] for a short; percent profit over the entry price. *)
Definition completed_trade (dir : position_type) (time : Z) (price : fnum)
    (row : Row) : Trade :=
  let gain := match dir with
              | long => fsub (row_close row) price
              | short => fsub price (row_close row)
              end in
  {| entry_time := time;
     entry_price := price;
     exit_time := row_time row;
     exit_price := row_close row;
     trade_position_type := dir;
     pips_profit := fmul gain (Fin 10000);
     percent_profit := fmul (fdiv gain price) (Fin 100) |}.

(** The trades completed from state [st] on; a position still open
    when the rows run out adds nothing. *)
Fixpoint reconstruct (st : holding) (rows : list Row) : list Trade :=
  match rows with
  | [] => []
  | row :: rest =>
      match direction (row_signal row), st with
      | None, _ => reconstruct st rest
      | Some d, Flat =>
          reconstruct (Holding d (row_time row) (row_close row)) rest
      | Some d, Holding d0 time price =>
          if same_direction d d0 then reconstruct st rest
          else completed_trade d0 time price row
                 :: reconstruct (Holding d (row_time row) (row_close row)) rest
      end
  end.

(** The rows with a non-zero signal, in index order. *)
Definition signal_rows (time : list Z) (close : series) (signal : list Z)
    : list Row :=
  filter (λ r, row_signal r ≠ 0) (zip_rows time close signal).

(** A price that is not zero; the candles of the specification have
    positive prices. *)
Definition not_zero (x : fnum) : Prop := feqb x fzero = false.

(** A trade entered at a price of zero: its percent profit would
    divide by zero. *)
Definition zero_entry (t : Trade) : Prop := feqb (entry_price t) fzero = true.

Definition division_error : error :=
  ZeroDivisionError "float division by zero".

(** The state of the machine that a state of the loop stands for. *)
Definition abstract_state (st : PairState) : holding :=
  match held st with
  | None => Flat
  | Some o => Holding (position o) (open_time o) (open_price o)
  end.

(** The confirmation lag counts candles to wait: the specification
    names the modes [= 1] and [> 1]. *)
Definition valid_lag (k : Z) : Prop := 1 ≤ k.

(** "Consistently either an explicit error or an empty result" over
    the four queries. *)
Definition uniformly_not_run (w : store * Strategy) (path : string) : Prop :=
  (raises (BaseStrategy.get_all_signals w None) ∧
   raises (BaseStrategy.get_summary w) ∧
   raises (BaseStrategy.export_signals w path) ∧
   raises (get_performance_summary w))
  ∨
  (BaseStrategy.get_all_signals w None = Ok empty_frame ∧
   BaseStrategy.get_summary w = Ok None ∧
   BaseStrategy.export_signals w path = Ok empty_frame ∧
   ∃ msg, get_performance_summary w = Ok (NoTrades 0 msg)).

(** Crossovers as the specification words them, over the difference
    series [d = SMA(short) - SMA(long)]: a golden cross at [i] when
    [d[i] > 0] and [d[i-1] <= 0], a death cross when [d[i] < 0] and
    [d[i-1] >= 0], both values defined. *)
Definition golden_cross (d : series) (i : nat) : Prop :=
  ∃ x y, (0 < i)%nat ∧ d !! i = Some x ∧ d !! (i - 1)%nat = Some y ∧
         notna x = true ∧ notna y = true ∧
         fgtb x fzero = true ∧ fleb y fzero = true.

Definition death_cross (d : series) (i : nat) : Prop :=
  ∃ x y, (0 < i)%nat ∧ d !! i = Some x ∧ d !! (i - 1)%nat = Some y ∧
         notna x = true ∧ notna y = true ∧
         fltb x fzero = true ∧ fgeb y fzero = true.

(** [i] is the earliest index with a defined difference. *)
Definition first_defined (d : series) (i : nat) : Prop :=
  (∃ x, d !! i = Some x ∧ notna x = true) ∧
  ∀ j y, (j < i)%nat → d !! j = Some y → notna y = false.

(** Loading: the required fields are present; the timestamps as
    [load_data] obtains them (parsed unless already timestamps);
    ascending order. *)
Definition has_required_columns (df : DataFrame) : Prop :=
  Forall (λ col, col ∈ columns df) BaseStrategy.required_columns.

Definition parsed_time (to_datetime : column → result (list Z)) (c : column)
    : result (list Z) :=
  match c with
  | TimeCol l => Ok l
  | _ => to_datetime c
  end.

Definition ascending (ts : list Z) : Prop := Sorted Z.le ts.



(** A series of finite numbers. *)
Definition all_finite (s : series) : Prop := Forall is_finite s.


(** The smoothing state while every value seen was a finite observation. *)
Definition ewm_inv (n : nat) (st : ewm_state) : Prop :=
  is_finite (weighted st) ∧ old_wt st = Fin 1 ∧ nobs st = n.

(** A value that is a finite number or missing. *)
Definition finite_or_nan (x : fnum) : Prop := x = NaN ∨ is_finite x.



(** A frame whose columns all have one entry per row. *)
Definition column_length (c : column) : nat :=
  match c with
  | FloatCol l => length l
  | IntCol l | TimeCol l => length l
  end.

Definition well_formed (df : DataFrame) : Prop :=
  map_Forall (λ _ c, column_length c = nrows df) (cols df).

(** A value that is missing or a number between [lo] and [hi]. *)
Definition nan_or_between (lo hi : Q) (x : fnum) : Prop :=
  x = NaN ∨ ∃ q, x = Fin q ∧ (lo <= q)%Q ∧ (q <= hi)%Q.

(** A non-negative finite number. *)
Definition nonneg (x : fnum) : Prop := ∃ q, x = Fin q ∧ (0 <= q)%Q.

(** Prices that keep rising, keep falling, or do not move. *)
Definition rising (qs : list Q) : Prop := Sorted Qlt qs.
Definition falling (qs : list Q) : Prop := Sorted (flip Qlt) qs.
Definition flat (qs : list Q) : Prop := Sorted Qeq qs.

(** Consecutive values compare as [c]: [Gt] rising, [Lt] falling,
    [Eq] flat. *)
Definition trend (c : comparison) (qs : list Q) : Prop :=
  StronglySorted (λ a b, (b ?= a)%Q = c) qs.

Definition Qsum (l : list Q) : Q := foldr Qplus 0%Q l.

Definition Qlen (l : list Q) : Q := inject_Z (Z.of_nat (length l)).

(** A value that is missing or has the sign [c]. *)
Definition sign_is (c : comparison) (x : fnum) : Prop :=
  x = NaN ∨ ∃ q, x = Fin q ∧ (q ?= 0)%Q = c.

End Spec.

(** ** Concrete inputs used by the examples below *)

Module Examples.
Import SMACrossoverStrategy.

(** A break-even trade: entered and left at the same price. *)
Definition breakeven : Trade :=
  Spec.completed_trade long 0 (Fin 1)
    {| row_time := 1; row_close := Fin 1; row_signal := -1 |}.

(** A ledger with a winner and a loser. *)
Definition sample_ledger : list Trade :=
  [ Spec.completed_trade long 0 (Fin 1)
      {| row_time := 1; row_close := Fin 2; row_signal := -1 |};
    Spec.completed_trade short 1 (Fin 2)
      {| row_time := 2; row_close := Fin 3; row_signal := 1 |} ].


(** A frame of five candles with the signals [+1, -1, +1, -1, +1]. *)
Definition alternating_frame : DataFrame :=
  {| nrows := 5;
     cols := {[ "time" := TimeCol [0; 1; 2; 3; 4];
                "close" := FloatCol [Fin 1; Fin 2; Fin 1; Fin 3; Fin 2];
                "signal" := IntCol [1; -1; 1; -1; 1] ]} |}.

Definition alternating_world : store * Strategy :=
  ({[ 1%positive := alternating_frame ]},
   {| name := "SMA_Crossover"; short_period := 5; long_period := 10;
      min_candles_after_cross := 1;
      data := Some 1%positive; signals := Some 1%positive |}).


(** A freshly constructed strategy, nothing loaded. *)
Definition fresh_strategy : Strategy :=
  {| name := "SMA_Crossover"; short_period := 5; long_period := 10;
     min_candles_after_cross := 1; data := None; signals := None |}.

Definition unloaded_world : store * Strategy := (∅, fresh_strategy).


(** Six candles falling then rising, and a strategy with periods 1
    and 2 and a confirmation lag of two candles. *)
Definition crossing_close : series :=
  [Fin 3; Fin 2; Fin 1; Fin 2; Fin 3; Fin 4].

Definition crossing_frame : DataFrame :=
  {| nrows := 6;
     cols := {[ "time" := TimeCol [0; 1; 2; 3; 4; 5];
                "open" := FloatCol crossing_close;
                "high" := FloatCol crossing_close;
                "low" := FloatCol crossing_close;
                "close" := FloatCol crossing_close;
                "volume" := IntCol [0; 0; 0; 0; 0; 0] ]} |}.

Definition quick_strategy : Strategy :=
  {| name := "SMA_Crossover"; short_period := 1; long_period := 2;
     min_candles_after_cross := 2; data := None; signals := None |}.


(** The crossing frame after [calculate_indicators]. *)
Definition crossing_indicators : DataFrame :=
  with_indicators quick_strategy crossing_close crossing_frame.


(** The crossing frame loaded at location 1 of a strategy. *)
Definition crossing_world : store * Strategy :=
  ({[ 1%positive := crossing_frame ]},
   {| name := "SMA_Crossover"; short_period := 1; long_period := 2;
      min_candles_after_cross := 2;
      data := Some 1%positive; signals := None |}).


(** Three complete candles whose timestamps are out of order, held by
    the caller at location 1. *)
Definition unsorted_frame : DataFrame :=
  {| nrows := 3;
     cols := {[ "time" := TimeCol [3; 1; 2];
                "open" := FloatCol [Fin 3; Fin 1; Fin 2];
                "high" := FloatCol [Fin 3; Fin 1; Fin 2];
                "low" := FloatCol [Fin 3; Fin 1; Fin 2];
                "close" := FloatCol [Fin 3; Fin 1; Fin 2];
                "volume" := IntCol [30; 10; 20] ]} |}.

Definition caller_store : store := {[ 1%positive := unsorted_frame ]}.

(** A parser that accepts nothing: enough for frames whose time
    column already holds timestamps. *)
Definition no_parser (c : column) : result (list Z) :=
  Raise (ValueError "unable to parse").


(** The alternating frame as a loaded and computed strategy state with
    only buy signals. *)
Definition buys_only_frame : DataFrame :=
  {| nrows := 4;
     cols := {[ "time" := TimeCol [0; 1; 2; 3];
                "close" := FloatCol [Fin 1; Fin 2; Fin 1; Fin 3];
                "signal" := IntCol [1; 0; 1; 1] ]} |}.

Definition buys_only_world : store * Strategy :=
  ({[ 1%positive := buys_only_frame ]},
   {| name := "SMA_Crossover"; short_period := 5; long_period := 10;
      min_candles_after_cross := 1;
      data := Some 1%positive; signals := Some 1%positive |}).


(** A strategy built with a negative short period, and the crossing
    frame loaded into it. *)
Definition negative_world : store * Strategy :=
  ({[ 1%positive := crossing_frame ]},
   {| name := "SMA_Crossover"; short_period := -5; long_period := 10;
      min_candles_after_cross := 1;
      data := Some 1%positive; signals := None |}).

(** The crossing world after one run. *)
Definition computed_world : store * Strategy :=
  ({[ 1%positive :=
        with_signals crossing_world.2 crossing_close crossing_frame ]},
   {| name := "SMA_Crossover"; short_period := 1; long_period := 2;
      min_candles_after_cross := 2;
      data := Some 1%positive; signals := Some 1%positive |}).

(** Five candles of a steady rise, loaded at location 1 of a strategy
    with periods 2 and 3. *)
Definition rising_frame : DataFrame :=
  {| nrows := 5;
     cols := {[ "time" := TimeCol [0; 1; 2; 3; 4];
                "close" := FloatCol (Fin <$> [1; 2; 3; 4; 5]%Q) ]} |}.

Definition rising_world : store * Strategy :=
  ({[ 1%positive := rising_frame ]},
   {| name := "SMA_Crossover"; short_period := 2; long_period := 3;
      min_candles_after_cross := 1;
      data := Some 1%positive; signals := None |}).

(** Two candles with a buy at a close of zero and a sell after it. *)
Definition zero_entry_frame : DataFrame :=
  {| nrows := 2;
     cols := {[ "time" := TimeCol [0; 1];
                "close" := FloatCol [Fin 0; Fin 1];
                "signal" := IntCol [1; -1] ]} |}.

Definition zero_entry_world : store * Strategy :=
  ({[ 1%positive := zero_entry_frame ]},
   {| name := "SMA_Crossover"; short_period := 5; long_period := 10;
      min_candles_after_cross := 1;
      data := Some 1%positive; signals := Some 1%positive |}).

End Examples.

(** * Properties *)

(** ** Floats *)

Section float_facts.

Lemma fltb_Fin a b : fltb (Fin a) (Fin b) = true ↔ (a < b)%Q.
Proof.
  unfold fltb; simpl. rewrite Qlt_alt.
  destruct (a ?= b)%Q; split; congruence.
Qed.

Lemma feqb_Fin a b : feqb (Fin a) (Fin b) = true ↔ (a == b)%Q.
Proof.
  unfold feqb; simpl. rewrite Qeq_alt.
  destruct (a ?= b)%Q; split; congruence.
Qed.

Lemma fleb_Fin a b : fleb (Fin a) (Fin b) = true ↔ (a <= b)%Q.
Proof.
  unfold fleb; simpl. rewrite Qle_alt.
  destruct (a ?= b)%Q; split; congruence.
Qed.

Lemma Qsign_lt q : (q < 0)%Q → Qsign q = Lt.
Proof. intros H. unfold Qsign. by apply Qlt_alt. Qed.

Lemma Qsign_gt q : (0 < q)%Q → Qsign q = Gt.
Proof. intros H. unfold Qsign. by apply Qgt_alt. Qed.

Lemma is_finite_Fin x : is_finite x → ∃ q, x = Fin q.
Proof. destruct x; simpl; try tauto. eauto. Qed.

(** A value equal to zero is neither above nor below zero. *)
Lemma feqb_zero_not_gt x : feqb x fzero = true → fgtb x fzero = false.
Proof.
  destruct x as [q| | |]; try discriminate. unfold fzero, fgtb.
  rewrite feqb_Fin. intros E.
  destruct (fltb (Fin 0) (Fin q)) eqn:L; [|done].
  apply fltb_Fin in L. rewrite E in L. by apply Qlt_irrefl in L.
Qed.

Lemma feqb_zero_not_lt x : feqb x fzero = true → fltb x fzero = false.
Proof.
  destruct x as [q| | |]; try discriminate. unfold fzero.
  rewrite feqb_Fin. intros E.
  destruct (fltb (Fin q) (Fin 0)) eqn:L; [|done].
  apply fltb_Fin in L. rewrite E in L. by apply Qlt_irrefl in L.
Qed.

Lemma fltb_notna x y : fltb x y = true → notna x = true.
Proof. by destruct x, y. Qed.

Lemma fgtb_notna x y : fgtb x y = true → notna x = true.
Proof. by destruct x, y. Qed.

End float_facts.

(** ** Reductions over series *)

Section series_facts.

Lemma valid_all (s : series) : Forall (λ x, notna x = true) s → valid s = s.
Proof.
  unfold valid. induction 1 as [|x s Hx _ IH]; simpl; [done|].
  by rewrite Hx, IH.
Qed.

Lemma fsum_finite (s : series) : Forall is_finite s → is_finite (fsum s).
Proof.
  induction 1 as [|x s Hx _ IH]; [done|].
  change (is_finite (fadd x (fsum s))).
  destruct x; try done. by destruct (fsum s).
Qed.

(** A non-empty sum of negative numbers is negative, never zero. *)
Lemma fsum_negative (s : series) :
  s ≠ [] → Forall (λ x, ∃ q, x = Fin q ∧ (q < 0)%Q) s →
  ∃ q, fsum s = Fin q ∧ (q < 0)%Q.
Proof.
  intros Hne Hs. induction Hs as [|x s (q & -> & Hq) Hs IH]; [done|].
  destruct s as [|y s].
  - simpl. exists (q + 0)%Q. split; [done|]. lra.
  - destruct IH as (r & Hr & Hr0); [done|].
    change (fsum (Fin q :: y :: s)) with (fadd (Fin q) (fsum (y :: s))).
    rewrite Hr. simpl. exists (q + r)%Q. split; [done|]. lra.
Qed.

End series_facts.

(** ** The exception monad and column access *)

Section result_facts.

Lemma bind_Ok {A B} (a : A) (f : A → result B) : Ok a ≫= f = f a.
Proof. done. Qed.

Lemma bind_Raise {A B} e (f : A → result B) : Raise e ≫= f = Raise e.
Proof. done. Qed.

Lemma getitem_Some (df : DataFrame) k c :
  cols df !! k = Some c → getitem df k = Ok c.
Proof. unfold getitem. by intros ->. Qed.

Lemma int_col_Some (df : DataFrame) k l :
  cols df !! k = Some (IntCol l) → int_col df k = Ok l.
Proof. intros H. unfold int_col. by rewrite (getitem_Some _ _ _ H). Qed.

Lemma float_col_Some (df : DataFrame) k l :
  cols df !! k = Some (FloatCol l) → float_col df k = Ok l.
Proof. intros H. unfold float_col. by rewrite (getitem_Some _ _ _ H). Qed.

Lemma time_col_Some (df : DataFrame) k l :
  cols df !! k = Some (TimeCol l) → time_col df k = Ok l.
Proof. intros H. unfold time_col. by rewrite (getitem_Some _ _ _ H). Qed.

Lemma cols_setitem_eq k c (df : DataFrame) :
  cols (setitem k c df) !! k = Some c.
Proof. unfold setitem. simpl. apply lookup_insert_eq. Qed.

Lemma cols_setitem_ne k k' c (df : DataFrame) :
  k ≠ k' → cols (setitem k c df) !! k' = cols df !! k'.
Proof. intros H. unfold setitem. simpl. by apply lookup_insert_ne. Qed.

Lemma nrows_setitem k c (df : DataFrame) : nrows (setitem k c df) = nrows df.
Proof. done. Qed.

Lemma setitem_setitem k c c' (df : DataFrame) :
  setitem k c (setitem k c' df) = setitem k c df.
Proof. unfold setitem. simpl. by rewrite insert_insert_eq. Qed.

Lemma cols_frame_filter mask (df : DataFrame) k c :
  cols df !! k = Some c →
  cols (frame_filter mask df) !! k = Some (column_select mask c).
Proof. intros H. unfold frame_filter. simpl. by rewrite lookup_fmap, H. Qed.

End result_facts.

(** Steps through a successful monadic bind. *)
Ltac bind_ok := rewrite bind_Ok; cbv beta.

(** Finds a column under a stack of [setitem]. *)
Ltac solve_col :=
  repeat (rewrite cols_setitem_ne by done);
  first [apply cols_setitem_eq | eassumption].

Ltac binds_ok := repeat (rewrite bind_Ok; cbv beta).
Ltac read_float := erewrite float_col_Some by solve_col; binds_ok.
Ltac read_int := erewrite int_col_Some by solve_col; binds_ok.

(** ** PerformanceAggregator: [get_performance_summary] *)

Section performance.
Import SMACrossoverStrategy Spec Examples.

Lemma performance_of_nonempty (ledger : list Trade) :
  ledger ≠ [] → ∃ p, performance_of ledger = Metrics p.
Proof.
  intros Hne. unfold performance_of.
  rewrite bool_decide_eq_false_2; [eauto|].
  by destruct ledger.
Qed.

Lemma performance_of_Metrics (ledger : list Trade) p :
  performance_of ledger = Metrics p → ledger ≠ [].
Proof. by intros H ->. Qed.

Lemma pips_valid_filter (f : Trade → bool) (ledger : list Trade) :
  (∀ t, f t = true → notna (pips_profit t) = true) →
  valid (pips (List.filter f ledger)) = pips (List.filter f ledger).
Proof.
  intros Hf. apply valid_all. unfold pips. rewrite Forall_fmap.
  apply Forall_forall. intros t Ht.
  apply list_elem_of_In, filter_In in Ht as [_ Ht]. by apply Hf.
Qed.

Lemma losing_pips_fsum ledger :
  losing_pips ledger = fsum (pips (List.filter is_loss ledger)).
Proof.
  unfold losing_pips, series_sum. rewrite pips_valid_filter; [done|].
  intros t. apply fltb_notna.
Qed.

Lemma winning_pips_fsum ledger :
  winning_pips ledger = fsum (pips (List.filter is_win ledger)).
Proof.
  unfold winning_pips, series_sum. rewrite pips_valid_filter; [done|].
  intros t. apply fgtb_notna.
Qed.

Lemma finite_ledger_filter f ledger :
  finite_ledger ledger → finite_ledger (List.filter f ledger).
Proof.
  unfold finite_ledger. rewrite !Forall_forall. intros H t Ht.
  apply list_elem_of_In, filter_In in Ht as [Ht _].
  by apply H, list_elem_of_In.
Qed.

Lemma winning_pips_finite ledger :
  finite_ledger ledger → is_finite (winning_pips ledger).
Proof.
  intros H. rewrite winning_pips_fsum. apply fsum_finite.
  unfold pips. rewrite Forall_fmap. by apply finite_ledger_filter.
Qed.

(** The losing-pip sum of a finite ledger with a losing trade is a
    negative number. *)
Lemma losing_pips_negative ledger :
  finite_ledger ledger → List.filter is_loss ledger ≠ [] →
  ∃ q, losing_pips ledger = Fin q ∧ (q < 0)%Q.
Proof.
  intros Hfin Hne. rewrite losing_pips_fsum. apply fsum_negative.
  - unfold pips. by destruct (List.filter is_loss ledger).
  - unfold pips. rewrite Forall_fmap. apply Forall_forall. intros t Ht.
    apply list_elem_of_In, filter_In in Ht as [Hin Hl].
    unfold finite_ledger in Hfin. rewrite Forall_forall in Hfin.
    apply list_elem_of_In, Hfin, is_finite_Fin in Hin as [q Hq].
    simpl. exists q. split; [done|].
    unfold is_loss in Hl. rewrite Hq in Hl. by apply fltb_Fin in Hl.
Qed.

Lemma losing_pips_empty ledger :
  List.filter is_loss ledger = [] → losing_pips ledger = fzero.
Proof. unfold losing_pips. by intros ->. Qed.

(** C1, as stated, fails on the ledger holding one break-even trade:
    the profit factor is reported as infinite although no trade won. *)
Lemma profit_factor_inf_without_winner :
  ∃ p, performance_of [breakeven] = Metrics p ∧
       ¬ (profit_factor p = PInf ↔
          has_winning_trade [breakeven] ∧ losing_sum_zero [breakeven]).
Proof.
  eexists. split; [reflexivity|]. simpl.
  intros [H _]. destruct (H eq_refl) as [(t & Ht & Hw) _].
  apply list_elem_of_singleton in Ht as ->. discriminate Hw.
Qed.

(** C1 (amended): on a non-empty ledger of finite pip profits the
    profit factor is [+infinity] whenever the ledger has no losing
    trade, which is exactly when the losing-pip sum is zero, whether
    or not a trade won; with a losing trade the losing-pip sum is not
    zero and the profit factor is the quotient
    [|sum of winning pips / sum of losing pips|].  (Nothing is said on
    when that quotient is itself infinite: it is a number in exact
    arithmetic, in floating point it can overflow.) *)
Theorem profit_factor_inf_when_no_loss (ledger : list Trade) p :
  finite_ledger ledger →
  performance_of ledger = Metrics p →
  (List.filter is_loss ledger = [] → profit_factor p = PInf) ∧
  (List.filter is_loss ledger = [] ↔ losing_sum_zero ledger) ∧
  (List.filter is_loss ledger ≠ [] →
   profit_factor p = fabs (fdiv (winning_pips ledger) (losing_pips ledger))).
Proof.
  intros Hfin Hp.
  assert (Hpf : profit_factor p =
    if bool_decide (0 < length (List.filter is_loss ledger))%nat
       && fneb (losing_pips ledger) fzero
    then fabs (fdiv (winning_pips ledger) (losing_pips ledger)) else PInf).
  { pose proof (performance_of_Metrics _ _ Hp) as Hne.
    unfold performance_of in Hp.
    rewrite bool_decide_eq_false_2 in Hp by (by destruct ledger).
    by injection Hp as <-. }
  destruct (List.filter is_loss ledger) as [|t0 losers] eqn:Hl.
  - rewrite Hpf. simpl. repeat split; try done.
    intros _. unfold losing_sum_zero. by rewrite losing_pips_empty.
  - destruct (losing_pips_negative ledger Hfin) as (q & Hq & Hq0);
      [by rewrite Hl|].
    assert (Hne : fneb (losing_pips ledger) fzero = true).
    { rewrite Hq. unfold fneb. apply negb_true_iff.
      destruct (feqb (Fin q) fzero) eqn:E; [|done].
      apply feqb_Fin in E. lra. }
    assert (Hval : profit_factor p =
              fabs (fdiv (winning_pips ledger) (losing_pips ledger))).
    { rewrite Hpf, Hne. by rewrite bool_decide_eq_true_2 by (simpl; lia). }
    repeat split; try done.
    unfold losing_sum_zero. rewrite Hq. intros E.
    apply feqb_Fin in E. lra.
Qed.

Lemma profit_factor_inf_when_no_loss_witness :
  finite_ledger sample_ledger ∧
  ∃ p, performance_of sample_ledger = Metrics p ∧
    (List.filter is_loss sample_ledger = [] → profit_factor p = PInf) ∧
    (List.filter is_loss sample_ledger = [] ↔ losing_sum_zero sample_ledger) ∧
    (List.filter is_loss sample_ledger ≠ [] →
     profit_factor p =
       fabs (fdiv (winning_pips sample_ledger) (losing_pips sample_ledger))).
Proof.
  split; [repeat constructor|].
  eexists. split; [reflexivity|].
  apply (profit_factor_inf_when_no_loss sample_ledger);
    [repeat constructor | reflexivity].
Defined.

(** C10: a trade whose pip profit is exactly zero is counted in
    [total_trades] but in neither [winning_trades] nor
    [losing_trades], so their sum stays strictly below [total_trades],
    and [win_rate] still divides by [total_trades]. *)
Theorem breakeven_trade_counted_in_total_only (l1 l2 : list Trade) (t : Trade) :
  feqb (pips_profit t) fzero = true →
  ∃ p, performance_of (l1 ++ t :: l2) = Metrics p ∧
       total_trades p = S (length (l1 ++ l2)) ∧
       winning_trades p = length (List.filter is_win (l1 ++ l2)) ∧
       losing_trades p = length (List.filter is_loss (l1 ++ l2)) ∧
       (winning_trades p + losing_trades p < total_trades p)%nat ∧
       win_rate p = fmul (fdiv (of_nat (winning_trades p))
                               (of_nat (total_trades p))) (Fin 100).
Proof.
  intros Hz.
  pose proof (feqb_zero_not_gt _ Hz) as Hw.
  pose proof (feqb_zero_not_lt _ Hz) as Hl.
  assert (Hlen : length (l1 ++ t :: l2) = S (length (l1 ++ l2))).
  { rewrite !length_app. simpl. lia. }
  assert (Hfw : List.filter is_win (l1 ++ t :: l2) = List.filter is_win (l1 ++ l2)).
  { rewrite !List.filter_app. simpl. unfold is_win at 2. by rewrite Hw. }
  assert (Hfl : List.filter is_loss (l1 ++ t :: l2) = List.filter is_loss (l1 ++ l2)).
  { rewrite !List.filter_app. simpl. unfold is_loss at 2. by rewrite Hl. }
  assert (Hdisj : ∀ l : list Trade,
    (length (List.filter is_win l) + length (List.filter is_loss l) ≤ length l)%nat).
  { induction l as [|x l IH]; simpl; [lia|].
    unfold is_win at 1, is_loss at 1.
    destruct (fgtb (pips_profit x) fzero) eqn:G,
             (fltb (pips_profit x) fzero) eqn:L; simpl; try lia.
    exfalso. unfold fgtb in G.
    destruct (pips_profit x) as [q| | |]; try discriminate.
    apply fltb_Fin in G, L. lra. }
  unfold performance_of.
  rewrite bool_decide_eq_false_2 by (rewrite Hlen; lia).
  eexists. split; [reflexivity|]. simpl.
  rewrite Hfw, Hfl, Hlen.
  split_and!; try done.
  specialize (Hdisj (l1 ++ l2)). lia.
Qed.

Lemma breakeven_trade_counted_in_total_only_witness :
  feqb (pips_profit breakeven) fzero = true ∧
  ∃ p, performance_of (sample_ledger ++ breakeven :: []) = Metrics p ∧
       total_trades p = S (length (sample_ledger ++ [])) ∧
       winning_trades p = length (List.filter is_win (sample_ledger ++ [])) ∧
       losing_trades p = length (List.filter is_loss (sample_ledger ++ [])) ∧
       (winning_trades p + losing_trades p < total_trades p)%nat ∧
       win_rate p = fmul (fdiv (of_nat (winning_trades p))
                               (of_nat (total_trades p))) (Fin 100).
Proof.
  split; [reflexivity|].
  apply (breakeven_trade_counted_in_total_only sample_ledger [] breakeven).
  reflexivity.
Defined.

End performance.

(** ** TradeReconstructor: [get_entry_exit_pairs] *)

Section pairs.
Import SMACrossoverStrategy Spec Examples.

Lemma py_div_not_zero x y : not_zero y → py_div x y = Ok (fdiv x y).
Proof. unfold py_div, not_zero. by intros ->. Qed.

Lemma py_div_zero x y : feqb y fzero = true → py_div x y = Raise division_error.
Proof. unfold py_div. by intros ->. Qed.

Lemma close_long_completed o row :
  not_zero (open_price o) →
  close_long o row = Ok (completed_trade long (open_time o) (open_price o) row).
Proof. intros H. unfold close_long. by rewrite py_div_not_zero. Qed.

Lemma close_short_completed o row :
  not_zero (open_price o) →
  close_short o row
  = Ok (completed_trade short (open_time o) (open_price o) row).
Proof. intros H. unfold close_short. by rewrite py_div_not_zero. Qed.

(** One turn of the loop against one transition of the state machine:
    the new state, and the trade completed if there is one. *)
Lemma pair_step_cases st row :
  match direction (row_signal row), abstract_state st with
  | None, _ => pair_step st row = Ok st
  | Some d, Flat =>
      pair_step st row
      = Ok {| held := Some (open_at d row); trades := trades st |}
  | Some d, Holding d0 time price =>
      if same_direction d d0 then pair_step st row = Ok st
      else
        (not_zero price →
         pair_step st row
         = Ok {| held := Some (open_at d row);
                 trades := trades st ++ [completed_trade d0 time price row] |})
        ∧ (feqb price fzero = true →
           pair_step st row = Raise division_error)
  end.
Proof.
  unfold pair_step, direction, abstract_state.
  destruct (held st) as [[[] price time]|] eqn:Hh; simpl;
    repeat case_bool_decide; simpl; try done; try lia;
    try (by destruct st; simpl in *; subst).
  - split; intros Hp.
    + by rewrite close_long_completed by exact Hp.
    + unfold close_long. simpl. by rewrite (py_div_zero _ _ Hp).
  - split; intros Hp.
    + by rewrite close_short_completed by exact Hp.
    + unfold close_short. simpl. by rewrite (py_div_zero _ _ Hp).
Qed.

(** The loop, from any state, appends what the state machine
    completes, as long as no completed trade was entered at a price of
    zero. *)
Lemma for_rows_reconstruct rows : ∀ st,
  Forall (λ t, not_zero (entry_price t)) (reconstruct (abstract_state st) rows) →
  ∃ st', for_rows rows st = Ok st' ∧
         trades st' = trades st ++ reconstruct (abstract_state st) rows.
Proof.
  induction rows as [|row rows IH]; intros st Hall.
  - exists st. by rewrite app_nil_r.
  - pose proof (pair_step_cases st row) as Hstep. simpl in *.
    destruct (direction (row_signal row)) as [d|].
    + destruct (abstract_state st) as [|d0 time price] eqn:Ha.
      * rewrite Hstep. bind_ok.
        destruct (IH {| held := Some (open_at d row); trades := trades st |})
          as (st' & Hrun & Htr); [done | by exists st'].
      * destruct (same_direction d d0).
        -- rewrite Hstep. bind_ok. rewrite <- Ha in Hall.
           destruct (IH st Hall) as (st' & Hrun & Htr).
           exists st'. by rewrite Htr, Ha.
        -- apply Forall_cons in Hall as [Hp Hall].
           destruct Hstep as [Hstep _]. rewrite (Hstep Hp). bind_ok.
           destruct (IH {| held := Some (open_at d row);
                           trades := trades st ++
                             [completed_trade d0 time price row] |})
             as (st' & Hrun & Htr); [done|].
           exists st'. split; [done|]. rewrite Htr. simpl.
           by rewrite <- app_assoc.
    + rewrite Hstep. bind_ok. by apply IH.
Qed.

(** The loop raises as soon as it leaves a trade entered at a price of
    zero. *)
Lemma for_rows_raises rows : ∀ st,
  Exists zero_entry (reconstruct (abstract_state st) rows) →
  for_rows rows st = Raise division_error.
Proof.
  induction rows as [|row rows IH]; intros st Hex.
  - by apply Exists_nil in Hex.
  - pose proof (pair_step_cases st row) as Hstep. simpl in *.
    destruct (direction (row_signal row)) as [d|].
    + destruct (abstract_state st) as [|d0 time price] eqn:Ha.
      * rewrite Hstep. bind_ok. by apply IH.
      * destruct (same_direction d d0).
        -- rewrite Hstep. bind_ok. apply IH. by rewrite Ha.
        -- destruct Hstep as [Hok Hraise].
           destruct (feqb price fzero) eqn:Hp.
           ++ by rewrite Hraise.
           ++ rewrite (Hok Hp). bind_ok. apply IH.
              apply Exists_cons in Hex as [Hz | Hex]; [|done].
              unfold zero_entry in Hz. simpl in Hz. congruence.
    + rewrite Hstep. bind_ok. by apply IH.
Qed.

Lemma pair_rows_reconstruct rows :
  Forall (λ t, not_zero (entry_price t)) (reconstruct Flat rows) →
  pair_rows rows = Ok (reconstruct Flat rows).
Proof.
  intros Hall. unfold pair_rows.
  destruct (for_rows_reconstruct rows pair_init Hall) as (st' & -> & Htr).
  bind_ok. by rewrite Htr.
Qed.

Lemma pair_rows_raises rows :
  Exists zero_entry (reconstruct Flat rows) →
  pair_rows rows = Raise division_error.
Proof.
  intros Hex. unfold pair_rows.
  by rewrite (for_rows_raises rows pair_init Hex).
Qed.

(** Every trade of the state machine is entered at the close of a row
    or at the price held at the start. *)
Lemma reconstruct_entry_prices (P : fnum → Prop) rows : ∀ st,
  Forall (λ r, P (row_close r)) rows →
  (∀ d time price, st = Holding d time price → P price) →
  Forall (λ t, P (entry_price t)) (reconstruct st rows).
Proof.
  induction rows as [|row rows IH]; intros st Hrows Hst; [constructor|].
  apply Forall_cons in Hrows as [Hrow Hrows]. simpl.
  assert (Hnew : ∀ d d' time price,
            Holding d (row_time row) (row_close row) = Holding d' time price →
            P price).
  { intros d d' time price E. by injection E as _ _ <-. }
  destruct (direction (row_signal row)) as [d|]; [|by apply IH].
  destruct st as [|d0 time price].
  - apply IH; [done|]. apply Hnew.
  - destruct (same_direction d d0); [by apply IH|].
    constructor; [by eapply Hst|]. apply IH; [done|]. apply Hnew.
Qed.

Lemma zip_rows_closes (P : fnum → Prop) (c : series) : ∀ t s,
  Forall P c → Forall (λ r, P (row_close r)) (zip_rows t c s).
Proof.
  induction c as [|c0 c IH]; intros t s Hc.
  - destruct t; constructor.
  - apply Forall_cons in Hc as [H0 Hc].
    destruct t, s; try constructor; [done|]. by apply IH.
Qed.

Lemma ledger_entry_prices (P : fnum → Prop) time close sig :
  Forall P close →
  Forall (λ t, P (entry_price t)) (reconstruct Flat (signal_rows time close sig)).
Proof.
  intros Hc. apply reconstruct_entry_prices; [|done].
  unfold signal_rows. apply Forall_forall. intros r Hr.
  apply list_elem_of_filter in Hr as [_ Hr].
  pose proof (zip_rows_closes P close time sig Hc) as Hall.
  rewrite Forall_forall in Hall. by apply Hall.
Qed.

Lemma zip_rows_select mask : ∀ t c s,
  zip_rows (select mask t) (select mask c) (select mask s)
  = select mask (zip_rows t c s).
Proof.
  induction mask as [|m mask IH]; intros t c s.
  - by destruct t, c, s.
  - destruct t as [|t0 t], c as [|c0 c], s as [|s0 s]; simpl;
      try (by destruct m); try (by destruct m, (select mask t));
      try (by destruct m, (select mask t), (select mask c)).
    destruct m; simpl; by rewrite IH.
Qed.

Lemma select_nonzero_rows s : ∀ t c,
  select (BaseStrategy.nonzero s) (zip_rows t c s)
  = filter (λ r, row_signal r ≠ 0) (zip_rows t c s).
Proof.
  induction s as [|s0 s IH]; intros t c.
  - by destruct t, c.
  - destruct t as [|t0 t], c as [|c0 c]; try done. simpl.
    rewrite filter_cons. simpl. rewrite IH.
    case_bool_decide; by case_decide.
Qed.

Lemma select_none {A} mask : ∀ a (l : list A),
  length (select mask (seq a (length mask))) = 0%nat → select mask l = [].
Proof.
  induction mask as [|m mask IH]; intros a l H; [done|].
  destruct l as [|x l]; [done|]. simpl in *.
  destruct m; [done|]. by apply (IH (S a)).
Qed.

Lemma iterrows_filter mask (df : DataFrame) time close sig :
  cols df !! "time" = Some (TimeCol time) →
  cols df !! "close" = Some (FloatCol close) →
  cols df !! "signal" = Some (IntCol sig) →
  iterrows (frame_filter mask df) = Ok (select mask (zip_rows time close sig)).
Proof.
  intros Ht Hc Hs. unfold iterrows.
  rewrite (int_col_Some _ _ _ (cols_frame_filter mask _ _ _ Hs)). bind_ok.
  rewrite (float_col_Some _ _ _ (cols_frame_filter mask _ _ _ Hc)). bind_ok.
  rewrite (time_col_Some _ _ _ (cols_frame_filter mask _ _ _ Ht)). bind_ok.
  by rewrite zip_rows_select.
Qed.

(** The ledger of a frame with time, close and signal columns: the
    trades of the state machine, or the division error of the first
    trade entered at a price of zero. *)
Lemma get_entry_exit_pairs_cases (σ : store) self l (df : DataFrame)
    time close sig :
  data self = Some l → σ !! l = Some df →
  cols df !! "time" = Some (TimeCol time) →
  cols df !! "close" = Some (FloatCol close) →
  cols df !! "signal" = Some (IntCol sig) →
  length sig = nrows df →
  (Forall (λ t, not_zero (entry_price t))
     (reconstruct Flat (signal_rows time close sig)) →
   get_entry_exit_pairs (σ, self)
   = Ok (reconstruct Flat (signal_rows time close sig))) ∧
  (Exists zero_entry (reconstruct Flat (signal_rows time close sig)) →
   get_entry_exit_pairs (σ, self) = Raise division_error).
Proof.
  intros Hd Hl Ht Hc Hs Hlen.
  unfold get_entry_exit_pairs, deref. rewrite Hd, Hl. bind_ok.
  rewrite (int_col_Some _ _ _ Hs). bind_ok.
  unfold signal_rows. rewrite <- select_nonzero_rows.
  case_bool_decide as Hn.
  - simpl in Hn. rewrite <- Hlen in Hn.
    replace (length sig) with (length (BaseStrategy.nonzero sig)) in Hn
      by apply length_fmap.
    rewrite (select_none _ _ _ Hn). split; [done|].
    intros Hex. by apply Exists_nil in Hex.
  - rewrite (iterrows_filter _ _ _ _ _ Ht Hc Hs). bind_ok.
    split; [apply pair_rows_reconstruct | apply pair_rows_raises].
Qed.

(** Leaving a position entered at a close of zero raises. *)
Lemma get_entry_exit_pairs_zero_entry :
  get_entry_exit_pairs zero_entry_world = Raise division_error ∧
  get_performance_summary zero_entry_world = Raise division_error.
Proof. split; reflexivity. Qed.

(** C2: on candles whose close is never zero (the candles of the
    specification have positive prices) [get_entry_exit_pairs] is the
    state machine of the specification run over the non-zero signals
    in index order from the flat state: a signal while flat opens a
    position at the row's (time, close); an opposite signal closes it,
    records one trade and opens the reverse position at the same
    (time, close); a signal of the held direction changes nothing; a
    position left open records nothing.  Five alternating signals give
    exactly four trades.  Whatever the closes, the result is that of
    the state machine when none of its trades is entered at a price of
    zero, and a [ZeroDivisionError] otherwise. *)
Theorem get_entry_exit_pairs_state_machine
    (σ : store) (self : Strategy) (l : loc) (df : DataFrame)
    (time : list Z) (close : series) (sig : list Z) :
  data self = Some l →
  σ !! l = Some df →
  cols df !! "time" = Some (TimeCol time) →
  cols df !! "close" = Some (FloatCol close) →
  cols df !! "signal" = Some (IntCol sig) →
  length sig = nrows df →
  (Forall not_zero close →
   get_entry_exit_pairs (σ, self)
     = Ok (reconstruct Flat (signal_rows time close sig)) ∧
   (row_signal <$> signal_rows time close sig = [1; -1; 1; -1; 1] →
    ∃ t1 t2 t3 t4, get_entry_exit_pairs (σ, self) = Ok [t1; t2; t3; t4])) ∧
  (Forall (λ t, not_zero (entry_price t))
     (reconstruct Flat (signal_rows time close sig)) →
   get_entry_exit_pairs (σ, self)
     = Ok (reconstruct Flat (signal_rows time close sig))) ∧
  (Exists zero_entry (reconstruct Flat (signal_rows time close sig)) →
   get_entry_exit_pairs (σ, self) = Raise division_error).
Proof.
  intros Hd Hl Ht Hc Hs Hlen.
  destruct (get_entry_exit_pairs_cases σ self l df time close sig
              Hd Hl Ht Hc Hs Hlen) as [Hok Hraise].
  split_and!; [|done|done]. intros Hclose.
  assert (Hrun : get_entry_exit_pairs (σ, self)
                 = Ok (reconstruct Flat (signal_rows time close sig))).
  { apply Hok. by apply (ledger_entry_prices not_zero). }
  split; [done|]. intros Hsig. rewrite Hrun.
  destruct (signal_rows time close sig) as [|r1 [|r2 [|r3 [|r4 [|r5 [|]]]]]];
    try discriminate.
  injection Hsig as H1 H2 H3 H4 H5.
  simpl. unfold direction. rewrite H1, H2, H3, H4, H5. simpl. eauto.
Qed.

Lemma get_entry_exit_pairs_state_machine_witness :
  ∃ t1 t2 t3 t4, get_entry_exit_pairs alternating_world = Ok [t1; t2; t3; t4].
Proof.
  destruct (get_entry_exit_pairs_state_machine alternating_world.1
              alternating_world.2 1%positive alternating_frame
              [0; 1; 2; 3; 4] [Fin 1; Fin 2; Fin 1; Fin 3; Fin 2]
              [1; -1; 1; -1; 1]) as [H _];
    try reflexivity.
  apply H; [repeat constructor | reflexivity].
Defined.

End pairs.

(** ** Construction: [SMACrossoverStrategy.__init__] *)

Section construction.
Import SMACrossoverStrategy Spec Examples.

(** C4, as stated, fails: a negative confirmation lag is accepted. *)
Lemma init_accepts_invalid_lag :
  ¬ valid_lag (-1) ∧ succeeds (init 5 10 (-1)).
Proof. split; [unfold valid_lag; lia | exact I]. Qed.

(** C4 (amended): construction raises exactly when
    [short_period >= long_period] and succeeds exactly when
    [short_period < long_period], whatever the confirmation lag is:
    the lag is not validated. *)
Theorem init_checks_periods_only (short long lag : Z) :
  (raises (init short long lag) ↔ short >= long) ∧
  (succeeds (init short long lag) ↔ short < long) ∧
  (init short long lag = Raise (ValueError "Short period must be less than long period")
   ∨ init short long lag =
       Ok {| name := "SMA_Crossover"; short_period := short;
             long_period := long; min_candles_after_cross := lag;
             data := None; signals := None |}).
Proof.
  unfold init. case_bool_decide; simpl; split_and!; try tauto; try lia; auto.
Qed.

End construction.

(** ** Engine state: queries before [run] *)

Section not_run.
Import BaseStrategy SMACrossoverStrategy Spec Examples.

(** C7, as stated, fails on a fresh strategy: [get_all_signals] and
    [get_summary] answer with an empty result while [export_signals]
    raises, so the four queries are neither all errors nor all empty. *)
Lemma not_run_results_differ :
  ¬ uniformly_not_run unloaded_world "signals.csv".
Proof.
  intros [(H & _) | (_ & _ & H & _)]; [exact H | discriminate H].
Qed.

(** C7 (amended): while no run has completed ([signals] is [None]),
    [get_all_signals] returns the empty frame, [get_summary] the empty
    dictionary and [export_signals] raises its "No signals to export"
    error; none of the three returns signal data. *)
Theorem queries_before_run (σ : store) (self : Strategy)
    (signal_type : option Z) (filepath : string) :
  signals self = None →
  get_all_signals (σ, self) signal_type = Ok empty_frame ∧
  get_summary (σ, self) = Ok None ∧
  export_signals (σ, self) filepath
    = Raise (ValueError "No signals to export. Run the strategy first.").
Proof.
  intros H. unfold get_all_signals, get_summary, export_signals.
  by rewrite H.
Qed.

Lemma queries_before_run_witness :
  signals fresh_strategy = None ∧
  get_all_signals unloaded_world (Some 1) = Ok empty_frame ∧
  get_summary unloaded_world = Ok None ∧
  export_signals unloaded_world "signals.csv"
    = Raise (ValueError "No signals to export. Run the strategy first.").
Proof.
  split; [reflexivity|].
  apply (queries_before_run ∅ fresh_strategy (Some 1) "signals.csv").
  reflexivity.
Defined.

(** Construction leaves [signals] unset, and loading keeps it so. *)
Lemma init_signals_None short long lag self :
  init short long lag = Ok self → signals self = None.
Proof. unfold init. case_bool_decide; [done|]. by intros [= <-]. Qed.

Lemma load_data_keeps_signals to_datetime σ self l σ' self' :
  load_data to_datetime (σ, self) l = Ok (σ', self') →
  signals self' = signals self.
Proof.
  unfold load_data. destruct (deref σ (Some l)) as [df|]; [|done].
  bind_ok. destruct (forallb _ _); [|done].
  destruct (getitem df "time") as [tc|]; [|done]. bind_ok.
  match goal with |- (?m ≫= _) = _ → _ => destruct m as [σ1|]; [|done] end.
  bind_ok.
  destruct (deref σ1 _) as [df1|]; [|done]. bind_ok.
  destruct (sort_values "time" df1); [|done]. bind_ok.
  by intros [= _ <-].
Qed.

(** [get_performance_summary] has no such guard: on an unloaded
    strategy it fails while subscripting [None]. *)
Lemma get_performance_summary_unloaded σ self :
  data self = None →
  get_performance_summary (σ, self)
    = Raise (TypeError "'NoneType' object is not subscriptable").
Proof.
  intros H. unfold get_performance_summary, get_entry_exit_pairs, deref.
  by rewrite H.
Qed.

End not_run.

(** ** CrossoverDetector: [calculate_indicators] *)

Section crossover.
Import BaseStrategy SMACrossoverStrategy Spec Examples.

Lemma sma_ok (s : series) (period : Z) :
  0 ≤ period → TechnicalIndicators.sma s period = Ok (rolling_sma period s).
Proof.
  intros H. unfold TechnicalIndicators.sma, rolling_mean, check_window.
  simpl. by rewrite !bool_decide_eq_false_2 by lia.
Qed.

Lemma sma_raises (s : series) (period : Z) :
  period < 0 → raises (TechnicalIndicators.sma s period).
Proof.
  intros H. unfold TechnicalIndicators.sma, rolling_mean, check_window.
  by rewrite bool_decide_eq_true_2 by lia.
Qed.

Lemma length_rolling_apply agg ddof w minp (s : series) :
  length (rolling_apply agg ddof w minp s) = length s.
Proof. unfold rolling_apply. by rewrite length_fmap, length_seq. Qed.

Lemma length_series_zip f (a b : series) :
  length (series_zip f a b) = Nat.max (length a) (length b).
Proof. unfold series_zip. by rewrite length_fmap, length_seq. Qed.

Lemma length_shift1 (s : series) : length (shift1 s) = length s.
Proof. unfold shift1. rewrite length_take. simpl. lia. Qed.

Lemma shift1_lookup_0 (s : series) x : shift1 s !! 0%nat = Some x → x = NaN.
Proof. unfold shift1. destruct s; simpl; [done|]. congruence. Qed.

Lemma shift1_lookup_S (s : series) i :
  (S i < length s)%nat → shift1 s !! S i = s !! i.
Proof. intros H. unfold shift1. by rewrite lookup_take_lt by lia. Qed.

Lemma length_crossover_of d n :
  length d = n → length (crossover_of d n) = n.
Proof.
  intros H. unfold crossover_of, mask_and, gt0, lt0, le0, ge0.
  rewrite !length_zip_with, !length_fmap, length_shift1, length_replicate. lia.
Qed.

Lemma crossover_of_lookup d n i x y :
  length d = n → d !! i = Some x → shift1 d !! i = Some y →
  crossover_of d n !! i = Some (cross_value x y).
Proof.
  intros Hn Hx Hy.
  assert (Hi : (i < n)%nat) by (rewrite <- Hn; by eapply lookup_lt_Some).
  unfold crossover_of, mask_and, gt0, lt0, le0, ge0.
  rewrite !lookup_zip_with, !list_lookup_fmap, Hx, Hy.
  rewrite lookup_replicate_2 by done. simpl. unfold cross_value.
  destruct (fltb x fzero && fgeb y fzero) eqn:D; [done|].
  by destruct (fgtb x fzero && fleb y fzero).
Qed.

(** The two masks exclude each other, and NaN satisfies neither. *)
Lemma cross_value_1 x y :
  cross_value x y = 1 ↔ fgtb x fzero = true ∧ fleb y fzero = true.
Proof.
  unfold cross_value.
  destruct (fltb x fzero) eqn:L, (fgeb y fzero) eqn:G,
           (fgtb x fzero) eqn:T, (fleb y fzero) eqn:E; simpl;
    split; try done; try (intros []; done).
  all: exfalso; unfold fgtb in T; destruct x as [q| | |]; try discriminate;
    apply fltb_Fin in L, T; lra.
Qed.

Lemma cross_value_m1 x y :
  cross_value x y = -1 ↔ fltb x fzero = true ∧ fgeb y fzero = true.
Proof.
  unfold cross_value.
  destruct (fltb x fzero) eqn:L, (fgeb y fzero) eqn:G; simpl;
    destruct (fgtb x fzero && fleb y fzero); split;
    try done; by intros [].
Qed.

Lemma cross_value_cases x y :
  cross_value x y = 1 ∨ cross_value x y = -1 ∨ cross_value x y = 0.
Proof.
  unfold cross_value. destruct (_ && _); [auto|]. destruct (_ && _); auto.
Qed.

Lemma cross_value_nan_r x : cross_value x NaN = 0.
Proof.
  unfold cross_value. replace (fgeb NaN fzero) with false by done.
  replace (fleb NaN fzero) with false by done. by rewrite !andb_false_r.
Qed.

Lemma fleb_notna x y : fleb x y = true → notna x = true.
Proof. by destruct x, y. Qed.

Lemma fgeb_notna x y : fgeb x y = true → notna x = true.
Proof. by destruct x, y. Qed.

Lemma loc_set_mask_ok mask k v (df : DataFrame) c :
  cols df !! k = Some (IntCol c) →
  loc_set_mask mask k v df
  = Ok (setitem k (IntCol (zip_with (λ (m : bool) x, if m then v else x) mask c)) df).
Proof. intros H. unfold loc_set_mask. by rewrite (int_col_Some _ _ _ H). Qed.

(** [calculate_indicators] succeeds on a frame with a close column
    and non-negative periods, and leaves this frame. *)
Lemma calculate_indicators_frame_ok self (df : DataFrame) close :
  cols df !! "close" = Some (FloatCol close) →
  0 ≤ short_period self → 0 ≤ long_period self →
  calculate_indicators_frame self df = Ok (with_indicators self close df).
Proof.
  intros Hc Hs Hl. unfold calculate_indicators_frame.
  read_float. rewrite sma_ok by done. bind_ok.
  read_float. rewrite sma_ok by done. bind_ok.
  read_float. read_float. read_float.
  erewrite loc_set_mask_ok by solve_col. binds_ok.
  read_float.
  erewrite loc_set_mask_ok by solve_col. binds_ok.
  unfold with_indicators, crossover_of. by rewrite !setitem_setitem.
Qed.

Lemma length_rolling_sma p (s : series) : length (rolling_sma p s) = length s.
Proof. apply length_rolling_apply. Qed.

Lemma notna_false x : notna x = false → x = NaN.
Proof. by destruct x. Qed.

(** The value before index [i] in the shifted series. *)
Lemma shift1_lookup (d : series) i y :
  shift1 d !! i = Some y →
  (i = 0%nat ∧ y = NaN) ∨ (∃ j, i = S j ∧ d !! j = Some y).
Proof.
  intros H. destruct i as [|j].
  - left. split; [done|]. by eapply shift1_lookup_0.
  - right. exists j. split; [done|].
    rewrite <- H. symmetry. apply shift1_lookup_S.
    rewrite <- length_shift1. by eapply lookup_lt_Some.
Qed.

(** C6: with [d = SMA(short) - SMA(long)], the crossover column is
    [+1] at [i] exactly when [d[i] > 0] and [d[i-1] <= 0], [-1]
    exactly when [d[i] < 0] and [d[i-1] >= 0], both values defined,
    and [0] elsewhere; the earliest index with a defined difference is
    never marked. *)
Theorem crossover_classification (self : Strategy) (df : DataFrame)
    (close : series) :
  cols df !! "close" = Some (FloatCol close) →
  length close = nrows df →
  0 ≤ short_period self →
  0 ≤ long_period self →
  ∃ df' ss sl cross,
    calculate_indicators_frame self df = Ok df' ∧
    TechnicalIndicators.sma close (short_period self) = Ok ss ∧
    TechnicalIndicators.sma close (long_period self) = Ok sl ∧
    cols df' !! "sma_diff" = Some (FloatCol (series_sub ss sl)) ∧
    cols df' !! "crossover" = Some (IntCol cross) ∧
    length cross = nrows df ∧
    ∀ i, (i < nrows df)%nat →
      (cross !! i = Some 1 ↔ golden_cross (series_sub ss sl) i) ∧
      (cross !! i = Some (-1) ↔ death_cross (series_sub ss sl) i) ∧
      (cross !! i = Some 1 ∨ cross !! i = Some (-1) ∨ cross !! i = Some 0) ∧
      (first_defined (series_sub ss sl) i → cross !! i = Some 0).
Proof.
  intros Hc Hlen Hs Hl.
  set (ss := rolling_sma (short_period self) close).
  set (sl := rolling_sma (long_period self) close).
  set (d := series_sub ss sl).
  assert (Hd : length d = nrows df).
  { unfold d, series_sub. rewrite length_series_zip.
    unfold ss, sl. rewrite !length_rolling_sma. lia. }
  exists (with_indicators self close df), ss, sl, (crossover_of d (nrows df)).
  split_and!.
  - by apply calculate_indicators_frame_ok.
  - by apply sma_ok.
  - by apply sma_ok.
  - unfold with_indicators. fold ss sl d. solve_col.
  - unfold with_indicators. fold ss sl d. solve_col.
  - by apply length_crossover_of.
  - intros i Hi.
    destruct (lookup_lt_is_Some_2 d i) as [x Hx]; [lia|].
    destruct (lookup_lt_is_Some_2 (shift1 d) i) as [y Hy];
      [rewrite length_shift1; lia|].
    rewrite (crossover_of_lookup d _ i x y Hd Hx Hy).
    pose proof (shift1_lookup d i y Hy) as Hprev.
    split_and!.
    + split.
      * intros [= Hv]. apply cross_value_1 in Hv as [Hg Hle].
        destruct Hprev as [[-> ->] | (j & -> & Hj)]; [done|].
        exists x, y. simpl. rewrite Nat.sub_0_r.
        split_and!; try done; try lia.
        -- by eapply fgtb_notna.
        -- by eapply fleb_notna.
      * intros (x' & y' & Hpos & Hx' & Hy' & _ & _ & Hg & Hle).
        destruct Hprev as [[-> ->] | (j & -> & Hj)]; [lia|].
        simpl in Hy'. rewrite Nat.sub_0_r in Hy'. fold d in Hx', Hy'.
        assert (x' = x) as -> by congruence.
        assert (y' = y) as -> by congruence.
        f_equal. by apply cross_value_1.
    + split.
      * intros [= Hv]. apply cross_value_m1 in Hv as [Hg Hle].
        destruct Hprev as [[-> ->] | (j & -> & Hj)]; [done|].
        exists x, y. simpl. rewrite Nat.sub_0_r.
        split_and!; try done; try lia.
        -- by eapply fltb_notna.
        -- by eapply fgeb_notna.
      * intros (x' & y' & Hpos & Hx' & Hy' & _ & _ & Hg & Hle).
        destruct Hprev as [[-> ->] | (j & -> & Hj)]; [lia|].
        simpl in Hy'. rewrite Nat.sub_0_r in Hy'. fold d in Hx', Hy'.
        assert (x' = x) as -> by congruence.
        assert (y' = y) as -> by congruence.
        f_equal. by apply cross_value_m1.
    + destruct (cross_value_cases x y) as [-> | [-> | ->]]; auto.
    + intros [_ Hfirst]. f_equal.
      destruct Hprev as [[-> ->] | (j & -> & Hj)].
      * apply cross_value_nan_r.
      * rewrite (notna_false y); [apply cross_value_nan_r|].
        eapply (Hfirst j); [lia | done].
Qed.

Lemma crossover_classification_witness :
  ∃ df' ss sl cross,
    calculate_indicators_frame quick_strategy crossing_frame = Ok df' ∧
    TechnicalIndicators.sma crossing_close 1 = Ok ss ∧
    TechnicalIndicators.sma crossing_close 2 = Ok sl ∧
    cols df' !! "sma_diff" = Some (FloatCol (series_sub ss sl)) ∧
    cols df' !! "crossover" = Some (IntCol cross) ∧
    length cross = 6%nat ∧
    ∀ i, (i < 6)%nat →
      (cross !! i = Some 1 ↔ golden_cross (series_sub ss sl) i) ∧
      (cross !! i = Some (-1) ↔ death_cross (series_sub ss sl) i) ∧
      (cross !! i = Some 1 ∨ cross !! i = Some (-1) ∨ cross !! i = Some 0) ∧
      (first_defined (series_sub ss sl) i → cross !! i = Some 0).
Proof.
  apply (crossover_classification quick_strategy crossing_frame crossing_close);
    [reflexivity | reflexivity | simpl; lia | simpl; lia].
Defined.

End crossover.

(** ** SignalGenerator: [generate_signals] *)

Section signals.
Import BaseStrategy SMACrossoverStrategy Spec Examples.

(** A loop whose state after [m] iterations is [F m]. *)
Lemma for_range_seq {S} (body : S → nat → result S) (F : nat → S) len : ∀ a,
  (∀ m, (a ≤ m < a + len)%nat → body (F m) m = Ok (F (Datatypes.S m))) →
  for_range body (seq a len) (F a) = Ok (F (a + len)%nat).
Proof.
  induction len as [|len IH]; intros a Hstep; simpl.
  - by rewrite Nat.add_0_r.
  - rewrite Hstep by lia. bind_ok. rewrite IH.
    + f_equal. f_equal. lia.
    + intros m Hm. apply Hstep. lia.
Qed.

Lemma length_confirmed_upto k m n cross ss sl :
  length (confirmed_upto k m n cross ss sl) = n.
Proof. unfold confirmed_upto. by rewrite length_fmap, length_seq. Qed.

Lemma confirmed_upto_lookup k m n cross ss sl j :
  (j < n)%nat →
  confirmed_upto k m n cross ss sl !! j
  = Some (if bool_decide (j < m + k)%nat
          then confirmed_value k cross ss sl j else 0).
Proof.
  intros H. unfold confirmed_upto.
  rewrite list_lookup_fmap, lookup_seq_lt by done. done.
Qed.

Lemma confirmed_upto_0 k n cross ss sl :
  confirmed_upto k 0 n cross ss sl = replicate n 0.
Proof.
  apply list_eq. intros j. destruct (decide (j < n)%nat) as [Hj|Hj].
  - rewrite confirmed_upto_lookup, lookup_replicate_2 by done.
    unfold confirmed_value. case_bool_decide; [|done].
    by rewrite bool_decide_eq_false_2 by lia.
  - rewrite !lookup_ge_None_2;
      rewrite ?length_confirmed_upto, ?length_replicate; done || lia.
Qed.

Lemma confirmed_upto_all k n cross ss sl :
  confirmed_upto k n n cross ss sl = confirmed_value k cross ss sl <$> seq 0 n.
Proof.
  apply list_eq. intros j. destruct (decide (j < n)%nat) as [Hj|Hj].
  - rewrite confirmed_upto_lookup, list_lookup_fmap, lookup_seq_lt by done.
    simpl. by rewrite bool_decide_eq_true_2 by lia.
  - rewrite !lookup_ge_None_2;
      rewrite ?length_confirmed_upto, ?length_fmap, ?length_seq; done || lia.
Qed.

(** One more index handled: only position [m + k] can change. *)
Lemma confirmed_upto_S k m n cross ss sl :
  confirmed_upto k (S m) n cross ss sl
  = <[(m + k)%nat := confirmed_value k cross ss sl (m + k)]>
      (confirmed_upto k m n cross ss sl).
Proof.
  apply list_eq. intros j. destruct (decide (j < n)%nat) as [Hj|Hj].
  - destruct (decide (j = m + k)%nat) as [->|Hne].
    + rewrite list_lookup_insert_eq by (by rewrite length_confirmed_upto).
      rewrite confirmed_upto_lookup by done.
      by rewrite bool_decide_eq_true_2 by lia.
    + rewrite list_lookup_insert_ne by done.
      rewrite !confirmed_upto_lookup by done.
      repeat case_bool_decide; try done; lia.
  - rewrite !lookup_ge_None_2;
      rewrite ?length_insert, ?length_confirmed_upto; done || lia.
Qed.

(** Past the end of the frame nothing changes. *)
Lemma confirmed_upto_S_out k m n cross ss sl :
  (n ≤ m + k)%nat →
  confirmed_upto k (S m) n cross ss sl = confirmed_upto k m n cross ss sl.
Proof.
  intros H. rewrite confirmed_upto_S. apply list_insert_ge.
  by rewrite length_confirmed_upto.
Qed.

(** A position still holding [0] before its index is handled. *)
Lemma confirmed_upto_S_zero k m n cross ss sl :
  confirmed_value k cross ss sl (m + k) = 0 →
  confirmed_upto k (S m) n cross ss sl = confirmed_upto k m n cross ss sl.
Proof.
  intros H. rewrite confirmed_upto_S, H.
  destruct (decide (m + k < n)%nat) as [Hlt|Hge].
  - apply list_insert_id. rewrite confirmed_upto_lookup by done.
    by rewrite bool_decide_eq_false_2 by lia.
  - apply list_insert_ge. rewrite length_confirmed_upto. lia.
Qed.

Lemma confirmed_value_shift k cross ss sl m c s l :
  cross !! m = Some c → ss !! (m + k)%nat = Some s → sl !! (m + k)%nat = Some l →
  confirmed_value k cross ss sl (m + k)
  = if bool_decide (c = 1) then (if fgtb s l then 1 else 0)
    else if bool_decide (c = -1) then (if fltb s l then -1 else 0)
    else 0.
Proof.
  intros Hc Hs Hl. unfold confirmed_value.
  rewrite bool_decide_eq_true_2 by lia.
  replace (m + k - k)%nat with m by lia. by rewrite Hc, Hs, Hl.
Qed.

Lemma confirmed_value_no_cross k cross ss sl m :
  cross !! m = Some 0 → confirmed_value k cross ss sl (m + k) = 0.
Proof.
  intros Hc. unfold confirmed_value.
  rewrite bool_decide_eq_true_2 by lia.
  replace (m + k - k)%nat with m by lia. rewrite Hc.
  by destruct (ss !! (m + k)%nat), (sl !! (m + k)%nat).
Qed.

Lemma at_Some {A} k (l : list A) i x : l !! i = Some x → at_ k l i = Ok x.
Proof. unfold at_. by intros ->. Qed.

Lemma loc_set_ok i k v (df : DataFrame) c :
  cols df !! k = Some (IntCol c) →
  loc_set i k v df = Ok (setitem k (IntCol (<[i := v]> c)) df).
Proof. intros H. unfold loc_set. by rewrite (int_col_Some _ _ _ H). Qed.

(** Reads the two averages at the look-ahead index. *)
Ltac read_averages :=
  repeat first [ read_float
               | match goal with H : at_ _ _ _ = Ok _ |- _ => rewrite H end
               | progress binds_ok ].

(** The loop body at index [m] takes the frame from "handled below
    [m]" to "handled below [m + 1]". *)
Lemma confirm_step_ok (kz : Z) (df : DataFrame) cross ss sl m :
  cols df !! "crossover" = Some (IntCol cross) →
  cols df !! "sma_short" = Some (FloatCol ss) →
  cols df !! "sma_long" = Some (FloatCol sl) →
  length cross = nrows df → length ss = nrows df → length sl = nrows df →
  0 ≤ kz → (m < nrows df)%nat →
  confirm_step kz
    (setitem "signal"
       (IntCol (confirmed_upto (Z.to_nat kz) m (nrows df) cross ss sl)) df) m
  = Ok (setitem "signal"
          (IntCol (confirmed_upto (Z.to_nat kz) (S m) (nrows df) cross ss sl)) df).
Proof.
  intros Hcross Hss Hsl Lc Ls Ll Hk Hm.
  set (k := Z.to_nat kz). set (n := nrows df).
  destruct (lookup_lt_is_Some_2 cross m) as [c Hc]; [lia|].
  unfold confirm_step. read_int.
  rewrite (at_Some _ _ _ _ Hc). bind_ok.
  case_bool_decide as Hc0; cycle 1.
  { assert (c = 0) as -> by lia.
    by rewrite confirmed_upto_S_zero by by apply confirmed_value_no_cross. }
  rewrite nrows_setitem. fold n.
  case_bool_decide as Hin; cycle 1.
  { by rewrite confirmed_upto_S_out by (unfold k; lia). }
  replace (Z.to_nat (Z.of_nat m + kz)) with (m + k)%nat by (unfold k; lia).
  assert (Hlt : (m + k < n)%nat) by (unfold k; lia).
  destruct (lookup_lt_is_Some_2 ss (m + k)) as [s Hs]; [lia|].
  destruct (lookup_lt_is_Some_2 sl (m + k)) as [l Hl]; [lia|].
  pose proof (confirmed_value_shift k cross ss sl m c s l Hc Hs Hl) as Hv.
  pose proof (at_Some "sma_short" _ _ _ Hs) as Hs'.
  pose proof (at_Some "sma_long" _ _ _ Hl) as Hl'.
  case_bool_decide as H1.
  - read_averages.
    destruct (fgtb s l).
    + erewrite loc_set_ok by solve_col.
      by rewrite setitem_setitem, confirmed_upto_S, Hv.
    + by rewrite confirmed_upto_S_zero.
  - case_bool_decide as H2.
    + read_averages.
      destruct (fltb s l).
      * erewrite loc_set_ok by solve_col.
        by rewrite setitem_setitem, confirmed_upto_S, Hv.
      * by rewrite confirmed_upto_S_zero.
    + by rewrite confirmed_upto_S_zero.
Qed.

(** What [generate_signals] leaves in the frame, in confirmed mode. *)
Lemma generate_signals_frame_confirmed self (df : DataFrame) cross ss sl d close :
  cols df !! "crossover" = Some (IntCol cross) →
  cols df !! "sma_short" = Some (FloatCol ss) →
  cols df !! "sma_long" = Some (FloatCol sl) →
  cols df !! "sma_diff" = Some (FloatCol d) →
  cols df !! "close" = Some (FloatCol close) →
  length cross = nrows df → length ss = nrows df → length sl = nrows df →
  min_candles_after_cross self > 1 →
  generate_signals_frame self df
  = Ok (setitem "signal_strength" (FloatCol (signal_strength_of d close))
         (setitem "signal"
            (IntCol (confirmed_value (Z.to_nat (min_candles_after_cross self))
                       cross ss sl <$> seq 0 (nrows df))) df)).
Proof.
  intros Hcross Hss Hsl Hd Hclose Lc Ls Ll Hk.
  unfold generate_signals_frame.
  rewrite bool_decide_eq_true_2 by done.
  rewrite nrows_setitem.
  rewrite <- (confirmed_upto_0 (Z.to_nat (min_candles_after_cross self))
                (nrows df) cross ss sl).
  rewrite (for_range_seq _
    (λ m, setitem "signal"
            (IntCol (confirmed_upto (Z.to_nat (min_candles_after_cross self))
                       m (nrows df) cross ss sl)) df)).
  - bind_ok. simpl. rewrite confirmed_upto_all.
    read_float. read_float. done.
  - intros m Hm. apply confirm_step_ok; try done; lia.
Qed.

(** In immediate mode the crossover column is copied. *)
Lemma generate_signals_frame_immediate self (df : DataFrame) c d close :
  cols df !! "crossover" = Some c →
  cols df !! "sma_diff" = Some (FloatCol d) →
  cols df !! "close" = Some (FloatCol close) →
  min_candles_after_cross self ≤ 1 →
  generate_signals_frame self df
  = Ok (setitem "signal_strength" (FloatCol (signal_strength_of d close))
         (setitem "signal" c df)).
Proof.
  intros Hcross Hd Hclose Hk. unfold generate_signals_frame.
  rewrite bool_decide_eq_false_2 by lia.
  erewrite getitem_Some by solve_col. binds_ok.
  rewrite setitem_setitem. read_float. read_float. done.
Qed.

Lemma confirmed_value_nonzero k cross ss sl j v :
  confirmed_value k cross ss sl j = v → v ≠ 0 →
  (k ≤ j)%nat ∧ cross !! (j - k)%nat = Some v ∧ (v = 1 ∨ v = -1).
Proof.
  unfold confirmed_value. intros Hv Hne.
  case_bool_decide as Hk; [|congruence].
  destruct (cross !! (j - k)%nat) as [c|]; [|congruence].
  destruct (ss !! j) as [s|]; [|congruence].
  destruct (sl !! j) as [l|]; [|congruence].
  repeat case_bool_decide; subst;
    try destruct (fgtb s l); try destruct (fltb s l); auto; done.
Qed.

(** C3: with [min_candles_after_cross = 1] the signal column is the
    crossover column, index by index; with a lag [k > 1] a crossover
    at [i] puts a signal of its direction at [i + k] exactly when
    [i + k] is in range and the short average is still strictly above
    (golden) or below (death) the long one there, a non-zero signal
    only ever comes from such a crossover, and the pass writes no
    column but [signal] and [signal_strength]. *)
Theorem generate_signals_confirmation (self : Strategy) (df : DataFrame)
    (cross : list Z) (ss sl d close : series) :
  cols df !! "crossover" = Some (IntCol cross) →
  cols df !! "sma_short" = Some (FloatCol ss) →
  cols df !! "sma_long" = Some (FloatCol sl) →
  cols df !! "sma_diff" = Some (FloatCol d) →
  cols df !! "close" = Some (FloatCol close) →
  length cross = nrows df → length ss = nrows df → length sl = nrows df →
  ∃ df' sig,
    generate_signals_frame self df = Ok df' ∧
    cols df' !! "signal" = Some (IntCol sig) ∧
    length sig = nrows df ∧
    (∀ key, key ≠ "signal" → key ≠ "signal_strength" →
            cols df' !! key = cols df !! key) ∧
    (min_candles_after_cross self = 1 → sig = cross) ∧
    (min_candles_after_cross self > 1 →
     let k := Z.to_nat (min_candles_after_cross self) in
     (∀ i, cross !! i = Some 1 →
        (sig !! (i + k)%nat = Some 1 ↔
         (i + k < nrows df)%nat ∧
         ∃ s l, ss !! (i + k)%nat = Some s ∧ sl !! (i + k)%nat = Some l ∧
                fgtb s l = true)) ∧
     (∀ i, cross !! i = Some (-1) →
        (sig !! (i + k)%nat = Some (-1) ↔
         (i + k < nrows df)%nat ∧
         ∃ s l, ss !! (i + k)%nat = Some s ∧ sl !! (i + k)%nat = Some l ∧
                fltb s l = true)) ∧
     (∀ j v, sig !! j = Some v → v ≠ 0 →
        (k ≤ j)%nat ∧ cross !! (j - k)%nat = Some v ∧ (v = 1 ∨ v = -1))).
Proof.
  intros Hcross Hss Hsl Hd Hclose Lc Ls Ll.
  destruct (decide (min_candles_after_cross self > 1)) as [Hk|Hk].
  - set (k := Z.to_nat (min_candles_after_cross self)).
    set (sig := confirmed_value k cross ss sl <$> seq 0 (nrows df)).
    assert (Hsig : ∀ j, (j < nrows df)%nat →
              sig !! j = Some (confirmed_value k cross ss sl j)).
    { intros j Hj. unfold sig. by rewrite list_lookup_fmap, lookup_seq_lt. }
    assert (Hlen : length sig = nrows df).
    { unfold sig. by rewrite length_fmap, length_seq. }
    eexists _, sig. split_and!.
    + by eapply generate_signals_frame_confirmed.
    + solve_col.
    + done.
    + intros key H1 H2. by rewrite !cols_setitem_ne.
    + lia.
    + intros _. fold k. split_and!.
      * intros i Hi. split.
        -- intros Hv. assert (Hlt : (i + k < nrows df)%nat).
           { rewrite <- Hlen. by eapply lookup_lt_Some. }
           split; [done|].
           destruct (lookup_lt_is_Some_2 ss (i + k)) as [s Hs]; [lia|].
           destruct (lookup_lt_is_Some_2 sl (i + k)) as [l Hl]; [lia|].
           exists s, l. split_and!; try done.
           rewrite Hsig in Hv by done.
           rewrite (confirmed_value_shift k cross ss sl i 1 s l Hi Hs Hl) in Hv.
           simpl in Hv. by destruct (fgtb s l).
        -- intros (Hlt & s & l & Hs & Hl & Hgt). rewrite Hsig by done.
           rewrite (confirmed_value_shift k cross ss sl i 1 s l Hi Hs Hl).
           simpl. by rewrite Hgt.
      * intros i Hi. split.
        -- intros Hv. assert (Hlt : (i + k < nrows df)%nat).
           { rewrite <- Hlen. by eapply lookup_lt_Some. }
           split; [done|].
           destruct (lookup_lt_is_Some_2 ss (i + k)) as [s Hs]; [lia|].
           destruct (lookup_lt_is_Some_2 sl (i + k)) as [l Hl]; [lia|].
           exists s, l. split_and!; try done.
           rewrite Hsig in Hv by done.
           rewrite (confirmed_value_shift k cross ss sl i (-1) s l Hi Hs Hl) in Hv.
           simpl in Hv. by destruct (fltb s l).
        -- intros (Hlt & s & l & Hs & Hl & Hgt). rewrite Hsig by done.
           rewrite (confirmed_value_shift k cross ss sl i (-1) s l Hi Hs Hl).
           simpl. by rewrite Hgt.
      * intros j v Hv Hne.
        assert (Hlt : (j < nrows df)%nat).
        { rewrite <- Hlen. by eapply lookup_lt_Some. }
        rewrite Hsig in Hv by done. injection Hv as Hv.
        by eapply confirmed_value_nonzero.
  - eexists _, cross. split_and!.
    + eapply generate_signals_frame_immediate; try done; lia.
    + solve_col.
    + done.
    + intros key H1 H2. by rewrite !cols_setitem_ne.
    + done.
    + intros H. lia.
Qed.

Lemma generate_signals_confirmation_witness :
  ∃ df' sig,
    generate_signals_frame quick_strategy crossing_indicators = Ok df' ∧
    cols df' !! "signal" = Some (IntCol sig) ∧
    length sig = 6%nat ∧
    (∀ key, key ≠ "signal" → key ≠ "signal_strength" →
            cols df' !! key = cols crossing_indicators !! key) ∧
    (2 = 1 → sig = [0; 0; 0; 1; 0; 0]) ∧
    (2 > 1 →
     (∀ i, [0; 0; 0; 1; 0; 0] !! i = Some 1 →
        (sig !! (i + 2)%nat = Some 1 ↔
         (i + 2 < 6)%nat ∧
         ∃ s l, rolling_sma 1 crossing_close !! (i + 2)%nat = Some s ∧
                rolling_sma 2 crossing_close !! (i + 2)%nat = Some l ∧
                fgtb s l = true)) ∧
     (∀ i, [0; 0; 0; 1; 0; 0] !! i = Some (-1) →
        (sig !! (i + 2)%nat = Some (-1) ↔
         (i + 2 < 6)%nat ∧
         ∃ s l, rolling_sma 1 crossing_close !! (i + 2)%nat = Some s ∧
                rolling_sma 2 crossing_close !! (i + 2)%nat = Some l ∧
                fltb s l = true)) ∧
     (∀ j v, sig !! j = Some v → v ≠ 0 →
        (2 ≤ j)%nat ∧ [0; 0; 0; 1; 0; 0] !! (j - 2)%nat = Some v ∧
        (v = 1 ∨ v = -1))).
Proof.
  apply (generate_signals_confirmation quick_strategy crossing_indicators
           [0; 0; 0; 1; 0; 0]
           (rolling_sma 1 crossing_close) (rolling_sma 2 crossing_close)
           (series_sub (rolling_sma 1 crossing_close)
                       (rolling_sma 2 crossing_close))
           crossing_close);
    reflexivity.
Defined.

End signals.

(** ** StrategyEngine: [run] *)

Section run.
Import BaseStrategy SMACrossoverStrategy Spec Examples.

Lemma generate_signals_frame_ok self (df : DataFrame) close :
  cols df !! "close" = Some (FloatCol close) →
  length close = nrows df →
  generate_signals_frame self (with_indicators self close df)
  = Ok (with_signals self close df).
Proof.
  intros Hc Hlen.
  set (ss := rolling_sma (short_period self) close).
  set (sl := rolling_sma (long_period self) close).
  set (d := series_sub ss sl).
  assert (Hd : length d = nrows df).
  { unfold d, series_sub. rewrite length_series_zip.
    unfold ss, sl. rewrite !length_rolling_sma. lia. }
  unfold with_signals, signal_of. fold ss sl d.
  case_bool_decide as Hk.
  - erewrite (generate_signals_frame_confirmed self _
                (crossover_of d (nrows df)) ss sl d close); try done;
      try (unfold with_indicators; fold ss sl d; solve_col).
    + by apply length_crossover_of.
    + unfold ss. rewrite length_rolling_sma. done.
    + unfold sl. rewrite length_rolling_sma. done.
  - erewrite (generate_signals_frame_immediate self _
                (IntCol (crossover_of d (nrows df))) d close); try done;
      try (unfold with_indicators; fold ss sl d; solve_col); lia.
Qed.

(** Both passes write the same six columns whatever the frame held
    in them before. *)
Lemma with_signals_idem self close (df : DataFrame) :
  with_signals self close (with_signals self close df)
  = with_signals self close df.
Proof.
  unfold with_signals, with_indicators, setitem. simpl. f_equal.
  apply map_eq. intros key.
  destruct (decide (key = "signal_strength")) as [->|?]; [by simplify_map_eq|].
  destruct (decide (key = "signal")) as [->|?]; [by simplify_map_eq|].
  destruct (decide (key = "crossover")) as [->|?]; [by simplify_map_eq|].
  destruct (decide (key = "sma_diff")) as [->|?]; [by simplify_map_eq|].
  destruct (decide (key = "sma_long")) as [->|?]; [by simplify_map_eq|].
  destruct (decide (key = "sma_short")) as [->|?]; [by simplify_map_eq|].
  by rewrite !lookup_insert_ne by done.
Qed.

Lemma set_data_same self l : data self = Some l → set_data (Some l) self = self.
Proof. destruct self. simpl. by intros ->. Qed.

Lemma update_data_ok f (σ : store) self l (df df' : DataFrame) :
  data self = Some l → σ !! l = Some df → f df = Ok df' →
  update_data f (σ, self) = Ok (<[l := df']> σ, l).
Proof.
  intros Hd Hl Hf. unfold update_data, deref. rewrite Hd, Hl. bind_ok.
  rewrite Hf. by bind_ok.
Qed.

(** One run, on loaded data with non-negative periods. *)
Lemma run_ok (σ : store) self l (df : DataFrame) close :
  data self = Some l → σ !! l = Some df →
  cols df !! "close" = Some (FloatCol close) →
  length close = nrows df →
  0 ≤ short_period self → 0 ≤ long_period self →
  run (σ, self)
  = Ok (<[l := with_signals self close df]> σ, set_signals (Some l) self).
Proof.
  intros Hd Hl Hc Hlen Hs Hlong. unfold run. rewrite Hd.
  change (BaseStrategy.calculate_indicators (σ, self))
    with (update_data (calculate_indicators_frame self) (σ, self)).
  rewrite (update_data_ok _ σ self l df (with_indicators self close df) Hd Hl)
    by by apply calculate_indicators_frame_ok.
  rewrite bind_Ok. cbv beta iota. rewrite (set_data_same _ _ Hd).
  change (BaseStrategy.generate_signals
            (<[l := with_indicators self close df]> σ, self))
    with (update_data (generate_signals_frame self)
            (<[l := with_indicators self close df]> σ, self)).
  rewrite (update_data_ok _ _ self l (with_indicators self close df)
             (with_signals self close df) Hd);
    [| apply lookup_insert_eq | by apply generate_signals_frame_ok].
  rewrite bind_Ok. cbv beta iota. by rewrite insert_insert_eq.
Qed.

Lemma run_times_fixed (w : store * Strategy) :
  run w = Ok w → ∀ n, run_times n w = Ok w.
Proof.
  intros Hw n. induction n as [|n IH]; [done|].
  change (run_times (S n) w) with (run w ≫= run_times n).
  rewrite Hw. by bind_ok.
Qed.

(** C9: on loaded data with a fixed configuration, [run()] yields a
    frame that is a function of the candles and the configuration
    alone, and running again, any number of times, yields the very
    same state and so the same [sma_short], [sma_long], [crossover],
    [signal] and [signal_strength] at every index. *)
Theorem run_deterministic_idempotent (σ : store) (self : Strategy) (l : loc)
    (df : DataFrame) (close : series) :
  data self = Some l →
  σ !! l = Some df →
  cols df !! "close" = Some (FloatCol close) →
  length close = nrows df →
  0 ≤ short_period self →
  0 ≤ long_period self →
  ∃ w,
    run (σ, self) = Ok w ∧
    deref w.1 (signals w.2) = Ok (with_signals self close df) ∧
    run w = Ok w ∧
    ∀ n, run_times (S n) (σ, self) = Ok w.
Proof.
  intros Hd Hl Hc Hlen Hs Hlong.
  set (out := with_signals self close df).
  set (w := (<[l := out]> σ, set_signals (Some l) self)).
  assert (Hrun : run (σ, self) = Ok w) by by apply run_ok.
  assert (Hagain : run w = Ok w).
  { unfold w.
    rewrite (run_ok _ (set_signals (Some l) self) l out close);
      try done.
    - change (with_signals (set_signals (Some l) self) close out)
        with (with_signals self close out).
      unfold out. rewrite with_signals_idem, insert_insert_eq.
      by destruct self.
    - apply lookup_insert_eq.
    - unfold out, with_signals, with_indicators. solve_col. }
  exists w. split_and!; try done.
  - unfold w, deref. simpl. by rewrite lookup_insert_eq.
  - intros n.
    change (run_times (S n) (σ, self)) with (run (σ, self) ≫= run_times n).
    rewrite Hrun. bind_ok. by apply run_times_fixed.
Qed.

Lemma run_deterministic_idempotent_witness :
  ∃ w,
    run crossing_world = Ok w ∧
    deref w.1 (signals w.2)
      = Ok (with_signals crossing_world.2 crossing_close crossing_frame) ∧
    run w = Ok w ∧
    ∀ n, run_times (S n) crossing_world = Ok w.
Proof.
  apply (run_deterministic_idempotent _ _ 1%positive crossing_frame
           crossing_close);
    [reflexivity | reflexivity | reflexivity | reflexivity
    | simpl; lia | simpl; lia].
Defined.

End run.

(** ** StrategyEngine: [load_data] *)

Section load_data.
Import BaseStrategy SMACrossoverStrategy Spec Examples.

#[local] Instance time_le_total : Total time_le.
Proof. intros a b. unfold time_le. lia. Qed.

(** Every pair of [zip ts (seq 0 n)] is a timestamp with its position. *)
Lemma zip_seq_positions (ts : list Z) :
  Forall (λ p : Z * nat, ts !! p.2 = Some p.1) (zip ts (seq 0 (length ts))).
Proof.
  apply Forall_lookup. intros i [t j] H.
  apply lookup_zip_with_Some in H as (t' & j' & [= -> ->] & Ht & Hj).
  apply lookup_seq in Hj as [-> _]. done.
Qed.

Lemma take_rows_positions (ts : list Z) (ps : list (Z * nat)) :
  Forall (λ p : Z * nat, ts !! p.2 = Some p.1) ps →
  take_rows ps.*2 ts = ps.*1.
Proof.
  unfold take_rows. induction 1 as [|p ps Hp _ IH]; [done|].
  csimpl. rewrite Hp. csimpl. by rewrite IH.
Qed.

Lemma take_rows_argsort (ts : list Z) :
  take_rows (argsort ts) ts
  = (merge_sort time_le (zip ts (seq 0 (length ts)))).*1.
Proof.
  unfold argsort. apply take_rows_positions.
  rewrite merge_sort_Permutation. apply zip_seq_positions.
Qed.

(** Sorting orders the timestamps and keeps them all. *)
Lemma take_rows_argsort_ascending (ts : list Z) :
  ascending (take_rows (argsort ts) ts).
Proof.
  rewrite take_rows_argsort. unfold ascending.
  apply (Sorted_fmap fst time_le Z.le); [done|].
  apply Sorted_merge_sort. apply _.
Qed.

Lemma take_rows_argsort_Permutation (ts : list Z) :
  take_rows (argsort ts) ts ≡ₚ ts.
Proof.
  rewrite take_rows_argsort, merge_sort_Permutation.
  rewrite fst_zip; [done|]. by rewrite length_seq.
Qed.

Lemma argsort_Permutation (ts : list Z) : argsort ts ≡ₚ seq 0 (length ts).
Proof.
  unfold argsort. rewrite merge_sort_Permutation.
  rewrite snd_zip; [done|]. by rewrite length_seq.
Qed.

Lemma setitem_id k c (df : DataFrame) :
  cols df !! k = Some c → setitem k c df = df.
Proof. intros H. destruct df. unfold setitem. simpl in *. by rewrite insert_id. Qed.

Lemma required_columns_check (df : DataFrame) :
  forallb (λ col, bool_decide (col ∈ columns df)) required_columns = true
  ↔ has_required_columns df.
Proof.
  rewrite forallb_forall. unfold has_required_columns.
  rewrite Forall_forall. split; intros H col Hc.
  - apply list_elem_of_In, H in Hc. by apply bool_decide_eq_true in Hc.
  - apply bool_decide_eq_true, H. by apply list_elem_of_In.
Qed.

Lemma sort_values_time (df : DataFrame) ts :
  cols df !! "time" = Some (TimeCol ts) →
  sort_values "time" df = Ok (frame_take (argsort ts) df).
Proof. intros H. unfold sort_values. by rewrite (time_col_Some _ _ _ H). Qed.

Lemma cols_frame_take idx (df : DataFrame) k c :
  cols df !! k = Some c →
  cols (frame_take idx df) !! k = Some (column_take idx c).
Proof. intros H. unfold frame_take. simpl. by rewrite lookup_fmap, H. Qed.

Lemma set_data_set_data l l' self :
  set_data l (set_data l' self) = set_data l self.
Proof. done. Qed.

(** A successful load: the frame is copied to a fresh location, its
    time column parsed, and a sorted frame stored at a second fresh
    location, which becomes [self.data]. *)
Lemma load_data_ok to_datetime (σ : store) self l (df : DataFrame) tc ts :
  σ !! l = Some df →
  has_required_columns df →
  cols df !! "time" = Some tc →
  parsed_time to_datetime tc = Ok ts →
  let df1 := setitem "time" (TimeCol ts) df in
  let σ1 := <[fresh (dom σ) := df1]> σ in
  load_data to_datetime (σ, self) l
  = Ok (<[fresh (dom σ1) := frame_take (argsort ts) df1]> σ1,
        set_data (Some (fresh (dom σ1))) self).
Proof.
  intros Hl Hreq Htc Hparse df1 σ1.
  unfold load_data, deref. rewrite Hl. bind_ok.
  rewrite (proj2 (required_columns_check df) Hreq).
  rewrite (getitem_Some _ _ _ Htc). bind_ok.
  assert (Hσ : match tc with
               | TimeCol _ => Ok (<[fresh (dom σ) := df]> σ)
               | _ => to_datetime tc ≫= λ ts,
                        Ok (<[fresh (dom σ) := setitem "time" (TimeCol ts) df]>
                              (<[fresh (dom σ) := df]> σ))
               end = Ok σ1).
  { unfold σ1, df1. destruct tc as [x|x|x]; simpl in Hparse.
    - rewrite Hparse. bind_ok. by rewrite insert_insert_eq.
    - rewrite Hparse. bind_ok. by rewrite insert_insert_eq.
    - injection Hparse as ->. by rewrite (setitem_id _ _ _ Htc). }
  rewrite Hσ. bind_ok. simpl data. cbv iota.
  replace (σ1 !! fresh (dom σ)) with (Some df1)
    by (unfold σ1; by rewrite lookup_insert_eq).
  bind_ok.
  rewrite (sort_values_time df1 ts) by apply cols_setitem_eq.
  by bind_ok.
Qed.

Lemma load_data_missing to_datetime (σ : store) self l (df : DataFrame) :
  σ !! l = Some df →
  ¬ has_required_columns df →
  load_data to_datetime (σ, self) l
  = Raise (ValueError "Data missing required columns").
Proof.
  intros Hl Hreq. unfold load_data, deref. rewrite Hl. bind_ok.
  destruct (forallb _ _) eqn:E; [|done].
  by apply required_columns_check in E.
Qed.

Lemma load_data_unparsed to_datetime (σ : store) self l (df : DataFrame) tc e :
  σ !! l = Some df →
  has_required_columns df →
  cols df !! "time" = Some tc →
  parsed_time to_datetime tc = Raise e →
  load_data to_datetime (σ, self) l = Raise e.
Proof.
  intros Hl Hreq Htc Hparse. unfold load_data, deref. rewrite Hl. bind_ok.
  rewrite (proj2 (required_columns_check df) Hreq).
  rewrite (getitem_Some _ _ _ Htc). bind_ok.
  destruct tc; simpl in Hparse; try done; by rewrite Hparse.
Qed.

(** C8, as stated, fails: candles whose timestamps are out of order
    are accepted, not rejected. *)
Lemma load_data_accepts_unsorted :
  caller_store !! 1%positive = Some unsorted_frame ∧
  cols unsorted_frame !! "time" = Some (TimeCol [3; 1; 2]) ∧
  ¬ ascending [3; 1; 2] ∧
  succeeds (load_data no_parser (caller_store, fresh_strategy) 1%positive).
Proof.
  split; [reflexivity|]. split; [reflexivity|]. split.
  - intros H. inversion H as [|? ? _ Hhd]. inversion Hhd. lia.
  - by vm_compute.
Qed.

(** C8 (amended): [load_data] raises when a required field is missing
    and when the time column cannot be parsed; otherwise it succeeds,
    sorted input or not, and the strategy then holds, at a location
    that did not exist before, a copy of the candles in ascending
    timestamp order; the copy leaves every existing frame as it was
    and is not affected by later changes to the caller's frame. *)
Theorem load_data_validates_copies_sorts
    (to_datetime : column → result (list Z))
    (σ : store) (self : Strategy) (l : loc) (df : DataFrame) :
  σ !! l = Some df →
  (¬ has_required_columns df →
   load_data to_datetime (σ, self) l
   = Raise (ValueError "Data missing required columns")) ∧
  (∀ tc e, has_required_columns df → cols df !! "time" = Some tc →
           parsed_time to_datetime tc = Raise e →
           load_data to_datetime (σ, self) l = Raise e) ∧
  (∀ tc ts, has_required_columns df → cols df !! "time" = Some tc →
            parsed_time to_datetime tc = Ok ts →
     ∃ σ' l' sorted ts',
       load_data to_datetime (σ, self) l = Ok (σ', set_data (Some l') self) ∧
       (l' ∉ dom σ) ∧
       σ' !! l' = Some sorted ∧
       sorted = frame_take (argsort ts) (setitem "time" (TimeCol ts) df) ∧
       argsort ts ≡ₚ seq 0 (length ts) ∧
       cols sorted !! "time" = Some (TimeCol ts') ∧
       ascending ts' ∧
       ts' ≡ₚ ts ∧
       (∀ l0 df0, σ !! l0 = Some df0 → σ' !! l0 = Some df0) ∧
       (∀ df2, deref (<[l := df2]> σ') (Some l') = Ok sorted)).
Proof.
  intros Hl. split_and!.
  - intros Hreq. by apply (load_data_missing _ _ _ _ df).
  - intros tc e Hreq Htc Hparse. by apply (load_data_unparsed _ _ _ _ df tc).
  - intros tc ts Hreq Htc Hparse.
    set (df1 := setitem "time" (TimeCol ts) df).
    set (l1 := fresh (dom σ)).
    set (σ1 := <[l1 := df1]> σ).
    set (l2 := fresh (dom σ1)).
    assert (H1 : l1 ∉ dom σ) by apply is_fresh.
    assert (H2 : l2 ∉ dom σ1) by apply is_fresh.
    assert (H2' : l2 ≠ l1 ∧ l2 ∉ dom σ).
    { unfold σ1 in H2. rewrite dom_insert_L in H2. set_solver. }
    destruct H2' as [Hne H2'].
    assert (Hold : ∀ l0 df0, σ !! l0 = Some df0 → l0 ≠ l1 ∧ l0 ≠ l2).
    { intros l0 df0 H0. apply (elem_of_dom_2 (D := gset loc)) in H0.
      split; intros ->; done. }
    exists (<[l2 := frame_take (argsort ts) df1]> σ1), l2,
      (frame_take (argsort ts) df1), (take_rows (argsort ts) ts).
    split_and!.
    + apply (load_data_ok to_datetime σ self l df tc ts Hl Hreq Htc Hparse).
    + done.
    + apply lookup_insert_eq.
    + done.
    + apply argsort_Permutation.
    + by rewrite (cols_frame_take _ df1 "time" (TimeCol ts))
        by apply cols_setitem_eq.
    + apply take_rows_argsort_ascending.
    + apply take_rows_argsort_Permutation.
    + intros l0 df0 H0. destruct (Hold l0 df0 H0) as [Hn1 Hn2].
      unfold σ1. by rewrite !lookup_insert_ne.
    + intros df2. destruct (Hold l df Hl) as [Hn1 Hn2].
      unfold deref. rewrite lookup_insert_ne by done.
      by rewrite lookup_insert_eq.
Qed.

Lemma load_data_validates_copies_sorts_witness :
  ∃ σ' l' sorted ts',
    load_data no_parser (caller_store, fresh_strategy) 1%positive
      = Ok (σ', set_data (Some l') fresh_strategy) ∧
    (l' ∉ dom caller_store) ∧
    σ' !! l' = Some sorted ∧
    sorted = frame_take (argsort [3; 1; 2])
               (setitem "time" (TimeCol [3; 1; 2]) unsorted_frame) ∧
    argsort [3; 1; 2] ≡ₚ seq 0 (length [3; 1; 2]) ∧
    cols sorted !! "time" = Some (TimeCol ts') ∧
    ascending ts' ∧
    ts' ≡ₚ [3; 1; 2] ∧
    (∀ l0 df0, caller_store !! l0 = Some df0 → σ' !! l0 = Some df0) ∧
    (∀ df2, deref (<[1%positive := df2]> σ') (Some l') = Ok sorted).
Proof.
  refine (proj2 (proj2 (load_data_validates_copies_sorts no_parser
            caller_store fresh_strategy 1%positive unsorted_frame _))
            (TimeCol [3; 1; 2]) [3; 1; 2] _ _ _);
    [reflexivity | compute_done | reflexivity | reflexivity].
Defined.

End load_data.

(** ** IndicatorLibrary: [TechnicalIndicators] *)

Section indicators.
Import TechnicalIndicators Spec Examples.

Lemma is_finite_notna x : is_finite x → notna x = true.
Proof. by destruct x. Qed.

Lemma all_finite_fmap_Fin (xs : list Q) : all_finite (Fin <$> xs).
Proof. unfold all_finite. rewrite Forall_fmap. by apply Forall_true. Qed.

Lemma valid_finite (s : series) : all_finite s → valid s = s.
Proof.
  intros H. apply valid_all. eapply Forall_impl; [exact H|].
  apply is_finite_notna.
Qed.

Lemma Qsign_of_nat_pos n : (0 < n)%nat → Qsign (inject_Z (Z.of_nat n)) = Gt.
Proof.
  intros H. apply Qsign_gt. unfold Qlt. simpl. lia.
Qed.



(** *** Rolling windows over finite data *)

Lemma window_at_length w (s : series) i :
  (i < length s)%nat → length (window_at w s i) = Nat.min w (S i).
Proof.
  intros H. unfold window_at. rewrite length_drop, length_take. lia.
Qed.

Lemma window_at_finite w (s : series) i :
  all_finite s → all_finite (window_at w s i).
Proof.
  intros H. unfold window_at, all_finite. by apply Forall_drop, Forall_take.
Qed.

Lemma rolling_apply_lookup agg ddof w minp (s : series) i :
  all_finite s → (i < length s)%nat →
  rolling_apply agg ddof w minp s !! i
  = Some (if bool_decide (minp ≤ Nat.min w (S i) ∧ ddof < Nat.min w (S i))%nat
          then agg (window_at w s i) else NaN).
Proof.
  intros Hs Hi. unfold rolling_apply.
  rewrite list_lookup_fmap, lookup_seq_lt by done. simpl.
  rewrite (valid_finite _ (window_at_finite w s i Hs)).
  by rewrite window_at_length.
Qed.



Lemma rolling_mean_ok (period : Z) (s : series) :
  0 ≤ period →
  rolling_mean period (Some period) s
  = Ok (rolling_apply mean_of 0 (Z.to_nat period) (Z.to_nat period) s).
Proof. intros H. by apply sma_ok. Qed.


(** *** Exponential smoothing over finite data *)


Lemma ewm_first_inv x : is_finite x → ewm_inv 1 (ewm_first x).
Proof. by destruct x. Qed.

Lemma ewm_step_inv a n st cur :
  ewm_inv n st → is_finite cur → ewm_inv (S n) (ewm_step (Fin a) st cur).
Proof.
  intros (Hw & Ho & Hn) Hc. destruct st as [w o k]. simpl in *. subst o k.
  destruct w as [w| | |], cur as [c| | |]; try done.
  unfold ewm_step, ewm_inv. simpl.
  destruct (fneb (Fin w) (Fin c)); simpl; [|split_and!; try done; lia].
  rewrite Qsign_gt by lra. simpl. split_and!; try done; lia.
Qed.





(** *** Element-wise operations *)

Lemma series_zip_lookup f (a b : series) i x y :
  a !! i = Some x → b !! i = Some y → series_zip f a b !! i = Some (f x y).
Proof.
  intros Ha Hb. unfold series_zip.
  rewrite list_lookup_fmap, lookup_seq_lt.
  - simpl. by rewrite Ha, Hb.
  - apply lookup_lt_Some in Ha. lia.
Qed.

Lemma series_zip_Forall (P Q R : fnum → Prop) f (a b : series) :
  length a = length b → Forall P a → Forall Q b →
  (∀ x y, P x → Q y → R (f x y)) →
  Forall R (series_zip f a b).
Proof.
  intros Hlen Ha Hb Hf. apply Forall_lookup. intros i z Hz.
  assert (Hi : (i < length a)%nat).
  { apply lookup_lt_Some in Hz. rewrite length_series_zip in Hz. lia. }
  destruct (lookup_lt_is_Some_2 a i Hi) as [x Hx].
  destruct (lookup_lt_is_Some_2 b i) as [y Hy]; [lia|].
  rewrite (series_zip_lookup f a b i x y Hx Hy) in Hz. injection Hz as <-.
  apply Hf.
  - by eapply (proj1 (Forall_lookup P a)).
  - by eapply (proj1 (Forall_lookup Q b)).
Qed.






(** *** MACD over finite data: a value at every index *)


(** *** ATR over finite data *)

Lemma shift1_finite_or_nan (s : series) :
  all_finite s → Forall finite_or_nan (shift1 s).
Proof.
  intros H. unfold shift1. apply Forall_take. constructor; [by left|].
  eapply Forall_impl; [exact H|]. intros x Hx. by right.
Qed.





(** *** Bollinger bands over finite data *)

Lemma fsum_nonneg (s : series) :
  Forall (λ x, ∃ q, x = Fin q ∧ (0 <= q)%Q) s →
  ∃ q, fsum s = Fin q ∧ (0 <= q)%Q.
Proof.
  induction 1 as [|x s (q & -> & Hq) _ (r & Hr & Hr0)].
  - exists 0%Q. split; [done|]. lra.
  - change (fsum (Fin q :: s)) with (fadd (Fin q) (fsum s)).
    rewrite Hr. simpl. exists (q + r)%Q. split; [done|]. lra.
Qed.




Section bollinger_facts.
Variable sqrtQ : Q → Q.


Lemma rolling_std_ok (period : Z) (s : series) :
  0 ≤ period →
  rolling_std sqrtQ period (Some period) s
  = Ok (rolling_apply (std_of sqrtQ) 1 (Z.to_nat period) (Z.to_nat period) s).
Proof.
  intros H. unfold rolling_std, check_window. simpl.
  by rewrite !bool_decide_eq_false_2 by lia.
Qed.




End bollinger_facts.

(** *** RSI over finite data *)

Lemma diff_finite_or_nan (data : series) :
  all_finite data → Forall finite_or_nan (diff data).
Proof.
  intros Hd. unfold diff, series_sub.
  apply (series_zip_Forall is_finite finite_or_nan); try done.
  - by rewrite length_shift1.
  - by apply shift1_finite_or_nan.
  - intros x y Hx [-> | Hy]; destruct x; try done; [by left|].
    destruct y; try done. by right.
Qed.

Lemma length_diff (data : series) : length (diff data) = length data.
Proof.
  unfold diff, series_sub. rewrite length_series_zip, length_shift1. lia.
Qed.



Lemma rolling_mean_default_ok (period : Z) (s : series) :
  0 ≤ period →
  rolling_mean period None s
  = Ok (rolling_apply mean_of 0 (Z.to_nat period) (Z.to_nat period) s).
Proof.
  intros H. unfold rolling_mean, check_window. simpl.
  by rewrite !bool_decide_eq_false_2 by lia.
Qed.




(** *** The window policy, indicator by indicator *)




(** RSI is missing on a window without any price change, also after
    the window has filled. *)
Lemma rsi_flat_undefined :
  rsi [Fin 1; Fin 1; Fin 1; Fin 1] 2 = Ok [NaN; NaN; NaN; NaN].
Proof. reflexivity. Qed.



End indicators.

(** * Further properties of the engine *)

(** ** Moving averages and the warm-up of the detector *)

Section warm_up.
Import BaseStrategy SMACrossoverStrategy TechnicalIndicators Spec Examples.

(** Before a window holds [minp] values there is no value, whatever
    the data. *)
Lemma rolling_apply_warm_up agg ddof w minp (s : series) i x :
  rolling_apply agg ddof w minp s !! i = Some x → (S i < minp)%nat → x = NaN.
Proof.
  intros Hx Hi. unfold rolling_apply in Hx.
  rewrite list_lookup_fmap in Hx.
  destruct (seq 0 (length s) !! i) as [j|] eqn:Hj; [|done].
  apply lookup_seq in Hj as [-> _]. simpl in Hx. injection Hx as <-.
  rewrite bool_decide_eq_false_2; [done|].
  intros [Hc _].
  pose proof (filter_length_le notna (window_at w s i)) as Hf.
  unfold valid in Hc. unfold window_at in Hf, Hc.
  rewrite length_drop, length_take in Hf. lia.
Qed.

Lemma fsub_nan_r x : fsub x NaN = NaN.
Proof. by destruct x. Qed.

Lemma cross_value_nan_l y : cross_value NaN y = 0.
Proof. done. Qed.

(** The difference of the averages is missing below [long - 1]. *)
Lemma sma_diff_warm_up (close : series) (short long : Z) i x :
  series_sub (rolling_sma short close) (rolling_sma long close) !! i = Some x →
  Z.of_nat i < long - 1 → x = NaN.
Proof.
  intros Hx Hi.
  assert (Hlt : (i < length close)%nat).
  { apply lookup_lt_Some in Hx. unfold series_sub in Hx.
    rewrite length_series_zip, !length_rolling_sma in Hx. lia. }
  destruct (lookup_lt_is_Some_2 (rolling_sma short close) i) as [a Ha];
    [by rewrite length_rolling_sma|].
  destruct (lookup_lt_is_Some_2 (rolling_sma long close) i) as [b Hb];
    [by rewrite length_rolling_sma|].
  unfold series_sub in Hx.
  rewrite (series_zip_lookup fsub _ _ i a b Ha Hb) in Hx. injection Hx as <-.
  unfold rolling_sma in Hb.
  rewrite (rolling_apply_warm_up _ _ _ _ _ _ _ Hb) by lia.
  apply fsub_nan_r.
Qed.

(** No crossover is marked at an index below [long]. *)
Lemma crossover_of_warm_up (close : series) (short long : Z) n i :
  length close = n → (i < n)%nat → Z.of_nat i < long →
  crossover_of (series_sub (rolling_sma short close) (rolling_sma long close)) n
    !! i = Some 0.
Proof.
  intros Hn Hi Hl.
  set (d := series_sub (rolling_sma short close) (rolling_sma long close)).
  assert (Hd : length d = n).
  { unfold d, series_sub. rewrite length_series_zip, !length_rolling_sma. lia. }
  destruct (lookup_lt_is_Some_2 d i) as [x Hx]; [lia|].
  destruct (lookup_lt_is_Some_2 (shift1 d) i) as [y Hy];
    [rewrite length_shift1; lia|].
  rewrite (crossover_of_lookup d n i x y Hd Hx Hy). f_equal.
  destruct (shift1_lookup d i y Hy) as [[-> ->] | (j & -> & Hj)].
  - apply cross_value_nan_r.
  - rewrite (sma_diff_warm_up close short long j y Hj) by lia.
    apply cross_value_nan_r.
Qed.

End warm_up.

(** ** The two passes of [run] on a frame *)

Section two_passes.
Import BaseStrategy SMACrossoverStrategy TechnicalIndicators Spec Examples.

Lemma length_sma_diff (close : series) (short long : Z) :
  length (series_sub (rolling_sma short close) (rolling_sma long close))
  = length close.
Proof.
  unfold series_sub. rewrite length_series_zip, !length_rolling_sma. lia.
Qed.

Lemma with_signals_crossover self close (df : DataFrame) :
  cols (with_signals self close df) !! "crossover"
  = Some (IntCol (crossover_of
       (series_sub (rolling_sma (short_period self) close)
                   (rolling_sma (long_period self) close)) (nrows df))).
Proof. unfold with_signals, with_indicators. solve_col. Qed.

Lemma with_signals_signal self close (df : DataFrame) :
  cols (with_signals self close df) !! "signal"
  = Some (IntCol (signal_of self
       (crossover_of
          (series_sub (rolling_sma (short_period self) close)
                      (rolling_sma (long_period self) close)) (nrows df))
       (rolling_sma (short_period self) close)
       (rolling_sma (long_period self) close) (nrows df))).
Proof. unfold with_signals, with_indicators. solve_col. Qed.


Lemma length_signal_of self cross ss sl n :
  length cross = n → length (signal_of self cross ss sl n) = n.
Proof.
  intros H. unfold signal_of. case_bool_decide; [|done].
  by rewrite length_fmap, length_seq.
Qed.

Lemma signal_of_lookup self cross ss sl n i v :
  length cross = n → signal_of self cross ss sl n !! i = Some v →
  (i < n)%nat ∧
  ((min_candles_after_cross self ≤ 1 ∧ cross !! i = Some v) ∨
   (min_candles_after_cross self > 1 ∧
    v = confirmed_value (Z.to_nat (min_candles_after_cross self))
          cross ss sl i)).
Proof.
  intros Hn Hv.
  assert (Hi : (i < n)%nat).
  { apply lookup_lt_Some in Hv. by rewrite length_signal_of in Hv. }
  split; [done|]. unfold signal_of in Hv. case_bool_decide as Hk.
  - right. split; [done|].
    rewrite list_lookup_fmap, lookup_seq_lt in Hv by done.
    by injection Hv as <-.
  - left. split; [lia | done].
Qed.

Lemma confirmed_value_cases k cross ss sl j :
  confirmed_value k cross ss sl j = 1 ∨
  confirmed_value k cross ss sl j = -1 ∨
  confirmed_value k cross ss sl j = 0.
Proof.
  destruct (decide (confirmed_value k cross ss sl j = 0)) as [|Hne]; [auto|].
  destruct (confirmed_value_nonzero k cross ss sl j _ eq_refl Hne)
    as (_ & _ & [H | H]); auto.
Qed.

(** X2: while fewer than [long_period] candles have been seen, and on
    the candle that completes the first long window, the detector
    marks no crossover and the generator emits no signal, whatever the
    prices. *)
Theorem no_signal_during_warm_up (self : Strategy) (df : DataFrame)
    (close : series) :
  cols df !! "close" = Some (FloatCol close) →
  length close = nrows df →
  0 ≤ short_period self → 0 ≤ long_period self →
  ∃ df1 df2 cross sig,
    calculate_indicators_frame self df = Ok df1 ∧
    generate_signals_frame self df1 = Ok df2 ∧
    cols df2 !! "crossover" = Some (IntCol cross) ∧
    cols df2 !! "signal" = Some (IntCol sig) ∧
    ∀ i, (i < nrows df)%nat → Z.of_nat i < long_period self →
         cross !! i = Some 0 ∧ sig !! i = Some 0.
Proof.
  intros Hc Hlen Hs Hl.
  eexists _, _, _, _. split_and!.
  - by apply calculate_indicators_frame_ok.
  - by apply generate_signals_frame_ok.
  - apply with_signals_crossover.
  - apply with_signals_signal.
  - intros i Hi Hlong.
    set (d := series_sub _ _).
    assert (Hcross : ∀ j, (j < nrows df)%nat → Z.of_nat j < long_period self →
              crossover_of d (nrows df) !! j = Some 0).
    { intros j Hj Hjl. by apply crossover_of_warm_up. }
    split; [by apply Hcross|].
    assert (Hlc : length (crossover_of d (nrows df)) = nrows df).
    { apply length_crossover_of. unfold d. by rewrite length_sma_diff. }
    destruct (lookup_lt_is_Some_2
                (signal_of self (crossover_of d (nrows df))
                   (rolling_sma (short_period self) close)
                   (rolling_sma (long_period self) close) (nrows df)) i)
      as [v Hv]; [by rewrite length_signal_of|].
    rewrite Hv. f_equal.
    destruct (signal_of_lookup _ _ _ _ _ _ _ Hlc Hv)
      as (_ & [(_ & Hv') | (_ & Hv')]).
    + rewrite Hcross in Hv' by done. congruence.
    + destruct (decide (v = 0)) as [|Hne]; [done|]. exfalso.
      symmetry in Hv'.
      destruct (confirmed_value_nonzero _ _ _ _ _ _ Hv' Hne) as (Hk & Hx & _).
      rewrite Hcross in Hx by lia. congruence.
Qed.

Lemma no_signal_during_warm_up_witness :
  ∃ df1 df2 cross sig,
    calculate_indicators_frame quick_strategy crossing_frame = Ok df1 ∧
    generate_signals_frame quick_strategy df1 = Ok df2 ∧
    cols df2 !! "crossover" = Some (IntCol cross) ∧
    cols df2 !! "signal" = Some (IntCol sig) ∧
    ∀ i, (i < 6)%nat → Z.of_nat i < 2 →
         cross !! i = Some 0 ∧ sig !! i = Some 0.
Proof.
  apply (no_signal_during_warm_up quick_strategy crossing_frame crossing_close);
    [reflexivity | reflexivity | simpl; lia | simpl; lia].
Defined.

(** X3: after the two passes every entry of the crossover column and
    of the signal column is [-1], [0] or [+1]. *)
Theorem signals_are_ternary (self : Strategy) (df : DataFrame)
    (close : series) :
  cols df !! "close" = Some (FloatCol close) →
  length close = nrows df →
  0 ≤ short_period self → 0 ≤ long_period self →
  ∃ df1 df2 cross sig,
    calculate_indicators_frame self df = Ok df1 ∧
    generate_signals_frame self df1 = Ok df2 ∧
    cols df2 !! "crossover" = Some (IntCol cross) ∧
    cols df2 !! "signal" = Some (IntCol sig) ∧
    length cross = nrows df ∧ length sig = nrows df ∧
    (∀ i v, cross !! i = Some v → v = 1 ∨ v = -1 ∨ v = 0) ∧
    (∀ i v, sig !! i = Some v → v = 1 ∨ v = -1 ∨ v = 0).
Proof.
  intros Hc Hlen Hs Hl.
  set (d := series_sub (rolling_sma (short_period self) close)
                       (rolling_sma (long_period self) close)).
  assert (Hd : length d = nrows df) by (unfold d; by rewrite length_sma_diff).
  assert (Hlc : length (crossover_of d (nrows df)) = nrows df)
    by by apply length_crossover_of.
  assert (Hcross : ∀ i v, crossover_of d (nrows df) !! i = Some v →
            v = 1 ∨ v = -1 ∨ v = 0).
  { intros i v Hv.
    assert (Hi : (i < nrows df)%nat).
    { apply lookup_lt_Some in Hv. lia. }
    destruct (lookup_lt_is_Some_2 d i) as [x Hx]; [lia|].
    destruct (lookup_lt_is_Some_2 (shift1 d) i) as [y Hy];
      [rewrite length_shift1; lia|].
    rewrite (crossover_of_lookup d _ i x y Hd Hx Hy) in Hv.
    injection Hv as <-. apply cross_value_cases. }
  eexists _, _, _, _. split_and!.
  - by apply calculate_indicators_frame_ok.
  - by apply generate_signals_frame_ok.
  - apply with_signals_crossover.
  - apply with_signals_signal.
  - done.
  - by apply length_signal_of.
  - done.
  - intros i v Hv.
    destruct (signal_of_lookup _ _ _ _ _ _ _ Hlc Hv)
      as (_ & [(_ & Hv') | (_ & ->)]).
    + by eapply Hcross.
    + apply confirmed_value_cases.
Qed.

Lemma signals_are_ternary_witness :
  ∃ df1 df2 cross sig,
    calculate_indicators_frame quick_strategy crossing_frame = Ok df1 ∧
    generate_signals_frame quick_strategy df1 = Ok df2 ∧
    cols df2 !! "crossover" = Some (IntCol cross) ∧
    cols df2 !! "signal" = Some (IntCol sig) ∧
    length cross = 6%nat ∧ length sig = 6%nat ∧
    (∀ i v, cross !! i = Some v → v = 1 ∨ v = -1 ∨ v = 0) ∧
    (∀ i v, sig !! i = Some v → v = 1 ∨ v = -1 ∨ v = 0).
Proof.
  apply (signals_are_ternary quick_strategy crossing_frame crossing_close);
    [reflexivity | reflexivity | simpl; lia | simpl; lia].
Defined.

Lemma strength_value_nan c : fmul (fdiv (fabs NaN) c) (Fin 100) = NaN.
Proof. done. Qed.




End two_passes.

(** ** The trade ledger *)

Section ledger.
Import BaseStrategy SMACrossoverStrategy Spec Examples.

(** The ledger of a frame with time, close and signal columns, when no
    trade is entered at a price of zero. *)
Lemma get_entry_exit_pairs_rows (σ : store) self l (df : DataFrame)
    time close sig :
  data self = Some l → σ !! l = Some df →
  cols df !! "time" = Some (TimeCol time) →
  cols df !! "close" = Some (FloatCol close) →
  cols df !! "signal" = Some (IntCol sig) →
  length sig = nrows df →
  Forall (λ t, not_zero (entry_price t))
    (reconstruct Flat (signal_rows time close sig)) →
  get_entry_exit_pairs (σ, self)
  = Ok (reconstruct Flat (signal_rows time close sig)).
Proof.
  intros Hd Hl Ht Hc Hs Hlen.
  by apply (get_entry_exit_pairs_cases σ self l df time close sig).
Qed.

Lemma entry_prices_dec (ledger : list Trade) :
  Forall (λ t, not_zero (entry_price t)) ledger ∨ Exists zero_entry ledger.
Proof.
  induction ledger as [|t ledger [IH | IH]].
  - left. constructor.
  - unfold not_zero, zero_entry.
    destruct (feqb (entry_price t) fzero) eqn:E.
    + right. by left.
    + left. by constructor.
  - right. by right.
Qed.

(** A ledger that is returned is the ledger of the state machine. *)
Lemma get_entry_exit_pairs_Ok (σ : store) self l (df : DataFrame)
    time close sig ledger :
  data self = Some l → σ !! l = Some df →
  cols df !! "time" = Some (TimeCol time) →
  cols df !! "close" = Some (FloatCol close) →
  cols df !! "signal" = Some (IntCol sig) →
  length sig = nrows df →
  get_entry_exit_pairs (σ, self) = Ok ledger →
  ledger = reconstruct Flat (signal_rows time close sig).
Proof.
  intros Hd Hl Ht Hc Hs Hlen Hrun.
  destruct (get_entry_exit_pairs_cases σ self l df time close sig
              Hd Hl Ht Hc Hs Hlen) as [Hok Hraise].
  destruct (entry_prices_dec (reconstruct Flat (signal_rows time close sig)))
    as [Hall | Hex].
  - rewrite (Hok Hall) in Hrun. by injection Hrun.
  - rewrite (Hraise Hex) in Hrun. discriminate.
Qed.







Lemma zip_rows_signals (P : Z → Prop) sig : ∀ time close,
  Forall P sig → Forall (λ r, P (row_signal r)) (zip_rows time close sig).
Proof.
  induction sig as [|s sig IH]; intros time close Hs.
  - destruct time, close; constructor.
  - apply Forall_cons in Hs as [Hs0 Hs].
    destruct time, close; try constructor; [done|]. by apply IH.
Qed.

Lemma signal_rows_one_sided v time close sig :
  Forall (λ s, s = 0 ∨ s = v) sig →
  Forall (λ r, row_signal r = v) (signal_rows time close sig).
Proof.
  intros Hs. apply Forall_forall. intros r Hr.
  unfold signal_rows in Hr. apply list_elem_of_filter in Hr as [Hne Hr].
  pose proof (zip_rows_signals _ sig time close Hs) as Hall.
  rewrite Forall_forall in Hall. destruct (Hall r Hr); [done | done].
Qed.

Lemma reconstruct_one_sided_holding d v rows : ∀ time price,
  direction v = Some d →
  Forall (λ r, row_signal r = v) rows →
  reconstruct (Holding d time price) rows = [].
Proof.
  induction rows as [|row rows IH]; intros time price Hd Hrows; [done|].
  apply Forall_cons in Hrows as [Hr Hrows]. simpl. rewrite Hr, Hd.
  replace (same_direction d d) with true by (by destruct d).
  by apply IH.
Qed.

Lemma reconstruct_one_sided v rows :
  Forall (λ r, row_signal r = v) rows → reconstruct Flat rows = [].
Proof.
  intros Hrows. destruct rows as [|row rows]; [done|].
  apply Forall_cons in Hrows as [Hr Hrows]. simpl. rewrite Hr.
  destruct (direction v) as [d|] eqn:Hd.
  - by eapply reconstruct_one_sided_holding.
  - clear Hr. induction rows as [|r rows IH]; [done|].
    apply Forall_cons in Hrows as [Hr Hrows]. simpl. rewrite Hr, Hd.
    by apply IH.
Qed.

(** X6: when the signals never change direction (no signal at all,
    a single signal, or only buys, or only sells) no trade is ever
    completed: the ledger is empty and the performance summary is the
    "no trades" summary, not an error. *)
Theorem one_sided_signals_no_trades (σ : store) (self : Strategy) (l : loc)
    (df : DataFrame) (time : list Z) (close : series) (sig : list Z) (v : Z) :
  data self = Some l →
  σ !! l = Some df →
  cols df !! "time" = Some (TimeCol time) →
  cols df !! "close" = Some (FloatCol close) →
  cols df !! "signal" = Some (IntCol sig) →
  length sig = nrows df →
  Forall (λ s, s = 0 ∨ s = v) sig →
  get_entry_exit_pairs (σ, self) = Ok [] ∧
  get_performance_summary (σ, self)
    = Ok (NoTrades 0 "No complete trades found").
Proof.
  intros Hd Hl Ht Hc Hs Hlen Hv.
  assert (Hpairs : get_entry_exit_pairs (σ, self) = Ok []).
  { assert (Hnone : reconstruct Flat (signal_rows time close sig) = []).
    { apply (reconstruct_one_sided v). by apply signal_rows_one_sided. }
    rewrite (get_entry_exit_pairs_rows σ self l df time close sig);
      try done; by rewrite Hnone. }
  split; [done|]. unfold get_performance_summary. by rewrite Hpairs.
Qed.

Lemma one_sided_signals_no_trades_witness :
  get_entry_exit_pairs buys_only_world = Ok [] ∧
  get_performance_summary buys_only_world
    = Ok (NoTrades 0 "No complete trades found").
Proof.
  apply (one_sided_signals_no_trades _ _ 1%positive buys_only_frame
           [0; 1; 2; 3] [Fin 1; Fin 2; Fin 1; Fin 3] [1; 0; 1; 1] 1);
    try reflexivity.
  repeat (constructor; [lia|]). constructor.
Defined.

End ledger.

(** ** Consistency of the performance summary *)

Section summary_consistency.
Import BaseStrategy SMACrossoverStrategy Spec Examples.

Lemma pips_finite (ledger : list Trade) :
  finite_ledger ledger → all_finite (pips ledger).
Proof. intros H. unfold pips, all_finite. by rewrite Forall_fmap. Qed.


(** The mean of finite values, times their number, is their sum;
    the code reports [0] for an empty selection. *)
Lemma guarded_mean_times_count (s : series) q :
  all_finite s → fsum s = Fin q →
  ∃ m, (if bool_decide (0 < length s)%nat then series_mean s else fzero)
       = Fin m ∧
       (m * inject_Z (Z.of_nat (length s)) == q)%Q.
Proof.
  intros Hs Hq. destruct s as [|x s].
  - simpl. exists 0%Q. split; [done|]. simpl in Hq. injection Hq as <-. lra.
  - rewrite bool_decide_eq_true_2 by (simpl; lia).
    unfold series_mean. rewrite valid_finite by done.
    unfold mean_of. rewrite Hq. unfold of_nat, fdiv.
    rewrite Qsign_of_nat_pos by (simpl; lia).
    eexists. split; [done|].
    assert (0 < inject_Z (Z.of_nat (length (x :: s))))%Q
      by (unfold Qlt; simpl; lia).
    field. lra.
Qed.

(** Winners and losers split the total: a trade that is neither has a
    pip profit of zero. *)
Lemma fsum_win_loss_split (ledger : list Trade) :
  finite_ledger ledger →
  ∃ t w l,
    fsum (pips ledger) = Fin t ∧
    fsum (pips (List.filter is_win ledger)) = Fin w ∧
    fsum (pips (List.filter is_loss ledger)) = Fin l ∧
    (t == w + l)%Q.
Proof.
  induction 1 as [|x ledger Hx _ (t & w & l & Ht & Hw & Hl & Heq)].
  - exists 0%Q, 0%Q, 0%Q. by split_and!.
  - destruct (is_finite_Fin _ Hx) as [q Hq].
    change (fsum (pips (x :: ledger)))
      with (fadd (pips_profit x) (fsum (pips ledger))).
    rewrite Hq, Ht. simpl List.filter. unfold is_win at 1, is_loss at 1.
    rewrite Hq.
    destruct (fgtb (Fin q) fzero) eqn:G, (fltb (Fin q) fzero) eqn:L.
    + unfold fgtb in G. apply fltb_Fin in G, L. lra.
    + unfold fgtb in G. apply fltb_Fin in G.
      change (fsum (pips (x :: List.filter is_win ledger)))
        with (fadd (pips_profit x) (fsum (pips (List.filter is_win ledger)))).
      rewrite Hq, Hw, Hl. simpl.
      exists (q + t)%Q, (q + w)%Q, l. split_and!; try done. lra.
    + apply fltb_Fin in L.
      change (fsum (pips (x :: List.filter is_loss ledger)))
        with (fadd (pips_profit x) (fsum (pips (List.filter is_loss ledger)))).
      rewrite Hq, Hw, Hl. simpl.
      exists (q + t)%Q, w, (q + l)%Q. split_and!; try done. lra.
    + rewrite Hw, Hl. simpl.
      exists (q + t)%Q, w, l. split_and!; try done.
      assert (q == 0)%Q; [|lra].
      destruct (Qlt_le_dec q 0) as [Hlt | Hge].
      { apply fltb_Fin in Hlt. unfold fzero in L. congruence. }
      destruct (Qlt_le_dec 0 q) as [Hgt | Hle]; [|lra].
      apply fltb_Fin in Hgt. unfold fgtb, fzero in G. congruence.
Qed.

(** X7: the figures of a summary of finite pip profits agree with one
    another: the average per trade times the number of trades is the
    total, and the total is the average win times the number of
    winners plus the average loss times the number of losers. *)
Theorem summary_figures_agree (ledger : list Trade) (p : Performance) :
  finite_ledger ledger →
  performance_of ledger = Metrics p →
  ∃ t a aw al,
    total_pips p = Fin t ∧
    average_pips_per_trade p = Fin a ∧
    average_win_pips p = Fin aw ∧
    average_loss_pips p = Fin al ∧
    (a * inject_Z (Z.of_nat (total_trades p)) == t)%Q ∧
    (t == aw * inject_Z (Z.of_nat (winning_trades p))
          + al * inject_Z (Z.of_nat (losing_trades p)))%Q.
Proof.
  intros Hfin Hp.
  pose proof (performance_of_Metrics _ _ Hp) as Hne.
  unfold performance_of in Hp.
  rewrite bool_decide_eq_false_2 in Hp by (by destruct ledger).
  injection Hp as <-. simpl.
  destruct (fsum_win_loss_split ledger Hfin)
    as (t & w & l & Ht & Hw & Hl & Heq).
  pose proof (pips_finite _ Hfin) as Hpf.
  pose proof (pips_finite _ (finite_ledger_filter is_win _ Hfin)) as Hwf.
  pose proof (pips_finite _ (finite_ledger_filter is_loss _ Hfin)) as Hlf.
  destruct (guarded_mean_times_count _ t Hpf Ht) as (a & Ha & Hat).
  destruct (guarded_mean_times_count _ w Hwf Hw) as (aw & Haw & Hawt).
  destruct (guarded_mean_times_count _ l Hlf Hl) as (al & Hal & Halt).
  unfold pips in Ha, Haw, Hal, Hat, Hawt, Halt.
  rewrite !length_fmap in *.
  rewrite bool_decide_eq_true_2 in Ha by (destruct ledger; [done | simpl; lia]).
  exists t, a, aw, al. split_and!; try done.
  - unfold series_sum. by rewrite valid_finite.
  - rewrite Heq, <- Hawt, <- Halt. reflexivity.
Qed.

Lemma summary_figures_agree_witness :
  ∃ p, performance_of sample_ledger = Metrics p ∧
  ∃ t a aw al,
    total_pips p = Fin t ∧
    average_pips_per_trade p = Fin a ∧
    average_win_pips p = Fin aw ∧
    average_loss_pips p = Fin al ∧
    (a * inject_Z (Z.of_nat (total_trades p)) == t)%Q ∧
    (t == aw * inject_Z (Z.of_nat (winning_trades p))
          + al * inject_Z (Z.of_nat (losing_trades p)))%Q.
Proof.
  eexists. split; [reflexivity|].
  apply (summary_figures_agree sample_ledger);
    [repeat constructor | reflexivity].
Defined.

End summary_consistency.

(** ** The engine across calls *)

Section engine.
Import BaseStrategy SMACrossoverStrategy Spec Examples.

(** What a successful [load_data] implies about its input. *)
Lemma load_data_inv to_datetime (σ : store) self l (df : DataFrame) w' :
  σ !! l = Some df →
  load_data to_datetime (σ, self) l = Ok w' →
  ∃ tc ts, has_required_columns df ∧ cols df !! "time" = Some tc ∧
           parsed_time to_datetime tc = Ok ts.
Proof.
  intros Hl Hload. unfold load_data, deref in Hload.
  rewrite Hl in Hload. rewrite bind_Ok in Hload. cbv beta in Hload.
  destruct (forallb _ _) eqn:E; [|done].
  apply required_columns_check in E.
  unfold getitem in Hload.
  destruct (cols df !! "time") as [tc|] eqn:Htc; [|done].
  rewrite bind_Ok in Hload. cbv beta in Hload.
  exists tc. destruct tc as [x|x|x]; simpl.
  - destruct (to_datetime (FloatCol x)) as [ts|]; [eauto | done].
  - destruct (to_datetime (IntCol x)) as [ts|]; [eauto | done].
  - eauto.
Qed.

(** The state after a successful [load_data]. *)
Lemma load_data_result to_datetime (σ : store) self l (df : DataFrame) w' :
  σ !! l = Some df →
  load_data to_datetime (σ, self) l = Ok w' →
  ∃ ts l',
    (∃ tc, cols df !! "time" = Some tc ∧ parsed_time to_datetime tc = Ok ts) ∧
    has_required_columns df ∧
    w'.2 = set_data (Some l') self ∧
    (l' ∉ dom σ) ∧
    w'.1 !! l'
      = Some (frame_take (argsort ts) (setitem "time" (TimeCol ts) df)) ∧
    (∀ l0 df0, σ !! l0 = Some df0 → w'.1 !! l0 = Some df0).
Proof.
  intros Hl Hload.
  destruct (load_data_inv _ _ _ _ _ _ Hl Hload) as (tc & ts & Hreq & Htc & Hp).
  rewrite (load_data_ok to_datetime σ self l df tc ts Hl Hreq Htc Hp) in Hload.
  injection Hload as <-.
  set (df1 := setitem "time" (TimeCol ts) df).
  set (l1 := fresh (dom σ)).
  set (σ1 := <[l1 := df1]> σ).
  set (l2 := fresh (dom σ1)).
  assert (H1 : l1 ∉ dom σ) by apply is_fresh.
  assert (H2 : l2 ∉ dom σ1) by apply is_fresh.
  assert (H2' : l2 ≠ l1 ∧ l2 ∉ dom σ).
  { unfold σ1 in H2. rewrite dom_insert_L in H2. set_solver. }
  destruct H2' as [Hne H2'].
  exists ts, l2. simpl. split_and!; eauto.
  - apply lookup_insert_eq.
  - intros l0 df0 H0.
    apply (elem_of_dom_2 (D := gset loc)) in H0 as Hdom.
    unfold σ1. rewrite !lookup_insert_ne; [done | | ]; by intros ->.
Qed.

Lemma cols_frame_take_None idx (df : DataFrame) k :
  cols df !! k = None → cols (frame_take idx df) !! k = None.
Proof. intros H. unfold frame_take. simpl. by rewrite lookup_fmap, H. Qed.

(** X8: [get_entry_exit_pairs] and [get_performance_summary] have no
    "not run" guard.  Before any data is loaded they fail while
    subscripting [None]; after [load_data] and before [run] they fail
    on the missing [signal] column. *)
Theorem trades_before_run_raise (to_datetime : column → result (list Z))
    (σ : store) (self : Strategy) :
  (data self = None →
   get_entry_exit_pairs (σ, self)
     = Raise (TypeError "'NoneType' object is not subscriptable") ∧
   get_performance_summary (σ, self)
     = Raise (TypeError "'NoneType' object is not subscriptable")) ∧
  (∀ l df w', σ !! l = Some df → cols df !! "signal" = None →
     load_data to_datetime (σ, self) l = Ok w' →
     get_entry_exit_pairs w' = Raise (KeyError "signal") ∧
     get_performance_summary w' = Raise (KeyError "signal")).
Proof.
  split.
  - intros Hd. unfold get_performance_summary, get_entry_exit_pairs, deref.
    by rewrite Hd.
  - intros l df [σ' self'] Hl Hsig Hload.
    destruct (load_data_result _ _ _ _ _ _ Hl Hload)
      as (ts & l' & _ & _ & Hself & _ & Hσ & _).
    simpl in Hself, Hσ. subst self'.
    assert (Hpairs : get_entry_exit_pairs (σ', set_data (Some l') self)
                     = Raise (KeyError "signal")).
    { unfold get_entry_exit_pairs.
      replace (deref σ' (data (set_data (Some l') self)))
        with (Ok (frame_take (argsort ts) (setitem "time" (TimeCol ts) df)))
        by (unfold deref; simpl; by rewrite Hσ).
      bind_ok. unfold int_col, getitem.
      rewrite cols_frame_take_None; [done|].
      by rewrite cols_setitem_ne. }
    split; [done|]. unfold get_performance_summary. by rewrite Hpairs.
Qed.

Lemma trades_before_run_raise_witness :
  ∃ w', load_data no_parser (caller_store, fresh_strategy) 1%positive = Ok w' ∧
        get_entry_exit_pairs w' = Raise (KeyError "signal") ∧
        get_performance_summary w' = Raise (KeyError "signal").
Proof.
  eexists. split; [by vm_compute|].
  refine (proj2 (trades_before_run_raise no_parser caller_store fresh_strategy)
            1%positive unsorted_frame _ _ _ _);
    reflexivity.
Defined.

Lemma calculate_indicators_frame_negative self (df : DataFrame) close :
  cols df !! "close" = Some (FloatCol close) →
  short_period self < 0 →
  calculate_indicators_frame self df
  = Raise (ValueError "min_periods must be >= 0").
Proof.
  intros Hc Hneg. unfold calculate_indicators_frame.
  rewrite (float_col_Some _ _ _ Hc). bind_ok.
  unfold TechnicalIndicators.sma, rolling_mean, check_window.
  by rewrite (bool_decide_eq_true_2 (short_period self < 0)) by lia.
Qed.

(** X9: the constructor lets a negative short period through, and
    every later [run] on loaded data then fails in the validation of
    the rolling window, whose [min_periods] is the negative period. *)
Theorem negative_period_fails_at_run (short long lag : Z) :
  short < 0 → short < long →
  ∃ self,
    init short long lag = Ok self ∧
    ∀ (σ : store) l (df : DataFrame) close,
      σ !! l = Some df →
      cols df !! "close" = Some (FloatCol close) →
      run (σ, set_data (Some l) self)
      = Raise (ValueError "min_periods must be >= 0").
Proof.
  intros Hneg Hlt. eexists. split.
  - unfold init. by rewrite bool_decide_eq_false_2 by lia.
  - intros σ l df close Hl Hc. unfold run. simpl data. cbv iota.
    match goal with
    | |- context [BaseStrategy.calculate_indicators ?w] =>
        change (BaseStrategy.calculate_indicators w)
          with (update_data (calculate_indicators_frame w.2) w)
    end.
    unfold update_data, deref. simpl. rewrite Hl. bind_ok.
    by rewrite (calculate_indicators_frame_negative _ df close) by done.
Qed.

Lemma negative_period_fails_at_run_witness :
  ∃ self,
    init (-5) 10 1 = Ok self ∧
    ∀ (σ : store) l (df : DataFrame) close,
      σ !! l = Some df →
      cols df !! "close" = Some (FloatCol close) →
      run (σ, set_data (Some l) self)
      = Raise (ValueError "min_periods must be >= 0").
Proof. apply (negative_period_fails_at_run (-5) 10 1); lia. Defined.

(** X10: a successful [run] writes to one frame only, the one
    [self.data] refers to, and leaves [self.signals] referring to that
    same frame. *)
Theorem run_works_in_place (σ : store) (self : Strategy)
    (w' : store * Strategy) :
  run (σ, self) = Ok w' →
  ∃ l df',
    data self = Some l ∧
    data w'.2 = Some l ∧
    signals w'.2 = Some l ∧
    w'.1 = <[l := df']> σ.
Proof.
  unfold run. destruct (data self) as [l|] eqn:Hd; [|done].
  change (BaseStrategy.calculate_indicators (σ, self))
    with (update_data (calculate_indicators_frame self) (σ, self)).
  unfold update_data at 1, deref. rewrite Hd.
  destruct (σ !! l) as [df|]; [|done]. bind_ok.
  destruct (calculate_indicators_frame self df) as [df1|]; [|done].
  binds_ok. cbv iota.
  match goal with
  | |- context [BaseStrategy.generate_signals ?w] =>
      change (BaseStrategy.generate_signals w)
        with (update_data (generate_signals_frame w.2) w)
  end.
  unfold update_data, deref. simpl data. cbv iota.
  rewrite lookup_insert_eq. bind_ok.
  match goal with
  | |- context [generate_signals_frame ?s ?d] =>
      destruct (generate_signals_frame s d) as [df2|]; [|done]
  end.
  binds_ok. cbv iota. intros [= <-]. simpl.
  exists l, df2. split_and!; try done. by rewrite insert_insert_eq.
Qed.

Lemma run_works_in_place_witness :
  ∃ w' l df',
    run crossing_world = Ok w' ∧
    data crossing_world.2 = Some l ∧
    data w'.2 = Some l ∧
    signals w'.2 = Some l ∧
    w'.1 = <[l := df']> crossing_world.1.
Proof.
  exists computed_world.
  destruct (run_works_in_place crossing_world.1 crossing_world.2
              computed_world) as (l & df' & H);
    [by vm_compute|].
  exists l, df'. split; [by vm_compute | exact H].
Defined.

(** X11: loading new data does not reset the signals of an earlier
    run: [self.signals] keeps referring to the old frame, which is no
    longer [self.data], and [get_all_signals] and [export_signals]
    keep answering from it until [run] is called again. *)
Theorem reload_keeps_previous_signals (to_datetime : column → result (list Z))
    (σ : store) (self : Strategy) (ls l : loc) (dfs : DataFrame)
    (w' : store * Strategy) :
  signals self = Some ls →
  σ !! ls = Some dfs →
  load_data to_datetime (σ, self) l = Ok w' →
  signals w'.2 = Some ls ∧
  data w'.2 ≠ Some ls ∧
  (∀ signal_type,
     get_all_signals w' signal_type = get_all_signals (σ, self) signal_type) ∧
  (∀ filepath,
     export_signals w' filepath = export_signals (σ, self) filepath).
Proof.
  intros Hsig Hls Hload.
  destruct (σ !! l) as [df|] eqn:Hl; cycle 1.
  { unfold load_data, deref in Hload. by rewrite Hl in Hload. }
  destruct (load_data_result _ _ _ _ _ _ Hl Hload)
    as (ts & l' & _ & _ & Hself & Hfresh & _ & Hkeep).
  destruct w' as [σ' self']. simpl in *. subst self'.
  assert (Hls' : σ' !! ls = Some dfs) by by apply Hkeep.
  split_and!.
  - done.
  - simpl. intros [= ->]. apply Hfresh. by eapply elem_of_dom_2.
  - intros st. unfold get_all_signals, deref. simpl signals.
    by rewrite Hsig, Hls, Hls'.
  - intros path. unfold export_signals, deref. simpl signals.
    by rewrite Hsig, Hls, Hls'.
Qed.

Lemma reload_keeps_previous_signals_witness :
  ∃ w',
    load_data no_parser computed_world 1%positive = Ok w' ∧
    signals w'.2 = Some 1%positive ∧
    data w'.2 ≠ Some 1%positive ∧
    (∀ signal_type,
       get_all_signals w' signal_type
       = get_all_signals computed_world signal_type) ∧
    (∀ filepath,
       export_signals w' filepath = export_signals computed_world filepath).
Proof.
  destruct (load_data no_parser computed_world 1%positive) as [w'|] eqn:Hload;
    [|by vm_compute in Hload].
  exists w'. split; [done|].
  apply (reload_keeps_previous_signals no_parser computed_world.1
           computed_world.2 1%positive 1%positive
           (with_signals crossing_world.2 crossing_close crossing_frame) w');
    [reflexivity | reflexivity | exact Hload].
Defined.

Lemma length_select_seq (f : Z → bool) sig : ∀ a,
  length (select (f <$> sig) (seq a (length sig)))
  = length (List.filter f sig).
Proof.
  induction sig as [|s sig IH]; intros a; [done|]. simpl.
  destruct (f s); simpl; by rewrite IH.
Qed.

Lemma nrows_frame_filter (f : Z → bool) sig (df : DataFrame) :
  length sig = nrows df →
  nrows (frame_filter (f <$> sig) df) = length (List.filter f sig).
Proof.
  intros H. unfold frame_filter. simpl. rewrite <- H.
  apply length_select_seq.
Qed.

Lemma count_ternary sig :
  Forall (λ s, s = 1 ∨ s = -1 ∨ s = 0) sig →
  length (List.filter (λ s, bool_decide (s ≠ 0)) sig)
  = (count_eq 1 sig + count_eq (-1) sig)%nat.
Proof.
  unfold count_eq. induction 1 as [|s sig Hs _ IH]; [done|]. simpl.
  destruct Hs as [-> | [-> | ->]]; simpl; lia.
Qed.

Lemma percentage_range (n total : nat) :
  (n ≤ total)%nat → (0 < total)%nat →
  ∃ x, percentage n total = Fin x ∧ (0 <= x)%Q ∧ (x <= 100)%Q.
Proof.
  intros Hle Hpos. unfold percentage.
  rewrite bool_decide_eq_true_2 by done. unfold of_nat, fdiv.
  rewrite Qsign_of_nat_pos by done. cbn [fmul].
  eexists. split; [reflexivity|].
  assert (H0 : (0 <= inject_Z (Z.of_nat n))%Q) by (unfold Qle; simpl; lia).
  assert (H1 : (inject_Z (Z.of_nat n) <= inject_Z (Z.of_nat total))%Q)
    by (rewrite <- Zle_Qle; lia).
  assert (H2 : (0 < inject_Z (Z.of_nat total))%Q)
    by (unfold Qlt; simpl; lia).
  assert (H3 : (0 <= inject_Z (Z.of_nat n) / inject_Z (Z.of_nat total))%Q)
    by (apply Qle_shift_div_l; [done | lra]).
  assert (H4 : (inject_Z (Z.of_nat n) / inject_Z (Z.of_nat total) <= 1)%Q)
    by (apply Qle_shift_div_r; [done | lra]).
  split; lra.
Qed.

(** X12: the counts in [get_summary] are the numbers of rows that
    [get_all_signals] returns for buys and for sells; their sum is the
    total, which for signals in [{-1, 0, 1}] is the number of rows
    [get_all_signals()] and [export_signals] give; and when there is a
    signal each of the two percentages lies between 0 and 100. *)
Theorem summary_counts_match_signals (σ : store) (self : Strategy)
    (ls ld : loc) (df ddf : DataFrame) (sig ts : list Z) (filepath : string) :
  signals self = Some ls →
  σ !! ls = Some df →
  cols df !! "signal" = Some (IntCol sig) →
  length sig = nrows df →
  data self = Some ld →
  σ !! ld = Some ddf →
  cols ddf !! "time" = Some (TimeCol ts) →
  ∃ s buys sells,
    get_summary (σ, self) = Ok (Some s) ∧
    get_all_signals (σ, self) (Some 1) = Ok buys ∧
    get_all_signals (σ, self) (Some (-1)) = Ok sells ∧
    signals_buy s = nrows buys ∧
    signals_sell s = nrows sells ∧
    signals_total s = (nrows buys + nrows sells)%nat ∧
    data_points s = nrows ddf ∧
    ((0 < signals_total s)%nat →
     ∃ x y, buy_percentage s = Fin x ∧ sell_percentage s = Fin y ∧
            (0 <= x)%Q ∧ (x <= 100)%Q ∧ (0 <= y)%Q ∧ (y <= 100)%Q) ∧
    (Forall (λ v, v = 1 ∨ v = -1 ∨ v = 0) sig →
     ∃ all, get_all_signals (σ, self) None = Ok all ∧
            export_signals (σ, self) filepath = Ok all ∧
            signals_total s = nrows all).
Proof.
  intros Hsig Hls Hcol Hlen Hd Hld Ht.
  unfold get_summary, get_all_signals, export_signals, deref.
  rewrite Hsig, Hls, Hd, Hld. binds_ok.
  rewrite (int_col_Some _ _ _ Hcol). binds_ok.
  rewrite (time_col_Some _ _ _ Ht). binds_ok. cbv iota.
  eexists _, _, _. split_and!; try done;
    cbn [signals_buy signals_sell signals_total data_points
         buy_percentage sell_percentage].
  - symmetry. by apply (nrows_frame_filter (λ s, bool_decide (s = 1))).
  - symmetry. by apply (nrows_frame_filter (λ s, bool_decide (s = -1))).
  - by rewrite !(nrows_frame_filter _ sig df Hlen).
  - intros Hpos.
    destruct (percentage_range (count_eq 1 sig)
                (count_eq 1 sig + count_eq (-1) sig)) as (x & Hx & Hx0 & Hx1);
      [lia | done |].
    destruct (percentage_range (count_eq (-1) sig)
                (count_eq 1 sig + count_eq (-1) sig)) as (y & Hy & Hy0 & Hy1);
      [lia | done |].
    by exists x, y.
  - intros Hter. eexists. split_and!; try done.
    unfold nonzero. rewrite (nrows_frame_filter _ sig df Hlen).
    symmetry. by apply count_ternary.
Qed.

Lemma summary_counts_match_signals_witness :
  ∃ s buys sells,
    get_summary alternating_world = Ok (Some s) ∧
    get_all_signals alternating_world (Some 1) = Ok buys ∧
    get_all_signals alternating_world (Some (-1)) = Ok sells ∧
    signals_buy s = nrows buys ∧
    signals_sell s = nrows sells ∧
    signals_total s = (nrows buys + nrows sells)%nat ∧
    data_points s = nrows alternating_frame ∧
    ((0 < signals_total s)%nat →
     ∃ x y, buy_percentage s = Fin x ∧ sell_percentage s = Fin y ∧
            (0 <= x)%Q ∧ (x <= 100)%Q ∧ (0 <= y)%Q ∧ (y <= 100)%Q) ∧
    (Forall (λ v, v = 1 ∨ v = -1 ∨ v = 0) [1; -1; 1; -1; 1] →
     ∃ all, get_all_signals alternating_world None = Ok all ∧
            export_signals alternating_world "signals.csv" = Ok all ∧
            signals_total s = nrows all).
Proof.
  apply (summary_counts_match_signals _ _ 1%positive 1%positive
           alternating_frame alternating_frame [1; -1; 1; -1; 1]
           [0; 1; 2; 3; 4] "signals.csv");
    reflexivity.
Defined.

End engine.

(** ** Loading candles that are already in order *)

Section load_sorted.
Import BaseStrategy SMACrossoverStrategy Spec Examples.

#[local] Instance time_le_transitive : Transitive time_le.
Proof. intros a b c. unfold time_le. lia. Qed.

#[local] Instance time_le_total' : Total time_le.
Proof. intros a b. unfold time_le. lia. Qed.

Lemma take_rows_cons_S {A} (x : A) (l : list A) (idx : list nat) :
  take_rows (S <$> idx) (x :: l) = take_rows idx l.
Proof.
  unfold take_rows. induction idx as [|i idx IH]; [done|]. csimpl.
  by rewrite IH.
Qed.

Lemma take_rows_seq {A} (l : list A) : take_rows (seq 0 (length l)) l = l.
Proof.
  induction l as [|x l IH]; [done|].
  change (seq 0 (length (x :: l))) with (0%nat :: seq 1 (length l)).
  rewrite <- fmap_S_seq.
  change (take_rows (0%nat :: (S <$> seq 0 (length l))) (x :: l))
    with (x :: take_rows (S <$> seq 0 (length l)) (x :: l)).
  by rewrite take_rows_cons_S, IH.
Qed.

Lemma column_take_seq (c : column) n :
  column_length c = n → column_take (seq 0 n) c = c.
Proof. intros <-. destruct c; simpl; by rewrite take_rows_seq. Qed.

Lemma frame_take_seq (df : DataFrame) :
  well_formed df → frame_take (seq 0 (nrows df)) df = df.
Proof.
  intros Hwf. destruct df as [n cs]. unfold frame_take. simpl in *.
  rewrite length_seq. f_equal. apply map_eq. intros k.
  rewrite lookup_fmap. destruct (cs !! k) as [c|] eqn:Hc; [|done].
  simpl. f_equal. apply column_take_seq. by apply (Hwf k).
Qed.

Lemma zip_seq_sorted (ts : list Z) : ∀ a,
  Sorted Z.le ts → Sorted time_le (zip ts (seq a (length ts))).
Proof.
  induction ts as [|t ts IH]; intros a Hs; [constructor|].
  apply Sorted_inv in Hs as [Hs Hhd]. simpl. constructor; [by apply IH|].
  destruct ts as [|t' ts]; [constructor|].
  simpl. constructor. unfold time_le. simpl.
  by apply HdRel_inv in Hhd.
Qed.

(** Ascending timestamps without duplicates are their own sorting
    order. *)
Lemma argsort_ascending (ts : list Z) :
  Sorted Z.le ts → NoDup ts → argsort ts = seq 0 (length ts).
Proof.
  intros Hs Hnd. unfold argsort.
  rewrite (Sorted_unique_strong time_le
             (merge_sort time_le (zip ts (seq 0 (length ts))))
             (zip ts (seq 0 (length ts)))).
  - apply snd_zip. by rewrite length_seq.
  - intros [t1 i1] [t2 i2] H1 H2 Hle1 Hle2.
    rewrite merge_sort_Permutation in H1.
    pose proof (zip_seq_positions ts) as Hpos.
    rewrite Forall_forall in Hpos.
    pose proof (Hpos _ H1) as Hp1. pose proof (Hpos _ H2) as Hp2.
    unfold time_le in *. simpl in *.
    assert (t1 = t2) as -> by lia.
    f_equal. by eapply NoDup_lookup.
  - apply Sorted_merge_sort. apply _.
  - by apply zip_seq_sorted.
  - apply merge_sort_Permutation.
Qed.

(** X13: loading candles whose timestamps are already ascending and
    duplicate-free gives the strategy a private copy that is equal to
    the input frame, row for row and column for column. *)
Theorem load_data_sorted_input_unchanged
    (to_datetime : column → result (list Z))
    (σ : store) (self : Strategy) (l : loc) (df : DataFrame) (ts : list Z) :
  σ !! l = Some df →
  has_required_columns df →
  well_formed df →
  cols df !! "time" = Some (TimeCol ts) →
  ascending ts →
  NoDup ts →
  ∃ σ' l',
    load_data to_datetime (σ, self) l = Ok (σ', set_data (Some l') self) ∧
    l' ≠ l ∧
    σ' !! l' = Some df ∧
    σ' !! l = Some df.
Proof.
  intros Hl Hreq Hwf Ht Hasc Hnd.
  pose proof (load_data_ok to_datetime σ self l df (TimeCol ts) ts
                Hl Hreq Ht eq_refl) as Hload.
  simpl in Hload. rewrite (setitem_id _ _ _ Ht) in Hload.
  rewrite (argsort_ascending ts Hasc Hnd) in Hload.
  assert (Hn : length ts = nrows df) by apply (Hwf "time" (TimeCol ts) Ht).
  rewrite Hn, (frame_take_seq df Hwf) in Hload.
  set (l1 := fresh (dom σ)) in *.
  set (σ1 := <[l1 := df]> σ) in *.
  set (l2 := fresh (dom σ1)) in *.
  assert (H1 : l1 ∉ dom σ) by apply is_fresh.
  assert (H2 : l2 ∉ dom σ1) by apply is_fresh.
  assert (Hin : l ∈ dom σ) by by eapply elem_of_dom_2.
  assert (Hne : l2 ≠ l ∧ l1 ≠ l).
  { unfold σ1 in H2. rewrite dom_insert_L in H2. set_solver. }
  destruct Hne as [Hne2 Hne1].
  exists (<[l2 := df]> σ1), l2. split_and!; try done.
  - apply lookup_insert_eq.
  - unfold σ1. by rewrite !lookup_insert_ne.
Qed.

Lemma load_data_sorted_input_unchanged_witness :
  ∃ σ' l',
    load_data no_parser (crossing_world.1, crossing_world.2) 1%positive
      = Ok (σ', set_data (Some l') crossing_world.2) ∧
    l' ≠ 1%positive ∧
    σ' !! l' = Some crossing_frame ∧
    σ' !! 1%positive = Some crossing_frame.
Proof.
  apply (load_data_sorted_input_unchanged no_parser _ _ 1%positive
           crossing_frame [0; 1; 2; 3; 4; 5]);
    [reflexivity | compute_done | compute_done | reflexivity
    | unfold ascending; compute_done | compute_done].
Defined.

End load_sorted.

(** ** The whole pipeline *)

Section pipeline.
Import BaseStrategy SMACrossoverStrategy Spec Examples.







End pipeline.

(** ** More on the indicators *)

Section indicator_values.
Import TechnicalIndicators Spec Examples.

Lemma ewm_alpha_value span :
  1 ≤ span → ewm_alpha span = Fin (2 / (inject_Z span + 1)).
Proof.
  intros H. unfold ewm_alpha, of_Z. simpl.
  rewrite Qsign_gt; [done|].
  assert (0 < inject_Z span)%Q by (unfold Qlt; simpl; lia). lra.
Qed.

(** One smoothing step on finite values. *)
Lemma ewm_step_value a n st x :
  ewm_inv n st →
  ∃ y y', weighted st = Fin y ∧
          weighted (ewm_step (Fin a) st (Fin x)) = Fin y' ∧
          (y' == (1 - a) * y + a * x)%Q.
Proof.
  intros (Hw & Ho & Hn). destruct st as [w o k]. simpl in *. subst o k.
  destruct w as [y| | |]; try done. exists y.
  unfold ewm_step. simpl.
  destruct (fneb (Fin y) (Fin x)) eqn:Hne; simpl.
  - rewrite Qsign_gt by lra. eexists. split_and!; try done. field. lra.
  - exists y. split_and!; try done.
    unfold fneb in Hne. apply negb_false_iff, feqb_Fin in Hne.
    rewrite Hne. ring.
Qed.

Lemma ewm_out_defined minp n st :
  ewm_inv n st → (minp ≤ n)%nat → ewm_out minp st = weighted st.
Proof.
  intros (_ & _ & Hn) Hle. unfold ewm_out.
  by rewrite bool_decide_eq_true_2 by lia.
Qed.

Lemma ewm_run_consecutive a minp (s : series) : ∀ st n i x,
  ewm_inv n st → all_finite s → (minp ≤ n + S i)%nat →
  s !! S i = Some (Fin x) →
  ∃ y y', ewm_run (Fin a) minp st s !! i = Some (Fin y) ∧
          ewm_run (Fin a) minp st s !! S i = Some (Fin y') ∧
          (y' == (1 - a) * y + a * x)%Q.
Proof.
  induction s as [|c s IH]; intros st n i x Hinv Hs Hmin Hx; [done|].
  apply Forall_cons in Hs as [Hc Hs].
  pose proof (ewm_step_inv a n st c Hinv Hc) as Hinv1.
  destruct i as [|i].
  - destruct s as [|c' s]; [done|]. simpl in Hx. injection Hx as ->.
    destruct (ewm_step_value a (S n) (ewm_step (Fin a) st c) x Hinv1)
      as (y & y' & Hy & Hy' & Heq).
    pose proof (ewm_step_inv a (S n) _ (Fin x) Hinv1 I) as Hinv2.
    exists y, y'. simpl.
    rewrite (ewm_out_defined minp (S n)) by (done || lia).
    rewrite (ewm_out_defined minp (S (S n))) by (done || lia).
    by rewrite Hy, Hy'.
  - simpl. apply (IH _ (S n)); try done. lia.
Qed.

(** X15: from the first index where the exponential moving average of
    finite data has a value, each value is the smoothing of the one
    before with the next price, with factor [alpha = 2 / (period + 1)]:
    [ema[i+1] = (1 - alpha) * ema[i] + alpha * data[i+1]]. *)
Theorem ema_recurrence (data : series) (period : Z) (i : nat) :
  1 ≤ period → all_finite data →
  period - 1 ≤ Z.of_nat i → (S i < length data)%nat →
  ∃ out y x y',
    ema data period = Ok out ∧
    out !! i = Some (Fin y) ∧
    data !! S i = Some (Fin x) ∧
    out !! S i = Some (Fin y') ∧
    (y' == (1 - 2 / (inject_Z period + 1)) * y
           + 2 / (inject_Z period + 1) * x)%Q.
Proof.
  intros Hp Hd Hi Hlen. unfold ema, ewm_mean.
  rewrite bool_decide_eq_false_2 by lia.
  rewrite (ewm_alpha_value period Hp).
  set (a := (2 / (inject_Z period + 1))%Q).
  set (minp := Z.to_nat (Z.max period 0)).
  destruct (lookup_lt_is_Some_2 data (S i) Hlen) as [xi Hxi].
  destruct (is_finite_Fin xi) as [x ->].
  { by eapply (proj1 (Forall_lookup is_finite data)). }
  destruct data as [|x0 s]; [done|].
  apply Forall_cons in Hd as [Hx0 Hs].
  pose proof (ewm_first_inv x0 Hx0) as Hinv.
  destruct i as [|i].
  - destruct s as [|c s]; [done|]. simpl in Hxi. injection Hxi as ->.
    destruct (ewm_step_value a 1 (ewm_first x0) x Hinv)
      as (y & y' & Hy & Hy' & Heq).
    pose proof (ewm_step_inv a 1 _ (Fin x) Hinv I) as Hinv2.
    eexists _, y, x, y'. split; [done|]. simpl.
    rewrite (ewm_out_defined minp 1) by (done || lia).
    rewrite (ewm_out_defined minp 2) by (done || lia).
    by rewrite Hy, Hy'.
  - simpl in Hxi.
    destruct (ewm_run_consecutive a minp s (ewm_first x0) 1 i x Hinv Hs)
      as (y & y' & Hy & Hy' & Heq); [lia | done |].
    eexists _, y, x, y'. split; [done|]. by simpl.
Qed.

Lemma ema_recurrence_witness :
  ∃ out y x y',
    ema crossing_close 2 = Ok out ∧
    out !! 2%nat = Some (Fin y) ∧
    crossing_close !! 3%nat = Some (Fin x) ∧
    out !! 3%nat = Some (Fin y') ∧
    (y' == (1 - 2 / (inject_Z 2 + 1)) * y + 2 / (inject_Z 2 + 1) * x)%Q.
Proof.
  apply (ema_recurrence crossing_close 2 2);
    [lia | repeat constructor | simpl; lia | simpl; lia].
Defined.

(** *** RSI stays between 0 and 100 *)

Lemma nonneg_finite (s : series) : Forall nonneg s → all_finite s.
Proof.
  intros H. eapply Forall_impl; [exact H|]. by intros x (q & -> & _).
Qed.

Lemma gains_nonneg (delta : series) :
  Forall finite_or_nan delta →
  Forall nonneg (where_ (λ d, fgtb d fzero) fzero delta).
Proof.
  intros Hd. unfold where_. rewrite Forall_fmap.
  eapply Forall_impl; [exact Hd|]. intros d [-> | Hf]; simpl.
  - exists 0%Q. split; [done|]. lra.
  - destruct d as [q| | |]; try done.
    destruct (fgtb (Fin q) fzero) eqn:G.
    + unfold fgtb in G. apply fltb_Fin in G. exists q. split; [done|]. lra.
    + exists 0%Q. split; [done|]. lra.
Qed.

Lemma losses_nonneg (delta : series) :
  Forall finite_or_nan delta →
  Forall nonneg (fneg <$> where_ (λ d, fltb d fzero) fzero delta).
Proof.
  intros Hd. unfold where_. rewrite !Forall_fmap.
  eapply Forall_impl; [exact Hd|]. intros d [-> | Hf]; simpl.
  - exists (- 0)%Q. split; [done|]. lra.
  - destruct d as [q| | |]; try done.
    destruct (fltb (Fin q) fzero) eqn:L.
    + apply fltb_Fin in L. exists (- q)%Q. split; [done|]. lra.
    + exists (- 0)%Q. split; [done|]. lra.
Qed.

Lemma mean_of_nonneg (v : series) :
  Forall nonneg v → v ≠ [] → nonneg (mean_of v).
Proof.
  intros Hv Hne. unfold mean_of.
  destruct (fsum_nonneg v Hv) as (q & -> & Hq).
  assert (Hn : (0 < length v)%nat) by (destruct v; [done | simpl; lia]).
  unfold of_nat, fdiv. rewrite Qsign_of_nat_pos by done.
  eexists. split; [done|].
  apply Qle_shift_div_l; [unfold Qlt; simpl; lia | lra].
Qed.

Lemma rolling_mean_nonneg p (s : series) i x :
  Forall nonneg s → (0 < p)%nat →
  rolling_apply mean_of 0 p p s !! i = Some x →
  x = NaN ∨ nonneg x.
Proof.
  intros Hs Hp Hx.
  assert (Hi : (i < length s)%nat).
  { apply lookup_lt_Some in Hx. by rewrite length_rolling_apply in Hx. }
  rewrite rolling_apply_lookup in Hx by (done || by apply nonneg_finite).
  injection Hx as <-. case_bool_decide as Hc; [|by left]. right.
  apply mean_of_nonneg.
  - unfold window_at. by apply Forall_drop, Forall_take.
  - intros Hnil. apply (f_equal length) in Hnil.
    rewrite window_at_length in Hnil by done. simpl in Hnil. lia.
Qed.

(** The RSI value from a non-negative average gain and loss. *)
Lemma rsi_value_range g l :
  (0 <= g)%Q → (0 <= l)%Q →
  nan_or_between 0 100
    (fsub (Fin 100) (fdiv (Fin 100) (fadd (Fin 1) (fdiv (Fin g) (Fin l))))).
Proof.
  intros Hg Hl. unfold fdiv at 2.
  destruct (Qsign l) eqn:Sl.
  - destruct (Qsign g) eqn:Sg; simpl.
    + by left.
    + apply Qlt_alt in Sg. lra.
    + right. eexists. split; [done|]. lra.
  - apply Qlt_alt in Sl. lra.
  - apply Qgt_alt in Sl.
    assert (Hr : (0 <= g / l)%Q) by (apply Qle_shift_div_l; [done | lra]).
    simpl. rewrite Qsign_gt by lra. right. eexists. split; [done|].
    assert (H1 : (0 < 1 + g / l)%Q) by lra.
    assert (Hq : (0 <= 100 / (1 + g / l))%Q)
      by (apply Qle_shift_div_l; [done | lra]).
    assert (Hq' : (100 / (1 + g / l) <= 100)%Q).
    { apply Qle_shift_div_r; [done|]. nra. }
    lra.
Qed.

(** X16: on finite prices every RSI entry is either missing or a
    number between 0 and 100; it is never infinite. *)
Theorem rsi_between_0_and_100 (data : series) (period : Z) :
  1 ≤ period → all_finite data →
  ∃ out, rsi data period = Ok out ∧
         length out = length data ∧
         ∀ i x, out !! i = Some x → nan_or_between 0 100 x.
Proof.
  intros Hp Hd. unfold rsi.
  rewrite !rolling_mean_default_ok by lia. binds_ok.
  set (gain := rolling_apply mean_of 0 _ _
                 (where_ (λ d, fgtb d fzero) fzero (diff data))).
  set (loss := rolling_apply mean_of 0 _ _
                 (fneg <$> where_ (λ d, fltb d fzero) fzero (diff data))).
  assert (Lg : length gain = length data).
  { unfold gain, where_.
    by rewrite length_rolling_apply, length_fmap, length_diff. }
  assert (Ll : length loss = length data).
  { unfold loss, where_.
    by rewrite length_rolling_apply, !length_fmap, length_diff. }
  eexists. split_and!; [done | |].
  - unfold scalar_sub, scalar_div, scalar_add, series_div.
    rewrite !length_fmap, length_series_zip. lia.
  - intros i x Hx. unfold scalar_sub, scalar_div, scalar_add in Hx.
    rewrite !list_lookup_fmap in Hx.
    destruct (series_div gain loss !! i) as [r|] eqn:Hr; [|done].
    injection Hx as <-.
    assert (Hi : (i < length gain)%nat).
    { apply lookup_lt_Some in Hr. unfold series_div in Hr.
      rewrite length_series_zip in Hr. lia. }
    destruct (lookup_lt_is_Some_2 gain i Hi) as [g Hg].
    destruct (lookup_lt_is_Some_2 loss i) as [l Hl]; [lia|].
    unfold series_div in Hr.
    rewrite (series_zip_lookup fdiv gain loss i g l Hg Hl) in Hr.
    injection Hr as <-.
    pose proof (diff_finite_or_nan data Hd) as Hdiff.
    assert (Hgn : g = NaN ∨ nonneg g).
    { eapply (rolling_mean_nonneg (Z.to_nat period));
        [by apply gains_nonneg | lia | exact Hg]. }
    assert (Hln : l = NaN ∨ nonneg l).
    { eapply (rolling_mean_nonneg (Z.to_nat period));
        [by apply losses_nonneg | lia | exact Hl]. }
    destruct Hgn as [-> | (qg & -> & Hqg)]; [by left|].
    destruct Hln as [-> | (ql & -> & Hql)]; [by left|].
    by apply rsi_value_range.
Qed.

Lemma rsi_between_0_and_100_witness :
  ∃ out, rsi crossing_close 2 = Ok out ∧
         length out = length crossing_close ∧
         ∀ i x, out !! i = Some x → nan_or_between 0 100 x.
Proof.
  apply (rsi_between_0_and_100 crossing_close 2); [lia | repeat constructor].
Defined.

End indicator_values.

(** ** The latest signal *)

Section latest_signal.
Import Float Pandas BaseStrategy SMACrossoverStrategy LatestSignal Spec Examples.

Variable format_price : fnum → string.
Variable format_period : Z → string.

Lemma at_last {A} k (l : list A) n :
  length l = n → (0 < n)%nat →
  ∃ x, last l = Some x ∧ at_ k l (n - 1) = Ok x.
Proof.
  intros Hn Hpos. rewrite last_lookup.
  replace (pred (length l)) with (n - 1)%nat by lia.
  destruct (lookup_lt_is_Some_2 l (n - 1)) as [x Hx]; [lia|].
  exists x. split; [done|]. by apply at_Some.
Qed.

Lemma nrows_with_signals self close (df : DataFrame) :
  nrows (with_signals self close df) = nrows df.
Proof. unfold with_signals, with_indicators. by rewrite !nrows_setitem. Qed.

(** The signals of a run, entry by entry. *)
Lemma signal_of_values self (close : series) n i v :
  length close = n →
  signal_of self
    (crossover_of (series_sub (rolling_sma (short_period self) close)
                              (rolling_sma (long_period self) close)) n)
    (rolling_sma (short_period self) close)
    (rolling_sma (long_period self) close) n !! i = Some v →
  (v = 1 ∨ v = -1 ∨ v = 0) ∧ (Z.of_nat i < long_period self → v = 0).
Proof.
  intros Hlen Hv.
  set (d := series_sub (rolling_sma (short_period self) close)
                       (rolling_sma (long_period self) close)) in *.
  assert (Hd : length d = n) by (unfold d; by rewrite length_sma_diff).
  assert (Hlc : length (crossover_of d n) = n) by by apply length_crossover_of.
  assert (Hter : ∀ j c, crossover_of d n !! j = Some c → c = 1 ∨ c = -1 ∨ c = 0).
  { intros j c Hc.
    assert (Hj : (j < n)%nat) by (apply lookup_lt_Some in Hc; lia).
    destruct (lookup_lt_is_Some_2 d j) as [x Hx]; [lia|].
    destruct (lookup_lt_is_Some_2 (shift1 d) j) as [y Hy];
      [rewrite length_shift1; lia|].
    rewrite (crossover_of_lookup d _ j x y Hd Hx Hy) in Hc.
    injection Hc as <-. apply cross_value_cases. }
  assert (Hwarm : ∀ j, (j < n)%nat → Z.of_nat j < long_period self →
            crossover_of d n !! j = Some 0).
  { intros j Hj Hjl. by apply crossover_of_warm_up. }
  destruct (signal_of_lookup _ _ _ _ _ _ _ Hlc Hv)
    as (Hi & [(_ & Hv') | (_ & Hv')]).
  - split; [by eapply Hter|]. intros Hl.
    rewrite Hwarm in Hv' by done. congruence.
  - split; [subst v; apply confirmed_value_cases|]. intros Hl.
    destruct (decide (v = 0)) as [|Hne]; [done|]. exfalso.
    symmetry in Hv'.
    destruct (confirmed_value_nonzero _ _ _ _ _ _ Hv' Hne) as (Hk & Hx & _).
    rewrite Hwarm in Hx by lia. congruence.
Qed.

(** X17: after a run over at least one candle, [get_latest_signal]
    reports the last candle and nothing else: its signal, time and
    price are the last entries of the signal, time and close columns,
    the name is BUY, SELL or HOLD accordingly (never UNKNOWN), and an
    earlier signal is not carried forward.  While no more candles than
    the long period are loaded, the answer is HOLD with the message
    "No signal at <price>". *)
Theorem latest_signal_is_last_candle (σ : store) (self : Strategy) (l : loc)
    (df : DataFrame) (close : series) (ts : list Z) :
  data self = Some l → σ !! l = Some df →
  cols df !! "close" = Some (FloatCol close) →
  cols df !! "time" = Some (TimeCol ts) →
  length close = nrows df → length ts = nrows df →
  0 ≤ short_period self → 0 ≤ long_period self →
  (0 < nrows df)%nat →
  ∃ w' df' sig r,
    run (σ, self) = Ok w' ∧
    deref w'.1 (signals w'.2) = Ok df' ∧
    cols df' !! "signal" = Some (IntCol sig) ∧
    get_latest_signal format_price format_period w' = Ok r ∧
    last sig = Some (latest_signal r) ∧
    latest_time r = last ts ∧
    latest_price r = last close ∧
    ((latest_signal r = 1 ∧ latest_signal_name r = Some "BUY") ∨
     (latest_signal r = -1 ∧ latest_signal_name r = Some "SELL") ∨
     (latest_signal r = 0 ∧ latest_signal_name r = Some "HOLD")) ∧
    (Z.of_nat (nrows df) ≤ long_period self →
     latest_signal r = 0 ∧
     ∃ p, last close = Some p ∧
          latest_message r = "No signal at " +:+ format_price p).
Proof.
  intros Hd Hl Hc Ht Lc Lt Hs Hlong Hpos.
  rewrite (run_ok σ self l df close Hd Hl Hc Lc Hs Hlong).
  set (F := with_signals self close df).
  set (ss := rolling_sma (short_period self) close).
  set (sl := rolling_sma (long_period self) close).
  set (sig := signal_of self (crossover_of (series_sub ss sl) (nrows df))
                ss sl (nrows df)).
  assert (HF : nrows F = nrows df) by apply nrows_with_signals.
  assert (Hsig : cols F !! "signal" = Some (IntCol sig))
    by apply with_signals_signal.
  assert (Hclose : cols F !! "close" = Some (FloatCol close)).
  { unfold F, with_signals, with_indicators. solve_col. }
  assert (Htime : cols F !! "time" = Some (TimeCol ts)).
  { unfold F, with_signals, with_indicators. solve_col. }
  assert (Hss : cols F !! "sma_short" = Some (FloatCol ss)).
  { unfold F, with_signals, with_indicators. solve_col. }
  assert (Hsl : cols F !! "sma_long" = Some (FloatCol sl)).
  { unfold F, with_signals, with_indicators. solve_col. }
  assert (Lsig : length sig = nrows df).
  { apply length_signal_of, length_crossover_of.
    unfold series_sub. rewrite length_series_zip.
    unfold ss, sl. rewrite !length_rolling_sma. lia. }
  destruct (at_last "signal" sig (nrows df) Lsig Hpos) as (v & Hv & Hav).
  destruct (at_last "time" ts (nrows df) Lt Hpos) as (t & Hlt & Hat).
  destruct (at_last "close" close (nrows df) Lc Hpos) as (p & Hlp & Hap).
  destruct (at_last "sma_short" ss (nrows df)) as (a & _ & Haa);
    [unfold ss; by rewrite length_rolling_sma | done |].
  destruct (at_last "sma_long" sl (nrows df)) as (b & _ & Hab);
    [unfold sl; by rewrite length_rolling_sma | done |].
  assert (Hvals : (v = 1 ∨ v = -1 ∨ v = 0) ∧
                  (Z.of_nat (nrows df - 1) < long_period self → v = 0)).
  { apply (signal_of_values self close (nrows df) (nrows df - 1) v Lc).
    rewrite last_lookup in Hv. fold ss sl sig.
    by replace (nrows df - 1)%nat with (pred (length sig)) by lia. }
  destruct Hvals as [Hter Hwarm].
  assert (Hget : ∃ m,
    get_latest_signal format_price format_period
      (<[l := F]> σ, set_signals (Some l) self)
    = Ok {| latest_signal := v; latest_signal_name := Some (signal_map v);
            latest_time := Some t; latest_price := Some p;
            latest_message := m |} ∧
    (v = 0 → m = "No signal at " +:+ format_price p)).
  { unfold get_latest_signal, format_signal_message.
    destruct self; cbn [signals set_signals]. unfold deref.
    rewrite lookup_insert_eq. binds_ok.
    rewrite bool_decide_eq_false_2 by lia. rewrite HF.
    rewrite (int_col_Some _ _ _ Hsig), (time_col_Some _ _ _ Htime),
      (float_col_Some _ _ _ Hclose), (float_col_Some _ _ _ Hss),
      (float_col_Some _ _ _ Hsl).
    binds_ok. rewrite Hav, Hat, Hap, Haa, Hab. binds_ok.
    destruct Hter as [-> | [-> | ->]]; eexists; (split; [reflexivity|]);
      intros; done. }
  destruct Hget as (m & Hget & Hm).
  eexists _, F, sig, _. split_and!.
  - reflexivity.
  - destruct self; cbn [signals set_signals fst snd]. unfold deref.
    by rewrite lookup_insert_eq.
  - done.
  - exact Hget.
  - done.
  - done.
  - done.
  - cbn [latest_signal latest_signal_name].
    destruct Hter as [-> | [-> | ->]]; auto.
  - intros Hshort. cbn [latest_signal latest_message].
    assert (v = 0) as Hv0 by (apply Hwarm; lia).
    split; [done|]. exists p. split; [done|]. by apply Hm.
Qed.

End latest_signal.

Lemma latest_signal_is_last_candle_witness :
  ∃ w' df' sig r,
    BaseStrategy.run (Examples.crossing_world.1, Examples.crossing_world.2)
      = Ok w' ∧
    deref w'.1 (signals w'.2) = Ok df' ∧
    Pandas.cols df' !! "signal" = Some (Pandas.IntCol sig) ∧
    LatestSignal.get_latest_signal (λ _, "p") (λ _, "n") w' = Ok r ∧
    last sig = Some (LatestSignal.latest_signal r) ∧
    LatestSignal.latest_time r = last [0; 1; 2; 3; 4; 5] ∧
    LatestSignal.latest_price r = last Examples.crossing_close ∧
    ((LatestSignal.latest_signal r = 1
      ∧ LatestSignal.latest_signal_name r = Some "BUY") ∨
     (LatestSignal.latest_signal r = -1
      ∧ LatestSignal.latest_signal_name r = Some "SELL") ∨
     (LatestSignal.latest_signal r = 0
      ∧ LatestSignal.latest_signal_name r = Some "HOLD")) ∧
    (Z.of_nat (Pandas.nrows Examples.crossing_frame)
       ≤ long_period Examples.crossing_world.2 →
     LatestSignal.latest_signal r = 0 ∧
     ∃ p, last Examples.crossing_close = Some p ∧
          LatestSignal.latest_message r = "No signal at " +:+ "p").
Proof.
  apply (latest_signal_is_last_candle (λ _, "p") (λ _, "n")
           Examples.crossing_world.1 Examples.crossing_world.2 1%positive
           Examples.crossing_frame Examples.crossing_close [0; 1; 2; 3; 4; 5]);
    try reflexivity; simpl; lia.
Defined.

(** ** Markets without a reversal *)

Section steady_market.
Import Float Pandas BaseStrategy SMACrossoverStrategy Spec Examples.

Lemma Qlen_cons x l : (Qlen (x :: l) == Qlen l + 1)%Q.
Proof.
  unfold Qlen. cbn [length]. rewrite Nat2Z.inj_succ, <- Z.add_1_r.
  by rewrite inject_Z_plus.
Qed.

Lemma Qlen_app l1 l2 : (Qlen (l1 ++ l2) == Qlen l1 + Qlen l2)%Q.
Proof.
  unfold Qlen. rewrite length_app, Nat2Z.inj_add. by rewrite inject_Z_plus.
Qed.

Lemma Qlen_nonneg l : (0 <= Qlen l)%Q.
Proof. unfold Qlen, Qle. simpl. lia. Qed.

Lemma Qlen_pos l : l ≠ [] → (0 < Qlen l)%Q.
Proof. destruct l; [done|]. intros _. unfold Qlen, Qlt. simpl. lia. Qed.

Lemma Qsum_app l1 l2 : (Qsum (l1 ++ l2) == Qsum l1 + Qsum l2)%Q.
Proof.
  induction l1 as [|x l1 IH]; simpl; [ring|].
  change (x + Qsum (l1 ++ l2) == x + Qsum l1 + Qsum l2)%Q. rewrite IH. ring.
Qed.

Lemma Qsum_le x l : Forall (λ a, (a <= x)%Q) l → (Qsum l <= Qlen l * x)%Q.
Proof.
  induction 1 as [|a l Ha _ IH].
  - change (0 <= 0 * x)%Q. lra.
  - rewrite Qlen_cons. change (a + Qsum l <= (Qlen l + 1) * x)%Q. lra.
Qed.

Lemma Qsum_ge x l : Forall (λ a, (x <= a)%Q) l → (Qlen l * x <= Qsum l)%Q.
Proof.
  induction 1 as [|a l Ha _ IH].
  - change (0 * x <= 0)%Q. lra.
  - rewrite Qlen_cons. change ((Qlen l + 1) * x <= a + Qsum l)%Q. lra.
Qed.

Lemma Qsum_lt x l :
  l ≠ [] → Forall (λ a, (a < x)%Q) l → (Qsum l < Qlen l * x)%Q.
Proof.
  intros Hne H. destruct H as [|a l Ha H]; [done|].
  assert (Hle : (Qsum l <= Qlen l * x)%Q).
  { apply Qsum_le. eapply Forall_impl; [exact H|]. intros b. apply Qlt_le_weak. }
  rewrite Qlen_cons. change (a + Qsum l < (Qlen l + 1) * x)%Q. lra.
Qed.

Lemma Qsum_gt x l :
  l ≠ [] → Forall (λ a, (x < a)%Q) l → (Qlen l * x < Qsum l)%Q.
Proof.
  intros Hne H. destruct H as [|a l Ha H]; [done|].
  assert (Hle : (Qlen l * x <= Qsum l)%Q).
  { apply Qsum_ge. eapply Forall_impl; [exact H|]. intros b. apply Qlt_le_weak. }
  rewrite Qlen_cons. change ((Qlen l + 1) * x < a + Qsum l)%Q. lra.
Qed.

(** The sign of the gap between the mean of the last values of a
    window and the mean of the whole window, from the sign of the
    numerator. *)
Lemma mean_gap_value (na nb sa sb : Q) :
  (0 < na)%Q → (0 < nb)%Q →
  (sb / nb - (sa + sb) / (na + nb)
   == (na * sb - nb * sa) / (nb * (na + nb)))%Q.
Proof. intros Ha Hb. field. split; lra. Qed.

Lemma mean_gap_sign c (A B : list Q) (x : Q) :
  A ≠ [] →
  Forall (λ a, (x ?= a)%Q = c) A →
  Forall (λ b, (b ?= x)%Q = c) B →
  ((Qsum (x :: B) / Qlen (x :: B)
    - Qsum (A ++ x :: B) / Qlen (A ++ x :: B)) ?= 0)%Q = c.
Proof.
  intros Hne HA HB.
  pose proof (Qlen_pos A Hne) as Hna.
  assert (Hnb : (0 < Qlen (x :: B))%Q) by by apply Qlen_pos.
  rewrite Qsum_app, Qlen_app, (mean_gap_value _ _ _ _ Hna Hnb).
  assert (Hden : (0 < Qlen (x :: B) * (Qlen A + Qlen (x :: B)))%Q)
    by (apply Qmult_lt_0_compat; lra).
  set (num := (Qlen A * Qsum (x :: B) - Qlen (x :: B) * Qsum A)%Q).
  assert (Hnum : (num ?= 0)%Q = c).
  { unfold num. pose proof (Qlen_cons x B) as Hc.
    pose proof (Qlen_nonneg B) as HnB.
    change (Qsum (x :: B)) with (x + Qsum B)%Q.
    destruct c.
    - apply Qeq_alt.
      assert (Qsum A == Qlen A * x)%Q as ->.
      { apply Qle_antisym; [apply Qsum_le | apply Qsum_ge];
          (eapply Forall_impl; [exact HA|]); intros a Ha;
          apply Qeq_alt in Ha; lra. }
      assert (Qsum B == Qlen B * x)%Q as ->.
      { apply Qle_antisym; [apply Qsum_le | apply Qsum_ge];
          (eapply Forall_impl; [exact HB|]); intros b Hb;
          apply Qeq_alt in Hb; lra. }
      rewrite Hc. ring.
    - apply (proj1 (Qlt_alt _ _)).
      assert (HsA : (Qlen A * x < Qsum A)%Q).
      { apply Qsum_gt; [done|]. eapply Forall_impl; [exact HA|].
        intros a Ha. by apply Qlt_alt. }
      assert (HsB : (Qsum B <= Qlen B * x)%Q).
      { apply Qsum_le. eapply Forall_impl; [exact HB|].
        intros b Hb. apply Qlt_le_weak. by apply Qlt_alt. }
      rewrite Hc.
      assert (P1 : (0 <= Qlen A * (Qlen B * x - Qsum B))%Q)
        by (apply Qmult_le_0_compat; lra).
      assert (P2 : (0 < (Qlen B + 1) * (Qsum A - Qlen A * x))%Q)
        by (apply Qmult_lt_0_compat; lra).
      lra.
    - apply Qgt_alt.
      assert (HsA : (Qsum A < Qlen A * x)%Q).
      { apply Qsum_lt; [done|]. eapply Forall_impl; [exact HA|].
        intros a Ha. by apply Qgt_alt. }
      assert (HsB : (Qlen B * x <= Qsum B)%Q).
      { apply Qsum_ge. eapply Forall_impl; [exact HB|].
        intros b Hb. apply Qlt_le_weak. by apply Qgt_alt. }
      rewrite Hc.
      assert (P1 : (0 <= Qlen A * (Qsum B - Qlen B * x))%Q)
        by (apply Qmult_le_0_compat; lra).
      assert (P2 : (0 < (Qlen B + 1) * (Qlen A * x - Qsum A))%Q)
        by (apply Qmult_lt_0_compat; lra).
      lra. }
  destruct c.
  - apply Qeq_alt. apply Qeq_alt in Hnum. rewrite Hnum. field. lra.
  - apply (proj1 (Qlt_alt _ _)). apply (proj2 (Qlt_alt _ _)) in Hnum.
    apply Qlt_shift_div_r; [done|]. lra.
  - apply Qgt_alt. apply Qgt_alt in Hnum.
    apply Qlt_shift_div_l; [done|]. lra.
Qed.

Lemma fsum_Fin (l : list Q) : fsum (Fin <$> l) = Fin (Qsum l).
Proof.
  induction l as [|x l IH]; [done|].
  change (fadd (Fin x) (fsum (Fin <$> l)) = Fin (x + Qsum l)). by rewrite IH.
Qed.

Lemma mean_of_Fin (l : list Q) :
  l ≠ [] → mean_of (Fin <$> l) = Fin (Qsum l / Qlen l).
Proof.
  intros Hne. unfold mean_of. rewrite fsum_Fin, length_fmap.
  unfold of_nat, fdiv. rewrite Qsign_of_nat_pos; [done|].
  destruct l; [done|]. simpl. lia.
Qed.

Lemma window_at_Fin w (qs : list Q) i :
  window_at w (Fin <$> qs) i = Fin <$> drop (S i - w) (take (S i) qs).
Proof. unfold window_at. by rewrite fmap_drop, fmap_take. Qed.

(** In a trend, the long window is the short window preceded by
    values that all compare the same way with its first value. *)
Lemma trend_windows c (qs : list Q) (sh lg i : nat) :
  trend c qs → (1 ≤ sh)%nat → (sh < lg)%nat → (lg ≤ S i)%nat →
  (i < length qs)%nat →
  ∃ A x B,
    A ≠ [] ∧
    drop (S i - sh) (take (S i) qs) = x :: B ∧
    drop (S i - lg) (take (S i) qs) = A ++ x :: B ∧
    Forall (λ a, (x ?= a)%Q = c) A ∧
    Forall (λ b, (b ?= x)%Q = c) B.
Proof.
  intros Ht Hsh Hlt Hlg Hi.
  set (T := take (S i) qs).
  assert (HT : length T = S i) by (unfold T; rewrite length_take; lia).
  set (a := (S i - lg)%nat). set (b := (S i - sh)%nat).
  assert (Hsplit : drop a T = take (b - a) (drop a T) ++ drop b T).
  { rewrite <- (take_drop (b - a) (drop a T)) at 1.
    rewrite drop_drop. by replace (a + (b - a))%nat with b by lia. }
  destruct (drop b T) as [|x B] eqn:HB.
  { apply (f_equal length) in HB. rewrite length_drop in HB. simpl in HB. lia. }
  assert (Hs : StronglySorted (λ a b, (b ?= a)%Q = c) (drop a T)).
  { apply (StronglySorted_app_1_r _ (take a T)). rewrite take_drop.
    apply (StronglySorted_app_1_l _ _ (drop (S i) qs)). unfold T.
    by rewrite take_drop. }
  rewrite Hsplit in Hs. apply StronglySorted_app in Hs as (Hab & _ & HxB).
  apply StronglySorted_cons in HxB as [HxB _].
  exists (take (b - a) (drop a T)), x, B. split_and!; try done.
  - intros HA. apply (f_equal length) in HA.
    rewrite length_take, length_drop in HA. simpl in HA. lia.
  - apply Forall_forall. intros y Hy. apply Hab; [done | by left].
Qed.

(** In a trend the difference of the averages has the sign of the
    trend wherever it is defined. *)
Lemma sma_diff_trend c (qs : list Q) (short long : Z) i x :
  trend c qs → 1 ≤ short → short < long →
  series_sub (rolling_sma short (Fin <$> qs)) (rolling_sma long (Fin <$> qs))
    !! i = Some x →
  sign_is c x.
Proof.
  intros Ht Hs Hlt Hx.
  destruct (decide (Z.of_nat i < long - 1)) as [Hw | Hw].
  { left. by eapply sma_diff_warm_up. }
  right.
  assert (Hi : (i < length qs)%nat).
  { apply lookup_lt_Some in Hx. unfold series_sub in Hx.
    rewrite length_series_zip, !length_rolling_sma, length_fmap in Hx. lia. }
  destruct (trend_windows c qs (Z.to_nat short) (Z.to_nat long) i)
    as (A & y & B & HA & Hshort & Hlong & HfA & HfB); [done | lia.. |].
  unfold series_sub in Hx.
  erewrite series_zip_lookup in Hx; cycle 1.
  - unfold rolling_sma. apply rolling_apply_lookup;
      [apply all_finite_fmap_Fin | by rewrite length_fmap].
  - unfold rolling_sma. apply rolling_apply_lookup;
      [apply all_finite_fmap_Fin | by rewrite length_fmap].
  - rewrite !bool_decide_eq_true_2 in Hx by lia.
    rewrite !window_at_Fin, Hshort, Hlong in Hx.
    rewrite !mean_of_Fin in Hx by (done || by destruct A).
    injection Hx as <-. eexists. split; [reflexivity|].
    by apply mean_gap_sign.
Qed.

Lemma StronglySorted_mono {A} (R R' : relation A) (l : list A) :
  (∀ a b, R a b → R' a b) → StronglySorted R l → StronglySorted R' l.
Proof.
  intros HR. induction 1 as [|a l _ IH Ha]; constructor; [done|].
  eapply Forall_impl; [exact Ha|]. apply HR.
Qed.

Lemma rising_trend qs : rising qs → trend Gt qs.
Proof.
  intros H. apply (StronglySorted_mono Qlt).
  - intros a b Hab. by apply Qgt_alt.
  - apply Sorted.Sorted_StronglySorted; [|done].
    intros a b c. apply Qlt_trans.
Qed.

Lemma falling_trend qs : falling qs → trend Lt qs.
Proof.
  intros H. apply (StronglySorted_mono (flip Qlt)).
  - intros a b Hab. by apply (proj1 (Qlt_alt _ _)).
  - apply Sorted.Sorted_StronglySorted; [|done].
    intros a b c Hab Hbc. unfold flip in *. by apply (Qlt_trans _ b).
Qed.

Lemma flat_trend qs : flat qs → trend Eq qs.
Proof.
  intros H. apply (StronglySorted_mono Qeq).
  - intros a b Hab. apply Qeq_alt. by symmetry.
  - apply Sorted.Sorted_StronglySorted; [|done].
    intros a b c. apply Qeq_trans.
Qed.

(** Between two values of the same sign, or missing, no crossover is
    marked. *)
Lemma cross_value_same_sign c x y :
  sign_is c x → sign_is c y → cross_value x y = 0.
Proof.
  intros Hx Hy. unfold cross_value.
  destruct (fltb x fzero && fgeb y fzero) eqn:E1.
  { exfalso. apply andb_true_iff in E1 as [E1 E2].
    destruct Hx as [-> | (q & -> & Hq)]; [done|].
    destruct Hy as [-> | (q' & -> & Hq')]; [done|].
    apply fltb_Fin in E1. unfold fgeb in E2. apply fleb_Fin in E2.
    apply (proj1 (Qlt_alt _ _)) in E1. rewrite E1 in Hq. subst c.
    apply (proj2 (Qlt_alt _ _)) in Hq'. lra. }
  destruct (fgtb x fzero && fleb y fzero) eqn:E2; [|done].
  exfalso. apply andb_true_iff in E2 as [E2 E3].
  destruct Hx as [-> | (q & -> & Hq)]; [done|].
  destruct Hy as [-> | (q' & -> & Hq')]; [done|].
  unfold fgtb in E2. apply fltb_Fin in E2. apply fleb_Fin in E3.
  apply Qgt_alt in E2. rewrite E2 in Hq. subst c.
  apply Qgt_alt in Hq'. lra.
Qed.

Lemma crossover_of_same_sign c (d : series) n :
  length d = n → Forall (sign_is c) d → crossover_of d n = replicate n 0.
Proof.
  intros Hn Hd. apply list_eq. intros i.
  destruct (decide (i < n)%nat) as [Hi | Hi].
  - destruct (lookup_lt_is_Some_2 d i) as [x Hx]; [lia|].
    destruct (lookup_lt_is_Some_2 (shift1 d) i) as [y Hy];
      [rewrite length_shift1; lia|].
    rewrite (crossover_of_lookup d n i x y Hn Hx Hy).
    rewrite lookup_replicate_2 by done. f_equal.
    rewrite Forall_lookup in Hd.
    apply (cross_value_same_sign c); [by eapply Hd|].
    destruct (shift1_lookup d i y Hy) as [[_ ->] | (j & _ & Hj)];
      [by left | by eapply Hd].
  - rewrite !lookup_ge_None_2; [done | |].
    + rewrite length_replicate. lia.
    + rewrite length_crossover_of by done. lia.
Qed.

Lemma signal_of_no_crossover self ss sl n :
  signal_of self (replicate n 0) ss sl n = replicate n 0.
Proof.
  unfold signal_of. case_bool_decide as Hk; [|done].
  apply list_eq. intros i.
  destruct (decide (i < n)%nat) as [Hi | Hi].
  - rewrite list_lookup_fmap, lookup_seq_lt, lookup_replicate_2 by done.
    simpl. f_equal.
    set (k := Z.to_nat (min_candles_after_cross self)).
    destruct (decide (confirmed_value k (replicate n 0) ss sl i = 0))
      as [|Hne]; [done|]. exfalso.
    destruct (confirmed_value_nonzero _ _ _ _ _ _ eq_refl Hne) as (_ & Hc & _).
    apply lookup_replicate in Hc as [Hc _]. congruence.
  - rewrite !lookup_ge_None_2; [done | |].
    + rewrite length_replicate. lia.
    + rewrite length_fmap, length_seq. lia.
Qed.

(** X18: when the difference of the two averages never changes sign
    where it has a value (always positive, always negative, or always
    zero), a run marks no crossover and emits no signal, with or
    without confirmation; the ledger is empty and the performance
    summary is the "no trades" summary.  In exact arithmetic
    ([sma_diff_trend] with [rising_trend], [falling_trend] and
    [flat_trend]) this is the case of closes that rise at every
    candle, fall at every candle or never move, for periods
    [1 <= short < long]; in floating point the rounding of the
    averages can change the sign of a difference that is close to
    zero. *)
Theorem steady_difference_gives_no_signal (σ : store) (self : Strategy)
    (l : loc) (df : DataFrame) (close : series) (ts : list Z)
    (c : comparison) :
  data self = Some l → σ !! l = Some df →
  cols df !! "close" = Some (FloatCol close) →
  cols df !! "time" = Some (TimeCol ts) →
  length close = nrows df →
  0 ≤ short_period self → 0 ≤ long_period self →
  Forall (sign_is c)
    (series_sub (rolling_sma (short_period self) close)
                (rolling_sma (long_period self) close)) →
  ∃ w' df',
    run (σ, self) = Ok w' ∧
    deref w'.1 (signals w'.2) = Ok df' ∧
    cols df' !! "crossover" = Some (IntCol (replicate (nrows df) 0)) ∧
    cols df' !! "signal" = Some (IntCol (replicate (nrows df) 0)) ∧
    get_entry_exit_pairs w' = Ok [] ∧
    get_performance_summary w'
      = Ok (NoTrades 0 "No complete trades found").
Proof.
  intros Hd Hl Hc Ht Lc Hs Hlong Hsign.
  rewrite (run_ok σ self l df close Hd Hl Hc Lc) by lia.
  set (F := with_signals self close df).
  set (ss := rolling_sma (short_period self) close) in *.
  set (sl := rolling_sma (long_period self) close) in *.
  assert (Hcross : crossover_of (series_sub ss sl) (nrows df)
                   = replicate (nrows df) 0).
  { apply (crossover_of_same_sign c); [|done].
    unfold ss, sl. by rewrite length_sma_diff. }
  assert (Hcol : cols F !! "crossover"
                 = Some (IntCol (replicate (nrows df) 0))).
  { unfold F. rewrite with_signals_crossover. fold ss sl.
    by rewrite Hcross. }
  assert (Hsig : cols F !! "signal" = Some (IntCol (replicate (nrows df) 0))).
  { unfold F. rewrite with_signals_signal. fold ss sl.
    by rewrite Hcross, signal_of_no_crossover. }
  assert (Hnone : reconstruct Flat
                    (signal_rows ts close (replicate (nrows df) 0)) = []).
  { apply (reconstruct_one_sided 0).
    apply signal_rows_one_sided. apply Forall_forall.
    intros s Hin. apply elem_of_replicate in Hin as [-> _]. by left. }
  assert (Hpairs : get_entry_exit_pairs
                     (<[l := F]> σ, set_signals (Some l) self) = Ok []).
  { rewrite (get_entry_exit_pairs_rows _ _ l F ts close
               (replicate (nrows df) 0)).
    - by rewrite Hnone.
    - by destruct self.
    - apply lookup_insert_eq.
    - unfold F, with_signals, with_indicators. solve_col.
    - unfold F, with_signals, with_indicators. solve_col.
    - done.
    - rewrite length_replicate. unfold F. symmetry.
      unfold with_signals, with_indicators. by rewrite !nrows_setitem.
    - by rewrite Hnone. }
  exists (<[l := F]> σ, set_signals (Some l) self), F. split_and!.
  - reflexivity.
  - destruct self. cbn. unfold deref. by rewrite lookup_insert_eq.
  - done.
  - done.
  - done.
  - unfold get_performance_summary. by rewrite Hpairs.
Qed.

Lemma steady_difference_gives_no_signal_witness :
  ∃ w' df',
    run (rising_world.1, rising_world.2) = Ok w' ∧
    deref w'.1 (signals w'.2) = Ok df' ∧
    cols df' !! "crossover" = Some (IntCol (replicate (nrows rising_frame) 0)) ∧
    cols df' !! "signal" = Some (IntCol (replicate (nrows rising_frame) 0)) ∧
    get_entry_exit_pairs w' = Ok [] ∧
    get_performance_summary w'
      = Ok (NoTrades 0 "No complete trades found").
Proof.
  apply (steady_difference_gives_no_signal rising_world.1 rising_world.2
           1%positive rising_frame (Fin <$> [1; 2; 3; 4; 5]%Q)
           [0; 1; 2; 3; 4] Gt);
    try reflexivity; try (simpl; lia).
  vm_compute.
  repeat (constructor;
          [first [by left | right; eexists; split; reflexivity]|]).
  constructor.
Defined.

End steady_market.

(** ** The ledger in time *)

Section ledger_in_time.
Import Float Pandas BaseStrategy SMACrossoverStrategy Spec Examples.

Variable R : relation Z.

Lemma zip_rows_times (P : Z → Prop) (t : list Z) : ∀ c s,
  Forall P t → Forall (λ r, P (row_time r)) (zip_rows t c s).
Proof.
  induction t as [|t0 t IH]; intros c s Ht; [constructor|].
  apply Forall_cons in Ht as [H0 Ht].
  destruct c, s; try constructor; [done|]. by apply IH.
Qed.

Lemma zip_rows_sorted (t : list Z) : ∀ c s,
  StronglySorted R t →
  StronglySorted (λ r1 r2, R (row_time r1) (row_time r2)) (zip_rows t c s).
Proof.
  induction t as [|t0 t IH]; intros c s Ht; [constructor|].
  apply StronglySorted_cons in Ht as [H0 Ht].
  destruct c, s; try constructor; [by apply IH|].
  by apply (zip_rows_times (R t0)).
Qed.

Lemma StronglySorted_filter_rows {A} (Q : relation A) (f : A → Prop)
    `{!∀ x, Decision (f x)} (l : list A) :
  StronglySorted Q l → StronglySorted Q (filter f l).
Proof.
  induction 1 as [|a l _ IH Ha]; [constructor|].
  rewrite filter_cons. case_decide; [|done].
  constructor; [done|]. apply Forall_forall. intros b Hb.
  apply list_elem_of_filter in Hb as [_ Hb].
  rewrite Forall_forall in Ha. by apply Ha.
Qed.

(** Every trade completed from a state whose entry precedes all the
    remaining rows is left after it was entered. *)
Lemma reconstruct_in_time rows : ∀ st,
  StronglySorted (λ r1 r2, R (row_time r1) (row_time r2)) rows →
  (∀ d time price, st = Holding d time price →
     Forall (λ r, R time (row_time r)) rows) →
  Forall (λ t, R (entry_time t) (exit_time t)) (reconstruct st rows).
Proof.
  induction rows as [|row rows IH]; intros st Hs Hst; [constructor|].
  apply StronglySorted_cons in Hs as [Hrow Hs]. simpl.
  assert (Hkeep : ∀ d time price, st = Holding d time price →
            Forall (λ r, R time (row_time r)) rows).
  { intros d time price E. specialize (Hst d time price E).
    by apply Forall_cons in Hst as [_ Hst]. }
  assert (Hnew : ∀ d d' time price,
            Holding d (row_time row) (row_close row) = Holding d' time price →
            Forall (λ r, R time (row_time r)) rows).
  { intros d d' time price E. by injection E as _ <- _. }
  destruct (direction (row_signal row)) as [d|]; [|by apply IH].
  destruct st as [|d0 time price].
  - apply IH; [done|]. apply Hnew.
  - destruct (same_direction d d0); [by apply IH|].
    constructor.
    + specialize (Hst d0 time price eq_refl).
      by apply Forall_cons in Hst as [H0 _].
    + apply IH; [done|]. apply Hnew.
Qed.

Lemma ledger_in_time time close sig :
  StronglySorted R time →
  Forall (λ t, R (entry_time t) (exit_time t))
    (reconstruct Flat (signal_rows time close sig)).
Proof.
  intros Hs. apply reconstruct_in_time; [|done].
  unfold signal_rows. apply StronglySorted_filter_rows.
  by apply zip_rows_sorted.
Qed.

End ledger_in_time.

Section ledger_order.
Import Float Pandas BaseStrategy SMACrossoverStrategy Spec Examples.

(** X19: over candles in ascending time order (as [load_data] leaves
    them) no trade of a returned ledger is left before it is entered;
    when the timestamps are also distinct every trade is left strictly
    after it is entered.  A ledger is returned when no close is
    zero. *)
Theorem trades_follow_time (σ : store) (self : Strategy) (l : loc)
    (df : DataFrame) (time : list Z) (close : series) (sig : list Z) :
  data self = Some l →
  σ !! l = Some df →
  cols df !! "time" = Some (TimeCol time) →
  cols df !! "close" = Some (FloatCol close) →
  cols df !! "signal" = Some (IntCol sig) →
  length sig = nrows df →
  ascending time →
  (Forall not_zero close →
   ∃ ledger, get_entry_exit_pairs (σ, self) = Ok ledger) ∧
  (∀ ledger,
     get_entry_exit_pairs (σ, self) = Ok ledger →
     Forall (λ t, entry_time t ≤ exit_time t) ledger ∧
     (NoDup time → Forall (λ t, entry_time t < exit_time t) ledger)).
Proof.
  intros Hd Hl Ht Hc Hs Hlen Hasc. split.
  { intros Hclose. eexists.
    apply (get_entry_exit_pairs_rows σ self l df time close sig); try done.
    by apply (ledger_entry_prices not_zero). }
  intros ledger Hrun.
  rewrite (get_entry_exit_pairs_Ok σ self l df time close sig ledger) by done.
  assert (Hle : StronglySorted Z.le time).
  { apply Sorted.Sorted_StronglySorted; [|done]. intros a b c. lia. }
  split.
  - by apply (ledger_in_time Z.le).
  - intros Hnd. apply (ledger_in_time Z.lt).
    clear -Hle Hnd. induction Hle as [|a t _ IH Ha]; [constructor|].
    apply NoDup_cons in Hnd as [Hin Hnd]. constructor; [by apply IH|].
    apply Forall_forall. intros b Hb.
    rewrite Forall_forall in Ha. specialize (Ha b Hb).
    assert (a ≠ b) by (intros ->; done). lia.
Qed.

Lemma trades_follow_time_witness :
  ∃ ledger,
    get_entry_exit_pairs (alternating_world.1, alternating_world.2)
      = Ok ledger ∧
    Forall (λ t, entry_time t ≤ exit_time t) ledger ∧
    (NoDup [0; 1; 2; 3; 4] →
     Forall (λ t, entry_time t < exit_time t) ledger).
Proof.
  destruct (trades_follow_time alternating_world.1 alternating_world.2
              1%positive alternating_frame [0; 1; 2; 3; 4]
              [Fin 1; Fin 2; Fin 1; Fin 3; Fin 2] [1; -1; 1; -1; 1])
    as [Hok Horder]; try reflexivity.
  { unfold ascending. repeat constructor; lia. }
  destruct Hok as [ledger Hrun]; [repeat constructor|].
  exists ledger. split; [exact Hrun | exact (Horder ledger Hrun)].
Defined.

End ledger_order.

(** ** The figures of a summary are in range *)

Section summary_ranges.
Import Float Pandas BaseStrategy SMACrossoverStrategy Spec Examples.







End summary_ranges.

(** ** The average true range *)

Section true_range.
Import Float Pandas TechnicalIndicators Spec Examples.






End true_range.

(** ** Bollinger bands *)

Section band_order.
Import Float Pandas TechnicalIndicators Spec Examples.

Lemma fsqrt_Fin_nonneg (sqrtQ : Q → Q) x r :
  (∀ q, (0 <= q)%Q → (0 <= sqrtQ q)%Q) →
  fsqrt sqrtQ x = Fin r → (0 <= r)%Q.
Proof.
  intros Hsqrt Hx. destruct x as [q| | |]; try done. simpl in Hx.
  destruct (Qsign q) eqn:Hs; try done; injection Hx as <-; apply Hsqrt.
  - apply Qeq_alt in Hs. lra.
  - apply Qgt_alt in Hs. lra.
Qed.

Lemma rolling_std_Fin_nonneg (sqrtQ : Q → Q) w minp (s : series) i r :
  (∀ q, (0 <= q)%Q → (0 <= sqrtQ q)%Q) →
  rolling_apply (std_of sqrtQ) 1 w minp s !! i = Some (Fin r) → (0 <= r)%Q.
Proof.
  intros Hsqrt Hr. unfold rolling_apply in Hr.
  rewrite list_lookup_fmap in Hr.
  destruct (seq 0 (length s) !! i) as [j|]; [|done]. simpl in Hr.
  injection Hr as Hr. case_bool_decide; [|done].
  by apply (fsqrt_Fin_nonneg sqrtQ _ _ Hsqrt Hr).
Qed.

(** X22: wherever the upper and the lower Bollinger band are numbers,
    with [num_std >= 0] and a square root that is not negative, the
    middle band is a number between them. *)
Theorem bollinger_bands_ordered (sqrtQ : Q → Q) (data : series)
    (period : Z) (k : Q) :
  (∀ q, (0 <= q)%Q → (0 <= sqrtQ q)%Q) →
  1 ≤ period → (0 <= k)%Q →
  ∃ mid up lo,
    bollinger_bands sqrtQ data period (Fin k) = Ok (mid, up, lo) ∧
    ∀ i u l, up !! i = Some (Fin u) → lo !! i = Some (Fin l) →
      ∃ m, mid !! i = Some (Fin m) ∧ (l <= m)%Q ∧ (m <= u)%Q.
Proof.
  intros Hsqrt Hp Hk. unfold bollinger_bands.
  rewrite rolling_mean_ok by lia. bind_ok.
  rewrite rolling_std_ok by lia. bind_ok.
  set (mid := rolling_apply mean_of 0 _ _ data).
  set (std := rolling_apply (std_of sqrtQ) 1 _ _ data).
  eexists _, _, _. split; [reflexivity|]. intros i u l Hu Hl.
  assert (Hi : (i < length data)%nat).
  { apply lookup_lt_Some in Hu.
    rewrite length_series_zip, length_fmap in Hu.
    unfold mid, std in Hu. rewrite !length_rolling_apply in Hu. lia. }
  destruct (lookup_lt_is_Some_2 mid i) as [m Hm];
    [unfold mid; by rewrite length_rolling_apply|].
  destruct (lookup_lt_is_Some_2 std i) as [s Hs];
    [unfold std; by rewrite length_rolling_apply|].
  assert (Hks : (flip fmul (Fin k) <$> std) !! i = Some (fmul s (Fin k))).
  { by rewrite list_lookup_fmap, Hs. }
  rewrite (series_zip_lookup fadd _ _ i _ _ Hm Hks) in Hu.
  rewrite (series_zip_lookup fsub _ _ i _ _ Hm Hks) in Hl.
  injection Hu as Hu. injection Hl as Hl.
  destruct m as [qm| | |]; try (by destruct (fmul s (Fin k))).
  destruct s as [qs| | |]; try (simpl in Hu; by destruct (Qsign k)).
  simpl in Hu, Hl. injection Hu as <-. injection Hl as <-.
  pose proof (rolling_std_Fin_nonneg sqrtQ _ _ _ _ _ Hsqrt Hs) as Hqs.
  assert (Ht : (0 <= qs * k)%Q) by by apply Qmult_le_0_compat.
  exists qm. split_and!; [done | lra | lra].
Qed.

Lemma bollinger_bands_ordered_witness :
  ∃ mid up lo,
    bollinger_bands (λ q, q) [Fin 1; Fin 3; Fin 2] 2 (Fin 2)
      = Ok (mid, up, lo) ∧
    ∀ i u l, up !! i = Some (Fin u) → lo !! i = Some (Fin l) →
      ∃ m, mid !! i = Some (Fin m) ∧ (l <= m)%Q ∧ (m <= u)%Q.
Proof.
  apply (bollinger_bands_ordered (λ q, q) [Fin 1; Fin 3; Fin 2] 2 2);
    [intros q Hq; exact Hq | lia | lra].
Defined.

End band_order.
